(** * Memos Sync (plugin-obsidian/main.ts): the sync run, embedded and verified

    The plugin mirrors the memos and resources of a remote Memos server into a
    folder of an Obsidian vault.  This file embeds [MemosSyncPlugin.sync] and
    the collaborators it talks to (the fetch client, the vault adapter, the
    plugin data store, the notice surface) as executable definitions and
    proves the properties of one sync run; it also embeds [loadSettings],
    [saveSettings] and the [onChange] handlers of the settings tab, and
    proves how they compose with a run.

    How the asynchronous code is read.  [sync] is an [async] method.  A call
    to the adapter is issued at the point where the source calls it and takes
    effect on the vault at that point; the promise it returns is settled with
    the result the vault gave then.  [await p] hands the settled result to
    the code that follows (or throws the rejection).  A promise that nobody
    awaits and that is rejected is an unhandled rejection.  An [async]
    callback given to [forEach] runs up to its first [await] when [forEach]
    calls it; the rest of the callback runs when the enclosing method next
    suspends on an [await] of its own (or returns), in the order the
    callbacks were started. *)

From Stdlib Require Import ZArith Lia Ascii.
From stdpp Require Import base strings list gmap.

Local Open Scope Z_scope.

(** ** Data model *)

(** A memo of the remote snapshot ([res.memos] of [fetchMemosWithResource]). *)
Module Memo.
Record t := mk { id : string; content : string; updatedTs : Z }.
End Memo.

(** A resource of the remote snapshot; [content] is a binary payload. *)
Module Resource.
Record t := mk { filename : string; content : list Byte.byte }.
End Resource.

(** The value [fetchMemosWithResource] resolves to. *)
Record Snapshot := mkSnapshot {
  memos : list Memo.t;
  resources : list Resource.t;
}.

(** [interface MemosSyncPluginSettings]. *)
Module Settings.
Record t := mk {
  openAPI : string;
  folderToSync : string;
  debug : bool;
  lastSyncTime : option Z;
}.
End Settings.

(** [const DEFAULT_SETTINGS]. *)
Definition DEFAULT_SETTINGS : Settings.t :=
  Settings.mk "" "Memos Sync" false None.

(** What [loadData()] yields: the stored object, where any key may be
    missing; no stored object at all is [None] at the use site. *)
Module Stored.
Record t := mk {
  openAPI : option string;
  folderToSync : option string;
  debug : option bool;
  lastSyncTime : option Z;
}.
End Stored.

(** A file of the vault, as written by [adapter.write] or
    [adapter.writeBinary]. *)
Inductive FileData :=
| Text (s : string)
| Binary (b : list Byte.byte).

(** The calls [sync] makes to its collaborators that act on the network, on
    the vault or on the stored plugin data. *)
Inductive Call :=
| CallFetch (key : string)
| CallExists (path : string)
| CallCreateFolder (path : string)
| CallWrite (path : string) (text : string)
| CallWriteBinary (path : string) (bytes : list Byte.byte)
| CallList (path : string)
| CallRemove (path : string)
| CallSaveData (d : Stored.t).

(** What a rejected promise carries. *)
Inductive Err :=
| FetchError (reason : string)
| StoreError (c : Call).

(** The texts shown to the user, one constructor per template of the
    source. *)
Inductive Message :=
| PleaseEnterKey                          (* "Please enter your OpenAPI key." *)
| StartSyncing                            (* "Start syncing memos." *)
| FetchedTotal (total : nat)              (* "Fetch memos from API successfully. Total: ..." *)
| CreatedMemosFolder                      (* "Created memos folder." *)
| CreatedResourcesFolder                  (* "Created resources folder." *)
| SkipMemo (id : string) (ms last : Z)    (* "Skip memo ..., because ... < ..." *)
| SyncedMemo (id : string)                (* "Synced memo: ..." *)
| SyncedResource (filename : string)      (* "Synced resource: ..." *)
| DeletedMemo (path : string)             (* "Deleted memo: ..." *)
| DeletedResource (path : string)         (* "Deleted resource: ..." *)
| SyncSuccess                             (* "Sync memos successfully." *)
| SyncFailed.                             (* "Failed to sync memos. Please check ..." *)

(** What a run does that can be observed from outside, in the order it
    happens. *)
Inductive Event :=
| Called (c : Call)
| Notice (m : Message) (duration : option Z)   (* new Notice(message, duration) *)
| ConsoleError (e : Err)                       (* console.error(e) *)
| Unhandled (e : Err).                         (* a rejected promise nobody awaited *)

(** The state a run works on: the vault, the stored plugin data and the
    plugin's [settings] field. *)
Record World := mkWorld {
  files : gmap string FileData;
  folders : gset string;
  data : option Stored.t;
  settings : Settings.t;
}.

(** What a run is given from outside: the answer of the remote server, the
    clock, and which calls the store fails. *)
Record Env := mkEnv {
  fetchMemosWithResource : string → Err + Snapshot;
  now : Z;
  fault : Call → bool;
}.

Definition set_files (f : gmap string FileData) (w : World) : World :=
  mkWorld f (folders w) (data w) (settings w).
Definition set_folders (d : gset string) (w : World) : World :=
  mkWorld (files w) d (data w) (settings w).
Definition set_data (d : option Stored.t) (w : World) : World :=
  mkWorld (files w) (folders w) d (settings w).
Definition set_settings (s : Settings.t) (w : World) : World :=
  mkWorld (files w) (folders w) (data w) s.

(** ** The monad of the run: state, a log of events, and exceptions *)

Record Out (A : Type) := mkOut {
  result : Err + A;
  world : World;
  events : list Event;
}.
Arguments mkOut {A} _ _ _.
Arguments result {A} _.
Arguments world {A} _.
Arguments events {A} _.

Definition M (A : Type) : Type := World → Out A.

#[global] Instance M_ret : MRet M := λ A a w, mkOut (inr a) w [].

(** What happened before [o] is put in front of its events. *)
Definition prepend {A} (l : list Event) (o : Out A) : Out A :=
  mkOut (result o) (world o) (l ++ events o).

#[global] Instance M_bind : MBind M := λ A B k m w,
  let o := m w in
  match result o with
  | inl e => mkOut (inl e) (world o) (events o)
  | inr a => prepend (events o) (k a (world o))
  end.

Definition throw {A} (e : Err) : M A := λ w, mkOut (inl e) w [].
Definition emit (ev : Event) : M unit := λ w, mkOut (inr tt) w [ev].
Definition modify (f : World → World) : M unit := λ w, mkOut (inr tt) (f w) [].
Definition gets {A} (f : World → A) : M A := λ w, mkOut (inr (f w)) w [].

(** A promise that has settled: rejected with an error or resolved with a
    value. *)
Definition Promise (A : Type) : Type := (Err + A)%type.

(** Calling an asynchronous operation without awaiting it: the call is
    made, nothing is thrown here. *)
Definition start {A} (m : M A) : M (Promise A) := λ w,
  let o := m w in mkOut (inr (result o)) (world o) (events o).

(** [await p]. *)
Definition await {A} (p : Promise A) : M A := λ w, mkOut p w [].

(** A promise that is dropped: its rejection, if any, is unhandled. *)
Definition forget {A} (p : Promise A) : M unit :=
  match p with
  | inl e => emit (Unhandled e)
  | inr _ => mret tt
  end.

(** [xs.forEach(cb)]. *)
Fixpoint forEach {A} (xs : list A) (cb : A → M unit) : M unit :=
  match xs with
  | [] => mret tt
  | x :: xs' => cb x ;; forEach xs' cb
  end.

(** ** Paths *)

Definition memosFolder (folderToSync : string) : string :=
  folderToSync +:+ "/memos".
Definition resourcesFolder (folderToSync : string) : string :=
  folderToSync +:+ "/resources".
(** [`${folderToSync}/memos/${memo.id}.md`] *)
Definition memoPath (folderToSync : string) (memo : Memo.t) : string :=
  folderToSync +:+ "/memos/" +:+ Memo.id memo +:+ ".md".
(** [`${folderToSync}/resources/${resource.filename}`] *)
Definition resourcePath (folderToSync : string) (resource : Resource.t) : string :=
  folderToSync +:+ "/resources/" +:+ Resource.filename resource.

Fixpoint strip_prefix (pre s : string) : option string :=
  match pre, s with
  | EmptyString, _ => Some s
  | String a pre', String b s' =>
      if Ascii.eqb a b then strip_prefix pre' s' else None
  | String _ _, EmptyString => None
  end.

Fixpoint has_slash (s : string) : bool :=
  match s with
  | EmptyString => false
  | String a s' => Ascii.eqb a "/"%char || has_slash s'
  end.

(** [child_of dir p]: [p] names an entry directly inside folder [dir]. *)
Definition child_of (dir p : string) : bool :=
  match strip_prefix (dir +:+ "/") p with
  | Some name => negb (has_slash name)
  | None => false
  end.

(** ** The collaborators *)

(** Modelled from the spec: the vault adapter of the host (Obsidian's
    [DataAdapter] and [Vault.createFolder]) is not part of the repository.
    The vault is a finite map from paths to file contents and a set of
    folder paths.  [exists] answers for files and folders, [write] and
    [writeBinary] replace the whole content of the path, [list] gives the
    files directly inside a folder, [remove] deletes a file and rejects
    when there is none, [createFolder] rejects when the path is taken.
    Every call rejects, without effect, when the store fails it
    ([fault]). *)
Definition path_exists (w : World) (p : string) : bool :=
  bool_decide (is_Some (files w !! p)) || bool_decide (p ∈ folders w).

Definition list_files (w : World) (dir : string) : list string :=
  filter (λ p, child_of dir p) (map_to_list (files w)).*1.

Definition adapter_call {A} (env : Env) (c : Call) (act : M A) : M A :=
  emit (Called c) ;;
  if fault env c then throw (StoreError c) else act.

Definition adapter_exists (env : Env) (p : string) : M bool :=
  adapter_call env (CallExists p) (gets (λ w, path_exists w p)).

Definition vault_createFolder (env : Env) (p : string) : M unit :=
  adapter_call env (CallCreateFolder p) (
    taken ← gets (λ w, path_exists w p);
    if taken : bool then throw (StoreError (CallCreateFolder p))
    else modify (λ w, set_folders ({[p]} ∪ folders w) w)).

Definition adapter_write (env : Env) (p : string) (c : string) : M unit :=
  adapter_call env (CallWrite p c)
    (modify (λ w, set_files (<[p := Text c]> (files w)) w)).

Definition adapter_writeBinary (env : Env) (p : string) (c : list Byte.byte) : M unit :=
  adapter_call env (CallWriteBinary p c)
    (modify (λ w, set_files (<[p := Binary c]> (files w)) w)).

Definition adapter_list (env : Env) (dir : string) : M (list string) :=
  adapter_call env (CallList dir) (gets (λ w, list_files w dir)).

Definition adapter_remove (env : Env) (p : string) : M unit :=
  adapter_call env (CallRemove p) (
    present ← gets (λ w, bool_decide (is_Some (files w !! p)));
    if present : bool then modify (λ w, set_files (delete p (files w)) w)
    else throw (StoreError (CallRemove p))).

(** Modelled from the spec: [fetchMemosWithResource] of [@kirika/core] is
    not part of the repository; it either yields the complete snapshot or
    fails. *)
Definition fetch (env : Env) (key : string) : M Snapshot :=
  emit (Called (CallFetch key)) ;;
  await (fetchMemosWithResource env key).

(** [Object.assign({}, DEFAULT_SETTINGS, await this.loadData())] *)
Definition assign_settings (d : option Stored.t) : Settings.t :=
  match d with
  | None => DEFAULT_SETTINGS
  | Some o =>
      Settings.mk
        (default (Settings.openAPI DEFAULT_SETTINGS) (Stored.openAPI o))
        (default (Settings.folderToSync DEFAULT_SETTINGS) (Stored.folderToSync o))
        (default (Settings.debug DEFAULT_SETTINGS) (Stored.debug o))
        (Stored.lastSyncTime o)
  end.

(** [loadSettings]: the stored object is read by [await this.loadData()].
    Modelled from the spec: [loadData] belongs to the host and is not part
    of the repository; it resolves with the stored object.  A [loadData]
    that rejects is not modelled: it would reject [loadSettings], and with
    it [sync] at its first line, before the [try] block. *)
Definition loadSettings : M unit :=
  modify (λ w, set_settings (assign_settings (data w)) w).

(** The object [{ ...this.settings, lastSyncTime: t }]. *)
Definition with_lastSyncTime (s : Settings.t) (t : Z) : Stored.t :=
  Stored.mk (Some (Settings.openAPI s)) (Some (Settings.folderToSync s))
            (Some (Settings.debug s)) (Some t).

(** Modelled from the spec: [saveData] belongs to the host and is not part
    of the repository; [this.saveData(d)] replaces the stored object by
    [d] and resolves.  A store of the plugin data that fails is not
    modelled: where the source does not await the call, a rejection would
    be left unhandled and nothing would be stored. *)
Definition saveData (d : Stored.t) : M unit :=
  emit (Called (CallSaveData d)) ;;
  modify (set_data (Some d)).

(** [log(message, duration)] *)
Definition log (m : Message) (duration : option Z) : M unit :=
  emit (Notice m duration).

(** [debug(message)] *)
Definition debug (s : Settings.t) (m : Message) : M unit :=
  if Settings.debug s then emit (Notice m (Some 0)) else mret tt.

(** ** [sync] *)

(** A number used as a condition: [0] is falsy. *)
Definition truthy (n : Z) : bool := negb (n =? 0).

(** The numbers of the program are JavaScript numbers, IEEE 754 doubles;
    the time stamps it handles are the integers among them.  A product of
    two of them is the double nearest to the exact product, ties going to
    the even significand: [to_double n] is that double for the integer [n],
    which is [n] itself below [2^53] and a multiple of a power of two
    beyond.  (Past the largest double the product is an infinity; its
    comparison with a finite double comes out as the comparison of the
    integer kept here.) *)
Definition to_double (n : Z) : Z :=
  let m := Z.abs n in
  if m <? 2 ^ 53 then n
  else
    let e := Z.log2 m - 52 in
    let q := m / 2 ^ e in
    let r := m mod 2 ^ e in
    let half := 2 ^ (e - 1) in
    let q' := if r <? half then q
              else if half <? r then q + 1
              else if Z.even q then q else q + 1 in
    Z.sgn n * (q' * 2 ^ e).

(** [lastUpdated * 1000] *)
Definition times1000 (lastUpdated : Z) : Z := to_double (lastUpdated * 1000).

(** [lastSyncTime && lastUpdated * 1000 < lastSyncTime] *)
Definition skips (lastSyncTime : option Z) (lastUpdated : Z) : bool :=
  match lastSyncTime with
  | None => false
  | Some t => truthy t && (times1000 lastUpdated <? t)
  end.

(** The callback of [res.memos.forEach]. *)
Definition memoCallback (env : Env) (s : Settings.t) (memo : Memo.t) : M unit :=
  let memoPath := memoPath (Settings.folderToSync s) memo in
  let memoContent := Memo.content memo in
  let lastUpdated := Memo.updatedTs memo in
  if skips (Settings.lastSyncTime s) lastUpdated then
    debug s (SkipMemo (Memo.id memo) (times1000 lastUpdated)
               (default 0 (Settings.lastSyncTime s)))
  else
    (p ← start (adapter_write env memoPath memoContent); forget p) ;;
    debug s (SyncedMemo (Memo.id memo)).

(** The callback of [res.resources.forEach], up to its [await]. *)
Definition resourceCallback_start (env : Env) (s : Settings.t)
    (resource : Resource.t) : M (Resource.t * Promise bool) :=
  let resourcePath := resourcePath (Settings.folderToSync s) resource in
  p ← start (adapter_exists env resourcePath);
  mret (resource, p).

(** The same callback from its [await] on; the promise of the callback
    itself is dropped by [forEach]. *)
Definition resourceCallback_resume (env : Env) (s : Settings.t)
    (pending : Resource.t * Promise bool) : M unit :=
  let resource := pending.1 in
  let resourcePath := resourcePath (Settings.folderToSync s) resource in
  done ← start (
    isResourceExists ← await pending.2;
    if isResourceExists : bool then mret tt
    else
      let resourceContent := Resource.content resource in
      (p ← start (adapter_writeBinary env resourcePath resourceContent); forget p) ;;
      debug s (SyncedResource (Resource.filename resource)));
  forget done.

(** The callback of [memosInVault.files.forEach] and of
    [resourcesInVault.files.forEach], up to its [await]; a path that is in
    the API response has nothing pending. *)
Definition pruneCallback_start (env : Env) (inAPI : list string)
    (path : string) : M (option (string * Promise unit)) :=
  if bool_decide (path ∈ inAPI) then mret None
  else
    p ← start (adapter_remove env path);
    mret (Some (path, p)).

(** The same callback from its [await] on. *)
Definition pruneCallback_resume (s : Settings.t) (deleted : string → Message)
    (pending : option (string * Promise unit)) : M unit :=
  match pending with
  | None => mret tt
  | Some (path, p) =>
      done ← start (await p ;; debug s (deleted path));
      forget done
  end.

(** The body of the [try] block from the fetch to [saveData].  What it
    returns are the callbacks of the last [forEach], which are still
    suspended when the block ends. *)
Definition sync_try (env : Env) (s : Settings.t)
    : M (list (option (string * Promise unit))) :=
  let folderToSync := Settings.folderToSync s in
  log StartSyncing None ;;
  res ← fetch env (Settings.openAPI s);
  debug s (FetchedTotal (length (memos res))) ;;
  isMemosFolderExists ← adapter_exists env (memosFolder folderToSync);
  (if isMemosFolderExists : bool then mret tt
   else vault_createFolder env (memosFolder folderToSync) ;;
        debug s CreatedMemosFolder) ;;
  isResourcesFolderExists ← adapter_exists env (resourcesFolder folderToSync);
  (if isResourcesFolderExists : bool then mret tt
   else vault_createFolder env (resourcesFolder folderToSync) ;;
        debug s CreatedResourcesFolder) ;;
  forEach (memos res) (memoCallback env s) ;;
  resourceCallbacks ← mapM (resourceCallback_start env s) (resources res);
  let memosInAPI := memoPath folderToSync <$> memos res in
  let resourcesInAPI := resourcePath folderToSync <$> resources res in
  listing ← start (adapter_list env (memosFolder folderToSync));
  forEach resourceCallbacks (resourceCallback_resume env s) ;;
  memosInVault ← await listing;
  memoRemovals ← mapM (pruneCallback_start env memosInAPI) memosInVault;
  listing' ← start (adapter_list env (resourcesFolder folderToSync));
  forEach memoRemovals (pruneCallback_resume s DeletedMemo) ;;
  resourcesInVault ← await listing';
  resourceRemovals ← mapM (pruneCallback_start env resourcesInAPI) resourcesInVault;
  log SyncSuccess None ;;
  saveData (with_lastSyncTime s (now env)) ;;
  mret resourceRemovals.

(** [async sync()] *)
Definition sync (env : Env) : M unit :=
  loadSettings ;;
  s ← gets settings;
  if bool_decide (Settings.openAPI s = "") then
    log PleaseEnterKey None
  else
    r ← start (sync_try env s);
    match r with
    | inr resourceRemovals =>
        forEach resourceRemovals (pruneCallback_resume s DeletedResource)
    | inl e =>
        log SyncFailed (Some 0) ;;
        emit (ConsoleError e)
    end.

(** [sync] from the line after [await this.loadSettings()] on: the rest of
    the method once the settings are loaded. *)
Definition sync_loaded (env : Env) : M unit :=
  s ← gets settings;
  if bool_decide (Settings.openAPI s = "") then
    log PleaseEnterKey None
  else
    r ← start (sync_try env s);
    match r with
    | inr resourceRemovals =>
        forEach resourceRemovals (pruneCallback_resume s DeletedResource)
    | inl e =>
        log SyncFailed (Some 0) ;;
        emit (ConsoleError e)
    end.

(** ** Closed forms of the stages of a run

    Each loop of [sync] has a closed form: the vault it leaves and the
    events it produces, as folds and maps over the items.  The lemmas of the
    next part show that the loops compute exactly these. *)

Definition debug_events (s : Settings.t) (m : Message) : list Event :=
  if Settings.debug s then [Notice m (Some 0)] else [].

(** A failed call that nobody awaits. *)
Definition rejection_events (env : Env) (c : Call) : list Event :=
  if fault env c then [Unhandled (StoreError c)] else [].

(** [vault_createFolder] after a negative [adapter_exists]. *)
Definition ensured (w : World) (dir : string) : World :=
  if path_exists w dir then w else set_folders ({[dir]} ∪ folders w) w.

Definition ensure_events (env : Env) (s : Settings.t) (w : World)
    (dir : string) (created : Message) : list Event :=
  Called (CallExists dir) ::
  (if path_exists w dir then []
   else Called (CallCreateFolder dir) :: debug_events s created).

(** The memo loop. *)
Definition memo_written (env : Env) (s : Settings.t) (memo : Memo.t) : bool :=
  negb (skips (Settings.lastSyncTime s) (Memo.updatedTs memo)) &&
  negb (fault env (CallWrite (memoPath (Settings.folderToSync s) memo)
                             (Memo.content memo))).

Definition memos_files (env : Env) (s : Settings.t) (ms : list Memo.t)
    (f : gmap string FileData) : gmap string FileData :=
  foldl (λ f memo,
           if memo_written env s memo
           then <[memoPath (Settings.folderToSync s) memo := Text (Memo.content memo)]> f
           else f) f ms.

Definition memo_events (env : Env) (s : Settings.t) (memo : Memo.t) : list Event :=
  let p := memoPath (Settings.folderToSync s) memo in
  if skips (Settings.lastSyncTime s) (Memo.updatedTs memo) then
    debug_events s (SkipMemo (Memo.id memo) (times1000 (Memo.updatedTs memo))
                      (default 0 (Settings.lastSyncTime s)))
  else
    Called (CallWrite p (Memo.content memo)) ::
    rejection_events env (CallWrite p (Memo.content memo)) ++
    debug_events s (SyncedMemo (Memo.id memo)).

(** The resource loop: the existence checks, then the writes. *)
Definition exists_promise (env : Env) (w : World) (p : string) : Promise bool :=
  if fault env (CallExists p) then inl (StoreError (CallExists p))
  else inr (path_exists w p).

Definition resource_pending (env : Env) (s : Settings.t) (w : World)
    (r : Resource.t) : Resource.t * Promise bool :=
  (r, exists_promise env w (resourcePath (Settings.folderToSync s) r)).

Definition resource_written (env : Env) (s : Settings.t)
    (pending : Resource.t * Promise bool) : bool :=
  match pending.2 with
  | inr false =>
      negb (fault env (CallWriteBinary
                         (resourcePath (Settings.folderToSync s) pending.1)
                         (Resource.content pending.1)))
  | _ => false
  end.

Definition resources_files (env : Env) (s : Settings.t)
    (pendings : list (Resource.t * Promise bool))
    (f : gmap string FileData) : gmap string FileData :=
  foldl (λ f pending,
           if resource_written env s pending
           then <[resourcePath (Settings.folderToSync s) pending.1
                  := Binary (Resource.content pending.1)]> f
           else f) f pendings.

Definition resource_events (env : Env) (s : Settings.t)
    (pending : Resource.t * Promise bool) : list Event :=
  let c := CallWriteBinary (resourcePath (Settings.folderToSync s) pending.1)
                           (Resource.content pending.1) in
  match pending.2 with
  | inl e => [Unhandled e]
  | inr true => []
  | inr false =>
      Called c :: rejection_events env c ++
      debug_events s (SyncedResource (Resource.filename pending.1))
  end.

(** The two pruning loops. *)
Definition prune_promise (env : Env) (p : string) : Promise unit :=
  if fault env (CallRemove p) then inl (StoreError (CallRemove p)) else inr tt.

Definition prune_pending (env : Env) (inAPI : list string) (p : string)
    : option (string * Promise unit) :=
  if bool_decide (p ∈ inAPI) then None else Some (p, prune_promise env p).

Definition pruned (env : Env) (inAPI listing : list string)
    (f : gmap string FileData) : gmap string FileData :=
  foldl (λ f p,
           if bool_decide (p ∈ inAPI) || fault env (CallRemove p) then f
           else delete p f) f listing.

Definition prune_events (inAPI : list string) (p : string) : list Event :=
  if bool_decide (p ∈ inAPI) then [] else [Called (CallRemove p)].

Definition prune_resume_events (s : Settings.t) (deleted : string → Message)
    (pending : option (string * Promise unit)) : list Event :=
  match pending with
  | None => []
  | Some (_, inl e) => [Unhandled e]
  | Some (p, inr _) => debug_events s (deleted p)
  end.

(** The vault after each stage, from the world [w] left by the two folder
    checks. *)
Section Stages.
Variables (env : Env) (s : Settings.t) (res : Snapshot).

Let folderToSync := Settings.folderToSync s.
Definition memosInAPI : list string := memoPath folderToSync <$> memos res.
Definition resourcesInAPI : list string :=
  resourcePath folderToSync <$> resources res.

Definition after_memos (w : World) : World :=
  set_files (memos_files env s (memos res) (files w)) w.

Definition pending_resources (w : World) : list (Resource.t * Promise bool) :=
  resource_pending env s (after_memos w) <$> resources res.

Definition after_resources (w : World) : World :=
  set_files (resources_files env s (pending_resources w)
               (files (after_memos w))) (after_memos w).

Definition memo_listing (w : World) : list string :=
  list_files (after_memos w) (memosFolder folderToSync).

Definition after_memo_prune (w : World) : World :=
  set_files (pruned env memosInAPI (memo_listing w)
               (files (after_resources w))) (after_resources w).

Definition resource_listing (w : World) : list string :=
  list_files (after_memo_prune w) (resourcesFolder folderToSync).

Definition after_resource_prune (w : World) : World :=
  set_files (pruned env resourcesInAPI (resource_listing w)
               (files (after_memo_prune w))) (after_memo_prune w).

(** The folder checks. *)
Definition with_folders (w : World) : World :=
  ensured (ensured w (memosFolder folderToSync)) (resourcesFolder folderToSync).

(** The events of a run in which no awaited call fails, up to the success
    notice. *)
Definition reconcile_events (w : World) : list Event :=
  let w1 := with_folders w in
  [Notice StartSyncing None; Called (CallFetch (Settings.openAPI s))] ++
  debug_events s (FetchedTotal (length (memos res))) ++
  ensure_events env s w (memosFolder folderToSync) CreatedMemosFolder ++
  ensure_events env s (ensured w (memosFolder folderToSync))
    (resourcesFolder folderToSync) CreatedResourcesFolder ++
  flat_map (memo_events env s) (memos res) ++
  ((λ r, Called (CallExists (resourcePath folderToSync r))) <$> resources res) ++
  [Called (CallList (memosFolder folderToSync))] ++
  flat_map (resource_events env s) (pending_resources w1) ++
  flat_map (prune_events memosInAPI) (memo_listing w1) ++
  [Called (CallList (resourcesFolder folderToSync))] ++
  flat_map (prune_resume_events s DeletedMemo)
    (prune_pending env memosInAPI <$> memo_listing w1) ++
  flat_map (prune_events resourcesInAPI) (resource_listing w1).

(** The events after the last listing, when the run has succeeded. *)
Definition closing_events (w : World) : list Event :=
  [Notice SyncSuccess None;
   Called (CallSaveData (with_lastSyncTime s (now env)))] ++
  flat_map (prune_resume_events s DeletedResource)
    (prune_pending env resourcesInAPI <$> resource_listing (with_folders w)).

(** The calls [sync] awaits inside the [try] block after the fetch. *)
Definition awaited (c : Call) : bool :=
  match c with
  | CallExists p | CallCreateFolder p | CallList p =>
      bool_decide (p = memosFolder folderToSync) ||
      bool_decide (p = resourcesFolder folderToSync)
  | _ => false
  end.
End Stages.

(** A run reports nothing final in event [ev]: no success or failure
    notice, no console error, no write of the plugin data. *)
Definition quiet (ev : Event) : Prop :=
  match ev with
  | Notice SyncSuccess _ | Notice SyncFailed _ | Notice PleaseEnterKey _ => False
  | ConsoleError _ => False
  | Called (CallSaveData _) => False
  | _ => True
  end.

(** How the [try] block can end once the snapshot is there: an awaited
    call has failed, the events are the first ones of a full run and the
    vault is as one of the earlier stages left it; or every stage has
    run. *)
Definition ends (env : Env) (s : Settings.t) (res : Snapshot) (w : World)
    (o : Out (list (option (string * Promise unit)))) : Prop :=
  let w1 := with_folders s w in
  (∃ c e, awaited s c = true ∧ fault env c = true ∧ result o = inl e ∧
          events o `prefix_of` reconcile_events env s res w ∧
          (world o = w
           ∨ world o = ensured w (memosFolder (Settings.folderToSync s))
           ∨ world o = after_resources env s res w1
           ∨ world o = after_memo_prune env s res w1))
  ∨ o = mkOut
      (inr (prune_pending env (resourcesInAPI s res) <$> resource_listing env s res w1))
      (set_data (Some (with_lastSyncTime s (now env)))
                (after_resource_prune env s res w1))
      (reconcile_events env s res w ++
       [Notice SyncSuccess None;
        Called (CallSaveData (with_lastSyncTime s (now env)))]).

(** ** Sample runs *)

(** The snapshot of the end-to-end scenario: one memo, one resource. *)
Definition sample_snapshot : Snapshot :=
  mkSnapshot [Memo.mk "a" "hello" 1000]
             [Resource.mk "img.png" [Byte.x89; Byte.x50; Byte.x4e; Byte.x47]].

Definition sample_fetch (key : string) : Err + Snapshot :=
  if bool_decide (key = "key") then inr sample_snapshot
  else inl (FetchError "401").

(** A store that fails nothing, and a clock. *)
Definition sample_env : Env := mkEnv sample_fetch 1700000000000 (λ _, false).

(** A vault with nothing in it and a stored key. *)
Definition sample_world : World :=
  mkWorld ∅ ∅ (Some (Stored.mk (Some "key") None None None)) DEFAULT_SETTINGS.

(** A vault that has been synced before: a stale file for memo [a], a file
    for a memo that is gone, a resource file with other bytes, an orphan
    resource, and a checkpoint later than the memo's update. *)
Definition seeded_world : World :=
  mkWorld
    {[ "Memos Sync/memos/a.md" := Text "stale";
       "Memos Sync/memos/b.md" := Text "gone";
       "Memos Sync/resources/img.png" := Binary [Byte.x00];
       "Memos Sync/resources/old.png" := Binary [Byte.x01] ]}
    {[ "Memos Sync/memos"; "Memos Sync/resources" ]}
    (Some (Stored.mk (Some "key") None (Some true) (Some 2000000)))
    DEFAULT_SETTINGS.

(** The same vault with the checkpoint [0], and a snapshot whose memo
    carries a time stamp before 1970. *)
Definition zero_checkpoint_world : World :=
  set_data (Some (Stored.mk (Some "key") None (Some true) (Some 0))) seeded_world.

Definition early_env : Env :=
  mkEnv (λ _, inr (mkSnapshot [Memo.mk "a" "hello" (-1)] []))
        1700000000000 (λ _, false).

(** A store that fails the write of memo [a]. *)
Definition failing_write : Call :=
  CallWrite "Memos Sync/memos/a.md" "hello".

Definition failing_env : Env :=
  mkEnv sample_fetch 1700000000000
        (λ c, match c with
              | CallWrite "Memos Sync/memos/a.md" _ => true
              | _ => false
              end).

(** A snapshot with two memos of one id, the first older, the second newer
    than the checkpoint of [seeded_world]. *)
Definition duplicate_env : Env :=
  mkEnv (λ _, inr (mkSnapshot [Memo.mk "a" "first" 1000;
                               Memo.mk "a" "second" 3000] []))
        1700000000000 (λ _, false).

(** A checkpoint beyond [2^53], and a memo whose [updatedTs * 1000] is
    below it as an integer and rounds up to it as a double. *)
Definition rounding_world : World :=
  set_data (Some (Stored.mk (Some "key") None (Some true)
                            (Some 72057594037931008))) seeded_world.

Definition rounding_env : Env :=
  mkEnv (λ _, inr (mkSnapshot [Memo.mk "a" "hello" 72057594037931] []))
        1700000000000 (λ _, false).

(** An empty vault but for a folder that stands at the path of the
    resource of [sample_snapshot]. *)
Definition blocked_world : World :=
  mkWorld ∅ {[ "Memos Sync/resources/img.png" ]}
          (Some (Stored.mk (Some "key") None None None)) DEFAULT_SETTINGS.

(** A snapshot whose memo id and whose file name hold a slash. *)
Definition nested_env : Env :=
  mkEnv (λ _, inr (mkSnapshot [Memo.mk "x/y" "hello" 1000]
                              [Resource.mk "d/img.png" [Byte.x89]]))
        1700000000000 (λ _, false).

(** The stored settings without the checkpoint. *)
Definition without_lastSyncTime (w : World) : World :=
  set_data
    (match data w with
     | Some d => Some (Stored.mk (Stored.openAPI d) (Stored.folderToSync d)
                                 (Stored.debug d) None)
     | None => None
     end) w.

(** Two worlds with the same vault. *)
Definition same_vault (w w' : World) : Prop :=
  files w = files w' ∧ folders w = folders w'.

(** A vault on which a run has nothing left to do: both folders are there,
    the memo loop writes what the files already hold, something stands at
    the path of every resource, and the two folders hold no file outside
    the API response. *)
Definition converged (env : Env) (s : Settings.t) (res : Snapshot)
    (w : World) : Prop :=
  let F := Settings.folderToSync s in
  path_exists w (memosFolder F) = true ∧
  path_exists w (resourcesFolder F) = true ∧
  (∀ p, memos_files env s (memos res) (files w) !! p = files w !! p) ∧
  (∀ r, r ∈ resources res → path_exists w (resourcePath F r) = true) ∧
  (∀ p, p ∈ list_files w (memosFolder F) → p ∈ memosInAPI s res) ∧
  (∀ p, p ∈ list_files w (resourcesFolder F) → p ∈ resourcesInAPI s res).

(** The file operations on single items: a memo write, a resource write,
    the removal of an orphan. *)
Definition item_call (c : Call) : bool :=
  match c with
  | CallWrite _ _ | CallWriteBinary _ _ | CallRemove _ => true
  | _ => false
  end.

(** A run in which every failed file operation on an item has been caught
    and logged: its rejection is not left unhandled, and the console shows
    its error. *)
Definition caught_and_logged (env : Env) (o : Out unit) : Prop :=
  ∀ c, item_call c = true → Called c ∈ events o → fault env c = true →
       (Unhandled (StoreError c) ∉ events o)
       ∧ ConsoleError (StoreError c) ∈ events o.

(** ** [saveSettings] and the settings tab *)

(** The object [this.settings] as [saveData] stores it: after
    [loadSettings] the three keys with a default are always there,
    [lastSyncTime] only when it was stored. *)
Definition stored_settings (s : Settings.t) : Stored.t :=
  Stored.mk (Some (Settings.openAPI s)) (Some (Settings.folderToSync s))
            (Some (Settings.debug s)) (Settings.lastSyncTime s).

(** [saveSettings] *)
Definition saveSettings : M unit :=
  s ← gets settings;
  saveData (stored_settings s).

(** The assignments [this.plugin.settings.openAPI = value] and the like. *)
Definition update_openAPI (value : string) (s : Settings.t) : Settings.t :=
  Settings.mk value (Settings.folderToSync s) (Settings.debug s)
              (Settings.lastSyncTime s).
Definition update_folderToSync (value : string) (s : Settings.t) : Settings.t :=
  Settings.mk (Settings.openAPI s) value (Settings.debug s)
              (Settings.lastSyncTime s).
Definition update_debug (value : bool) (s : Settings.t) : Settings.t :=
  Settings.mk (Settings.openAPI s) (Settings.folderToSync s) value
              (Settings.lastSyncTime s).

(** What a handler of the settings tab does that can be observed: a line
    of [console.log], a notice with a text of the tab, or an event of the
    plugin. *)
Inductive TabEvent :=
| ConsoleLog (line : string)
| TabNotice (text : string)
| Plugin (ev : Event).

(** A handler of [MemosSyncSettingTab.display]: what it shows and the world
    it leaves.  A handler runs from its first line to the end of its
    [await]; no run of [sync] is under way at the same time. *)
Definition Handler : Type := World → list TabEvent * World.

(** The assignment to a field of [this.plugin.settings], then
    [await this.plugin.saveSettings()]. *)
Definition assign_and_save (update : Settings.t → Settings.t) : M unit :=
  modify (λ w, set_settings (update (settings w)) w) ;;
  saveSettings.

(** The [onChange] of the OpenAPI field. *)
Definition onChange_openAPI (value : string) : Handler := λ w,
  let o := assign_and_save (update_openAPI value) w in
  (ConsoleLog ("Secret: " +:+ value) :: (Plugin <$> events o), world o).

(** The [onChange] of the folder field. *)
Definition onChange_folderToSync (value : string) : Handler := λ w,
  if bool_decide (value = "") then
    ([TabNotice "Please enter the folder name."], w)
  else
    let o := assign_and_save (update_folderToSync value) w in
    (Plugin <$> events o, world o).

(** The [onChange] of the debug toggle. *)
Definition onChange_debug (value : bool) : Handler := λ w,
  let o := assign_and_save (update_debug value) w in
  (Plugin <$> events o, world o).

(** ** Vocabulary of the further properties *)

(** [under dir p]: the path [p] lies below folder [dir], at any depth. *)
Definition under (dir p : string) : bool :=
  bool_decide (is_Some (strip_prefix (dir +:+ "/") p)).

(** The messages that only [debug] shows. *)
Definition debug_message (m : Message) : bool :=
  match m with
  | PleaseEnterKey | StartSyncing | SyncSuccess | SyncFailed => false
  | _ => true
  end.

(** What a notice of a run looks like: a message of [debug] appears only
    with the debug flag on and stays until dismissed (duration [0]); of the
    messages of [log] only the failure stays, the others have no
    duration. *)
Definition expected_notice (s : Settings.t) (ev : Event) : Prop :=
  match ev with
  | Notice m d =>
      if debug_message m then Settings.debug s = true ∧ d = Some 0
      else d = match m with SyncFailed => Some 0 | _ => None end
  | _ => True
  end.

(** The events of a run up to the end of the writes: what has happened
    when the listing of the memos folder, issued before the resources are
    written, is awaited. *)
Definition writing_events (env : Env) (s : Settings.t) (res : Snapshot)
    (w : World) : list Event :=
  let F := Settings.folderToSync s in
  [Notice StartSyncing None; Called (CallFetch (Settings.openAPI s))] ++
  debug_events s (FetchedTotal (length (memos res))) ++
  ensure_events env s w (memosFolder F) CreatedMemosFolder ++
  ensure_events env s (ensured w (memosFolder F))
    (resourcesFolder F) CreatedResourcesFolder ++
  flat_map (memo_events env s) (memos res) ++
  ((λ r, Called (CallExists (resourcePath F r))) <$> resources res) ++
  [Called (CallList (memosFolder F))] ++
  flat_map (resource_events env s) (pending_resources env s res (with_folders s w)).

(** [wp m w Q]: running [m] from [w] gives an outcome that satisfies [Q]. *)
Definition wp {A} (m : M A) (w : World) (Q : Out A → Prop) : Prop := Q (m w).

(** * Proofs *)

(** ** The monad *)

Lemma prepend_nil {A} (o : Out A) :
  prepend [] o = mkOut (result o) (world o) (events o).
Proof. reflexivity. Qed.

Lemma prepend_prepend {A} l1 l2 (o : Out A) :
  prepend l1 (prepend l2 o) = prepend (l1 ++ l2) o.
Proof. unfold prepend; simpl. by rewrite app_assoc. Qed.

Lemma bind_inr {A B} (m : M A) (k : A → M B) w a w1 l1 :
  m w = mkOut (inr a) w1 l1 → (m ≫= k) w = prepend l1 (k a w1).
Proof. intros H. unfold mbind, M_bind. by rewrite H. Qed.

Lemma bind_inl {A B} (m : M A) (k : A → M B) w e w1 l1 :
  m w = mkOut (inl e) w1 l1 → (m ≫= k) w = mkOut (inl e) w1 l1.
Proof. intros H. unfold mbind, M_bind. by rewrite H. Qed.

Lemma wp_bind {A B} (m : M A) (k : A → M B) w (Q : Out B → Prop) :
  wp m w (λ o, match result o with
               | inl e => Q (mkOut (inl e) (world o) (events o))
               | inr a => wp (k a) (world o) (λ o', Q (prepend (events o) o'))
               end) →
  wp (m ≫= k) w Q.
Proof. unfold wp, mbind, M_bind. by destruct (result (m w)). Qed.

Lemma wp_eq {A} (m : M A) w o (Q : Out A → Prop) :
  m w = o → Q o → wp m w Q.
Proof. unfold wp. by intros ->. Qed.

Lemma wp_out {A} (m : M A) w o : wp m w (λ o', o' = o) → m w = o.
Proof. done. Qed.

#[local] Arguments wp : simpl never.

Lemma wp_ret {A} (a : A) w (Q : Out A → Prop) :
  Q (mkOut (inr a) w []) → wp (mret a) w Q.
Proof. done. Qed.

Lemma wp_throw {A} e w (Q : Out A → Prop) :
  Q (mkOut (inl e) w []) → wp (throw e) w Q.
Proof. done. Qed.

Lemma wp_emit ev w (Q : Out unit → Prop) :
  Q (mkOut (inr tt) w [ev]) → wp (emit ev) w Q.
Proof. done. Qed.

Lemma wp_modify f w (Q : Out unit → Prop) :
  Q (mkOut (inr tt) (f w) []) → wp (modify f) w Q.
Proof. done. Qed.

Lemma wp_gets {A} (f : World → A) w (Q : Out A → Prop) :
  Q (mkOut (inr (f w)) w []) → wp (gets f) w Q.
Proof. done. Qed.

Lemma wp_await {A} (p : Promise A) w (Q : Out A → Prop) :
  Q (mkOut p w []) → wp (await p) w Q.
Proof. done. Qed.

Lemma wp_start {A} (m : M A) w (Q : Out (Promise A) → Prop) :
  wp m w (λ o, Q (mkOut (inr (result o)) (world o) (events o))) →
  wp (start m) w Q.
Proof. done. Qed.

Lemma wp_forget {A} (p : Promise A) w (Q : Out unit → Prop) :
  Q (mkOut (inr tt) w (match p with inl e => [Unhandled e] | inr _ => [] end)) →
  wp (forget p) w Q.
Proof. by destruct p. Qed.

Lemma wp_debug s m w (Q : Out unit → Prop) :
  Q (mkOut (inr tt) w (debug_events s m)) → wp (debug s m) w Q.
Proof. unfold wp, debug, debug_events. by destruct (Settings.debug s). Qed.

Lemma wp_adapter_call {A} env c (act : M A) w (Q : Out A → Prop) :
  (fault env c = true → Q (mkOut (inl (StoreError c)) w [Called c])) →
  (fault env c = false → wp act w (λ o, Q (prepend [Called c] o))) →
  wp (adapter_call env c act) w Q.
Proof.
  unfold wp, adapter_call, mbind, M_bind; simpl.
  destruct (fault env c); auto.
Qed.

Lemma wp_adapter_exists env p w (Q : Out bool → Prop) :
  (fault env (CallExists p) = true →
   Q (mkOut (inl (StoreError (CallExists p))) w [Called (CallExists p)])) →
  (fault env (CallExists p) = false →
   Q (mkOut (inr (path_exists w p)) w [Called (CallExists p)])) →
  wp (adapter_exists env p) w Q.
Proof.
  intros H1 H2. apply wp_adapter_call; [done|]. intros Hf. apply wp_gets.
  unfold prepend; simpl. auto.
Qed.

Lemma wp_vault_createFolder env p w (Q : Out unit → Prop) :
  path_exists w p = false →
  (fault env (CallCreateFolder p) = true →
   Q (mkOut (inl (StoreError (CallCreateFolder p))) w [Called (CallCreateFolder p)])) →
  (fault env (CallCreateFolder p) = false →
   Q (mkOut (inr tt) (set_folders ({[p]} ∪ folders w) w) [Called (CallCreateFolder p)])) →
  wp (vault_createFolder env p) w Q.
Proof.
  intros Hp H1 H2. apply wp_adapter_call; [done|]. intros Hf.
  apply wp_bind, wp_gets. simpl. rewrite Hp. apply wp_modify.
  unfold prepend; simpl. auto.
Qed.

Lemma wp_adapter_list env dir w (Q : Out (list string) → Prop) :
  (fault env (CallList dir) = true →
   Q (mkOut (inl (StoreError (CallList dir))) w [Called (CallList dir)])) →
  (fault env (CallList dir) = false →
   Q (mkOut (inr (list_files w dir)) w [Called (CallList dir)])) →
  wp (adapter_list env dir) w Q.
Proof.
  intros H1 H2. apply wp_adapter_call; [done|]. intros Hf. apply wp_gets.
  unfold prepend; simpl. auto.
Qed.

(** The check-then-create of a folder, in front of the rest [k] of the
    run: either one of its two calls fails, or [k] runs from the world with
    the folder. *)
Lemma wp_ensure {B} env s dir created (k : M B) w (Q : Out B → Prop) :
  (∀ c l, fault env c = true →
          c = CallExists dir ∨ c = CallCreateFolder dir →
          l `prefix_of` ensure_events env s w dir created →
          Q (mkOut (inl (StoreError c)) w l)) →
  wp k (ensured w dir) (λ o, Q (prepend (ensure_events env s w dir created) o)) →
  wp (adapter_exists env dir ≫= λ isFolderExists : bool,
        (if isFolderExists then mret tt
         else vault_createFolder env dir ;; debug s created) ≫= λ _, k) w Q.
Proof.
  intros Habort Hk. unfold ensured, ensure_events in *.
  apply wp_bind, wp_adapter_exists; intros Hf; simpl.
  { apply Habort; auto. apply prefix_cons, prefix_nil. }
  destruct (path_exists w dir) eqn:Hp.
  - apply wp_bind, wp_ret; simpl. revert Hk. unfold wp.
    destruct (k w); unfold prepend; simpl. done.
  - apply wp_bind, wp_bind, wp_vault_createFolder; [done|..]; intros Hc; simpl.
    { apply (Habort (CallCreateFolder dir)); auto.
      apply prefix_cons, prefix_cons, prefix_nil. }
    apply wp_debug; simpl. revert Hk. unfold wp.
    destruct (k _); unfold prepend; simpl. done.
Qed.

(** One step of a run. *)
Ltac wp_step :=
  cbn beta iota delta [result world events prepend];
  lazymatch goal with
  | |- wp (mbind _ (adapter_exists _ _)) _ _ => fail
  | |- wp (mbind _ _) _ _ => apply wp_bind
  | |- wp (mret _) _ _ => apply wp_ret
  | |- wp (throw _) _ _ => apply wp_throw
  | |- wp (emit _) _ _ => apply wp_emit
  | |- wp (log _ _) _ _ => apply wp_emit
  | |- wp (modify _) _ _ => apply wp_modify
  | |- wp (gets _) _ _ => apply wp_gets
  | |- wp (await _) _ _ => apply wp_await
  | |- wp (start _) _ _ => apply wp_start
  | |- wp (forget _) _ _ => apply wp_forget
  | |- wp (debug _ _) _ _ => apply wp_debug
  | |- wp (adapter_call _ _ _) _ _ => apply wp_adapter_call; intros ?
  | |- wp (adapter_list _ _) _ _ => apply wp_adapter_list; intros ?
  end.

Ltac wp_run := repeat wp_step; cbn beta iota delta [result world events prepend].

(** ** The callbacks and the loops compute their closed forms *)

#[local] Arguments adapter_call : simpl never.
#[local] Arguments debug : simpl never.
#[local] Arguments sync_try : simpl never.
#[local] Arguments sync : simpl never.

Section Loops.
Context (env : Env) (s : Settings.t).

Lemma debug_eq m w : debug s m w = mkOut (inr tt) w (debug_events s m).
Proof. unfold debug, debug_events. by destruct (Settings.debug s). Qed.

Lemma adapter_call_eq {A} c (act : M A) w :
  adapter_call env c act w =
  if fault env c then mkOut (inl (StoreError c)) w [Called c]
  else prepend [Called c] (act w).
Proof.
  unfold adapter_call, mbind, M_bind; simpl.
  by destruct (fault env c).
Qed.

Lemma adapter_exists_eq p w :
  adapter_exists env p w = mkOut (exists_promise env w p) w [Called (CallExists p)].
Proof.
  unfold adapter_exists, exists_promise. rewrite adapter_call_eq.
  by destruct (fault env _).
Qed.

Lemma adapter_list_eq dir w :
  adapter_list env dir w =
  mkOut (if fault env (CallList dir) then inl (StoreError (CallList dir))
         else inr (list_files w dir)) w [Called (CallList dir)].
Proof.
  unfold adapter_list. rewrite adapter_call_eq. by destruct (fault env _).
Qed.

Lemma memoCallback_eq memo w :
  memoCallback env s memo w =
  mkOut (inr tt)
    (set_files (if memo_written env s memo
                then <[memoPath (Settings.folderToSync s) memo
                       := Text (Memo.content memo)]> (files w)
                else files w) w)
    (memo_events env s memo).
Proof.
  unfold memoCallback, memo_written, memo_events.
  destruct (skips _ _); simpl.
  - rewrite debug_eq. by destruct w.
  - unfold mbind, M_bind, start, adapter_write, rejection_events.
    rewrite adapter_call_eq.
    destruct (fault env _); simpl; rewrite debug_eq; simpl; by destruct w.
Qed.

Lemma forEach_memoCallback ms w :
  forEach ms (memoCallback env s) w =
  mkOut (inr tt) (set_files (memos_files env s ms (files w)) w)
        (flat_map (memo_events env s) ms).
Proof.
  revert w. induction ms as [|memo ms IH]; intros w; simpl.
  - by destruct w.
  - erewrite bind_inr by apply memoCallback_eq.
    rewrite IH. unfold prepend; simpl. f_equal.
Qed.

Lemma resourceCallback_start_eq r w :
  resourceCallback_start env s r w =
  mkOut (inr (resource_pending env s w r)) w
        [Called (CallExists (resourcePath (Settings.folderToSync s) r))].
Proof.
  unfold resourceCallback_start, mbind, M_bind, start.
  by rewrite adapter_exists_eq.
Qed.

Lemma mapM_resourceCallback_start rs w :
  mapM (resourceCallback_start env s) rs w =
  mkOut (inr (resource_pending env s w <$> rs)) w
        ((λ r, Called (CallExists (resourcePath (Settings.folderToSync s) r))) <$> rs).
Proof.
  induction rs as [|r rs IH]; simpl; [done|].
  erewrite bind_inr by apply resourceCallback_start_eq.
  erewrite bind_inr by apply IH.
  unfold prepend; simpl. by rewrite app_nil_r.
Qed.

Lemma resourceCallback_resume_eq pending w :
  resourceCallback_resume env s pending w =
  mkOut (inr tt)
    (set_files (if resource_written env s pending
                then <[resourcePath (Settings.folderToSync s) pending.1
                       := Binary (Resource.content pending.1)]> (files w)
                else files w) w)
    (resource_events env s pending).
Proof.
  apply wp_out.
  destruct pending as [r [e|[|]]];
    unfold resourceCallback_resume, resource_written, resource_events,
      rejection_events, adapter_writeBinary; simpl;
    wp_run; unfold prepend; simpl; rewrite ?app_nil_r;
    try match goal with H : fault _ _ = _ |- _ => rewrite H end;
    simpl; by destruct w.
Qed.

Lemma forEach_resourceCallback_resume pendings w :
  forEach pendings (resourceCallback_resume env s) w =
  mkOut (inr tt) (set_files (resources_files env s pendings (files w)) w)
        (flat_map (resource_events env s) pendings).
Proof.
  revert w. induction pendings as [|pending pendings IH]; intros w; simpl.
  - by destruct w.
  - erewrite bind_inr by apply resourceCallback_resume_eq.
    rewrite IH. unfold prepend; simpl. f_equal.
Qed.

Lemma pruneCallback_start_eq inAPI p w :
  is_Some (files w !! p) →
  pruneCallback_start env inAPI p w =
  mkOut (inr (prune_pending env inAPI p))
    (set_files (if bool_decide (p ∈ inAPI) || fault env (CallRemove p)
                then files w else delete p (files w)) w)
    (prune_events inAPI p).
Proof.
  intros Hp.
  unfold pruneCallback_start, prune_pending, prune_events, prune_promise.
  destruct (bool_decide (p ∈ inAPI)); simpl; [by destruct w|].
  unfold mbind, M_bind, start, adapter_remove. rewrite adapter_call_eq.
  destruct (fault env _); simpl; [by destruct w|].
  by rewrite bool_decide_true.
Qed.

Lemma mapM_pruneCallback_start inAPI listing w :
  NoDup listing →
  (∀ p, p ∈ listing → is_Some (files w !! p)) →
  mapM (pruneCallback_start env inAPI) listing w =
  mkOut (inr (prune_pending env inAPI <$> listing))
        (set_files (pruned env inAPI listing (files w)) w)
        (flat_map (prune_events inAPI) listing).
Proof.
  revert w. induction listing as [|p listing IH]; intros w Hnd Hin; simpl.
  - by destruct w.
  - apply NoDup_cons in Hnd as [Hp Hnd].
    erewrite bind_inr by (apply pruneCallback_start_eq, Hin; left).
    erewrite bind_inr.
    2:{ apply IH; [done|]. intros q Hq. simpl.
        destruct (_ || _); [apply Hin; by right|].
        rewrite lookup_delete_ne; [apply Hin; by right|].
        intros ->. done. }
    unfold prepend; simpl. f_equal. by rewrite app_nil_r.
Qed.

Lemma pruneCallback_resume_eq deleted pending w :
  pruneCallback_resume s deleted pending w =
  mkOut (inr tt) w (prune_resume_events s deleted pending).
Proof.
  apply wp_out.
  destruct pending as [[p [e|[]]]|];
    unfold pruneCallback_resume, prune_resume_events;
    wp_run; unfold prepend; simpl; by rewrite ?app_nil_r.
Qed.

Lemma forEach_pruneCallback_resume deleted pendings w :
  forEach pendings (pruneCallback_resume s deleted) w =
  mkOut (inr tt) w (flat_map (prune_resume_events s deleted) pendings).
Proof.
  induction pendings as [|pending pendings IH]; simpl; [done|].
  erewrite bind_inr by apply pruneCallback_resume_eq.
  by rewrite IH.
Qed.
End Loops.

(** ** Listings *)

Lemma elem_of_list_files w dir p :
  p ∈ list_files w dir ↔ is_Some (files w !! p) ∧ child_of dir p = true.
Proof.
  unfold list_files. rewrite list_elem_of_filter, list_elem_of_fmap.
  rewrite Is_true_true. split.
  - intros [Hc ([q x] & -> & Hq)]. apply elem_of_map_to_list in Hq. eauto.
  - intros [[x Hx] Hc]. split; [done|].
    exists (p, x). split; [done|]. by apply elem_of_map_to_list.
Qed.

Lemma NoDup_list_files w dir : NoDup (list_files w dir).
Proof. apply NoDup_filter, NoDup_fst_map_to_list. Qed.

(** ** Frame lemmas for the closed forms *)

Lemma resources_files_is_Some env s pendings f p :
  is_Some (f !! p) → is_Some (resources_files env s pendings f !! p).
Proof.
  unfold resources_files. revert f.
  induction pendings as [|pending pendings IH]; intros f Hp; simpl; [done|].
  apply IH. destruct (resource_written env s pending); [|done].
  rewrite lookup_insert. case_decide; eauto.
Qed.

(** ** Quiet events *)

Lemma quiet_debug_events s m :
  quiet (Notice m (Some 0)) → Forall quiet (debug_events s m).
Proof. unfold debug_events. destruct (Settings.debug s); repeat constructor; done. Qed.

Lemma quiet_rejection_events env c : Forall quiet (rejection_events env c).
Proof. unfold rejection_events. destruct (fault env c); repeat constructor. Qed.

Lemma Forall_flat_map {A B} (P : B → Prop) (f : A → list B) l :
  (∀ x, Forall P (f x)) → Forall P (flat_map f l).
Proof.
  intros Hf. induction l as [|x l IH]; simpl; [constructor|].
  apply Forall_app; auto.
Qed.

Lemma quiet_memo_events env s memo : Forall quiet (memo_events env s memo).
Proof.
  unfold memo_events. destruct (skips _ _).
  - by apply quiet_debug_events.
  - constructor; [done|]. apply Forall_app; split.
    + apply quiet_rejection_events.
    + by apply quiet_debug_events.
Qed.

Lemma quiet_resource_events env s pending : Forall quiet (resource_events env s pending).
Proof.
  unfold resource_events. destruct pending as [r [e|[|]]]; simpl;
    repeat constructor.
  apply Forall_app; split.
  - apply quiet_rejection_events.
  - by apply quiet_debug_events.
Qed.

Lemma quiet_prune_events inAPI p : Forall quiet (prune_events inAPI p).
Proof. unfold prune_events. case_bool_decide; repeat constructor. Qed.

Lemma quiet_prune_resume_events s deleted pending :
  (∀ p, quiet (Notice (deleted p) (Some 0))) →
  Forall quiet (prune_resume_events s deleted pending).
Proof.
  intros Hd. destruct pending as [[p [e|[]]]|]; simpl; repeat constructor.
  by apply quiet_debug_events.
Qed.

Lemma quiet_ensure_events env s w dir m :
  quiet (Notice m (Some 0)) → Forall quiet (ensure_events env s w dir m).
Proof.
  intros Hm. unfold ensure_events. constructor; [done|].
  destruct (path_exists w dir); repeat constructor.
  by apply quiet_debug_events.
Qed.

Lemma quiet_exists_events (f : Resource.t → string) rs :
  Forall quiet ((λ r, Called (CallExists (f r))) <$> rs).
Proof. induction rs; constructor; done. Qed.

Create HintDb quiet.
#[local] Hint Resolve quiet_debug_events quiet_rejection_events quiet_memo_events
  quiet_resource_events quiet_prune_events quiet_prune_resume_events
  quiet_ensure_events quiet_exists_events : quiet.

Ltac quiet :=
  repeat first
    [ assumption
    | exact I
    | apply Forall_nil_2
    | apply quiet_ensure_events
    | apply quiet_debug_events
    | apply quiet_prune_resume_events; intros ?
    | solve [eauto with quiet]
    | apply Forall_flat_map; intros ?
    | apply Forall_app; split
    | apply Forall_cons; split ].

Ltac prefix :=
  repeat first
    [ assumption
    | reflexivity
    | apply prefix_nil
    | progress cbn [app]
    | rewrite app_nil_r
    | apply prefix_app
    | apply prefix_cons
    | apply prefix_app_r; first [assumption | reflexivity] ].

(** ** The run of the [try] block *)

Section Run.
Context (env : Env) (s : Settings.t) (res : Snapshot).

Local Abbreviation mdir := (memosFolder (Settings.folderToSync s)).
Local Abbreviation rdir := (resourcesFolder (Settings.folderToSync s)).

Lemma sync_try_run w :
  fetchMemosWithResource env (Settings.openAPI s) = inr res →
  ends env s res w (sync_try env s w).
Proof.
  intros Hfetch.
  change (wp (sync_try env s) w (ends env s res w)).
  unfold sync_try, fetch. rewrite Hfetch.
  wp_run.
  apply wp_ensure.
  { intros c l Hc Hcl Hl. left. exists c, (StoreError c).
    split_and!; try done.
    - destruct Hcl as [-> | ->]; simpl; by rewrite bool_decide_true.
    - cbn [prepend events]; unfold reconcile_events; prefix.
    - by left. }
  apply wp_ensure.
  { intros c l Hc Hcl Hl. left. exists c, (StoreError c).
    split_and!; try done.
    - destruct Hcl as [-> | ->]; simpl;
        rewrite orb_true_iff, !bool_decide_eq_true; auto.
    - cbn [prepend events]; unfold reconcile_events; prefix.
    - by right; left. }
  wp_run. eapply wp_eq; [apply forEach_memoCallback|]. wp_run.
  eapply wp_eq; [apply mapM_resourceCallback_start|]. wp_run.
  { eapply wp_eq; [apply forEach_resourceCallback_resume|]. wp_run.
    left. exists (CallList mdir), (StoreError (CallList mdir)).
    split_and!; try done.
    - simpl; by rewrite bool_decide_true.
    - cbn [prepend events]; unfold reconcile_events; prefix.
    - by right; right; left. }
  eapply wp_eq; [apply forEach_resourceCallback_resume|]. wp_run.
  eapply wp_eq; [apply mapM_pruneCallback_start|]. 
  { apply NoDup_list_files. }
  { intros p Hp. apply resources_files_is_Some.
    by apply elem_of_list_files in Hp as [Hp _]. }
  wp_run.
  { eapply wp_eq; [apply forEach_pruneCallback_resume|]. wp_run.
    left. exists (CallList rdir), (StoreError (CallList rdir)).
    split_and!; try done.
    - simpl; rewrite orb_true_iff, !bool_decide_eq_true; auto.
    - cbn [prepend events]; unfold reconcile_events; prefix.
    - by right; right; right. }
  eapply wp_eq; [apply forEach_pruneCallback_resume|]. wp_run.
  eapply wp_eq; [apply mapM_pruneCallback_start|]. 
  { apply NoDup_list_files. }
  { intros p Hp. by apply elem_of_list_files in Hp as [Hp _]. }
  wp_run. unfold saveData. wp_run.
  right. unfold reconcile_events. cbn [prepend result world events].
  f_equal. repeat (progress cbn [app] || rewrite <- app_assoc || rewrite app_nil_r).
  reflexivity.
Qed.
End Run.

(** ** The run of [sync] *)

Section Sync.
Context (env : Env) (w : World).

Local Abbreviation s := (assign_settings (data w)).
Local Abbreviation w0 := (set_settings (assign_settings (data w)) w).

Lemma sync_no_key :
  Settings.openAPI s = "" →
  sync env w = mkOut (inr tt) w0 [Notice PleaseEnterKey None].
Proof.
  intros Hkey. apply wp_out. unfold sync, loadSettings. wp_run.
  cbn [settings set_settings]. rewrite bool_decide_true by done. by wp_run.
Qed.

Lemma sync_fetch_failed e :
  Settings.openAPI s ≠ "" →
  fetchMemosWithResource env (Settings.openAPI s) = inl e →
  sync env w =
  mkOut (inr tt) w0
    [Notice StartSyncing None; Called (CallFetch (Settings.openAPI s));
     Notice SyncFailed (Some 0); ConsoleError e].
Proof.
  intros Hkey Hfetch. apply wp_out. unfold sync, loadSettings. wp_run.
  cbn [settings set_settings]. rewrite bool_decide_false by done.
  unfold sync_try, fetch. rewrite Hfetch. by wp_run.
Qed.

Lemma sync_with_key :
  Settings.openAPI s ≠ "" →
  sync env w =
  match result (sync_try env s w0) with
  | inr resourceRemovals =>
      mkOut (inr tt) (world (sync_try env s w0))
        (events (sync_try env s w0) ++
         flat_map (prune_resume_events s DeletedResource) resourceRemovals)
  | inl e =>
      mkOut (inr tt) (world (sync_try env s w0))
        (events (sync_try env s w0) ++
         [Notice SyncFailed (Some 0); ConsoleError e])
  end.
Proof.
  intros Hkey. unfold sync, loadSettings.
  erewrite bind_inr by reflexivity.
  erewrite bind_inr by reflexivity.
  cbn beta. cbn [settings set_settings]. rewrite bool_decide_false by done.
  unfold mbind, M_bind, start. cbn beta zeta. cbn [result world events].
  generalize (sync_try env s w0). intros [[e|pending] w' l];
    cbn [result world events].
  - unfold prepend; simpl. done.
  - rewrite forEach_pruneCallback_resume. unfold prepend; simpl.
    done.
Qed.

(** With a key and a snapshot: either an awaited call failed, the run
    said so after the first events of a full run, and the vault is as an
    earlier stage left it; or the run went through every stage. *)
Lemma sync_with_snapshot res :
  Settings.openAPI s ≠ "" →
  fetchMemosWithResource env (Settings.openAPI s) = inr res →
  let w1 := with_folders s w0 in
  (∃ c e l, awaited s c = true ∧ fault env c = true ∧
     l `prefix_of` reconcile_events env s res w0 ∧
     result (sync env w) = inr tt ∧
     events (sync env w) = l ++ [Notice SyncFailed (Some 0); ConsoleError e] ∧
     (world (sync env w) = w0
      ∨ world (sync env w) = ensured w0 (memosFolder (Settings.folderToSync s))
      ∨ world (sync env w) = after_resources env s res w1
      ∨ world (sync env w) = after_memo_prune env s res w1))
  ∨ sync env w =
    mkOut (inr tt)
      (set_data (Some (with_lastSyncTime s (now env)))
                (after_resource_prune env s res w1))
      (reconcile_events env s res w0 ++ closing_events env s res w0).
Proof.
  intros Hkey Hfetch w1.
  pose proof (sync_try_run env s res w0 Hfetch) as Hrun.
  rewrite (sync_with_key Hkey).
  revert Hrun. generalize (sync_try env s w0). intros o Hrun.
  destruct Hrun as [(c & e & Hc & Hf & Hres & Hq & Hw)|Heq].
  - left. exists c, e, (events o).
    destruct o as [r w' l]; simpl in *. subst r. done.
  - right. rewrite Heq. cbn [result world events].
    unfold closing_events. by rewrite <- !app_assoc.
Qed.
End Sync.

(** ** Paths *)

Lemma string_app_cons x (a b : string) : String x a +:+ b = String x (a +:+ b).
Proof. reflexivity. Qed.

Lemma string_app_nil (b : string) : "" +:+ b = b.
Proof. reflexivity. Qed.

Lemma string_app_assoc (a b c : string) : (a +:+ b) +:+ c = a +:+ b +:+ c.
Proof.
  induction a as [|x a IH]; [done|].
  rewrite !string_app_cons. by f_equal.
Qed.

Lemma string_app_length (a b : string) :
  String.length (a +:+ b) = (String.length a + String.length b)%nat.
Proof.
  induction a as [|x a IH]; [done|].
  rewrite string_app_cons. simpl. by f_equal.
Qed.

Lemma string_app_inj_r (a b s : string) : a +:+ s = b +:+ s → a = b.
Proof.
  revert b. induction a as [|x a IH]; intros [|y b] H.
  - done.
  - apply (f_equal String.length) in H.
    rewrite string_app_nil, string_app_cons in H. simpl in H.
    rewrite string_app_length in H. lia.
  - apply (f_equal String.length) in H.
    rewrite string_app_nil, string_app_cons in H. simpl in H.
    rewrite string_app_length in H. lia.
  - rewrite !string_app_cons in H. injection H as -> H. f_equal. by apply IH.
Qed.

Lemma strip_prefix_app pre s : strip_prefix pre (pre +:+ s) = Some s.
Proof.
  induction pre as [|a pre IH]; [done|].
  rewrite string_app_cons. simpl. by rewrite Ascii.eqb_refl.
Qed.

Lemma strip_prefix_Some pre s r : strip_prefix pre s = Some r → s = pre +:+ r.
Proof.
  revert s. induction pre as [|a pre IH]; intros s H; simpl in *.
  - by injection H as ->.
  - destruct s as [|b s]; [done|].
    destruct (Ascii.eqb a b) eqn:E; [|done].
    apply Ascii.eqb_eq in E as ->. rewrite string_app_cons.
    f_equal. by apply IH.
Qed.

Lemma has_slash_app a b : has_slash (a +:+ b) = has_slash a || has_slash b.
Proof.
  induction a as [|x a IH]; [done|].
  rewrite string_app_cons. simpl. by rewrite IH, orb_assoc.
Qed.

Lemma child_of_spec dir p :
  child_of dir p = true ↔
  ∃ name, p = dir +:+ "/" +:+ name ∧ has_slash name = false.
Proof.
  unfold child_of. split.
  - destruct (strip_prefix _ p) as [name|] eqn:E; [|done].
    intros H. apply strip_prefix_Some in E. exists name.
    rewrite <- string_app_assoc. split; [done|]. by apply negb_true_iff.
  - intros (name & -> & H). rewrite <- string_app_assoc, strip_prefix_app.
    by rewrite H.
Qed.

(** Literal prefixes are compared character by character. *)
Ltac string_literals H :=
  rewrite ?string_app_assoc in H;
  apply (inj (String.append _)) in H;
  rewrite ?string_app_cons, ?string_app_nil in H;
  repeat (injection H as H); try discriminate H.

Section Paths.
Context (F : string).

Lemma memoPath_child memo :
  child_of (memosFolder F) (memoPath F memo) = negb (has_slash (Memo.id memo)).
Proof.
  unfold child_of, memosFolder, memoPath.
  replace (F +:+ "/memos/" +:+ Memo.id memo +:+ ".md")
    with (((F +:+ "/memos") +:+ "/") +:+ Memo.id memo +:+ ".md")
    by (by rewrite !string_app_assoc).
  rewrite strip_prefix_app, has_slash_app. by rewrite orb_false_r.
Qed.

Lemma resourcePath_child r :
  child_of (resourcesFolder F) (resourcePath F r)
  = negb (has_slash (Resource.filename r)).
Proof.
  unfold child_of, resourcesFolder, resourcePath.
  replace (F +:+ "/resources/" +:+ Resource.filename r)
    with (((F +:+ "/resources") +:+ "/") +:+ Resource.filename r)
    by (by rewrite !string_app_assoc).
  by rewrite strip_prefix_app.
Qed.

(** A path inside the memos folder is neither inside the resources folder
    nor the path of a resource, and the other way round. *)
Lemma memos_child_not_resources_child p :
  child_of (memosFolder F) p = true → child_of (resourcesFolder F) p = false.
Proof.
  intros H. apply not_true_is_false. intros H'.
  apply child_of_spec in H as (n & -> & _).
  apply child_of_spec in H' as (n' & H' & _).
  unfold memosFolder, resourcesFolder in H'. string_literals H'.
Qed.

Lemma memos_child_not_resourcePath p r :
  child_of (memosFolder F) p = true → p ≠ resourcePath F r.
Proof.
  intros H ->. apply child_of_spec in H as (n & H & _).
  unfold memosFolder, resourcePath in H. string_literals H.
Qed.

Lemma resources_child_not_memoPath p memo :
  child_of (resourcesFolder F) p = true → p ≠ memoPath F memo.
Proof.
  intros H ->. apply child_of_spec in H as (n & H & _).
  unfold resourcesFolder, memoPath in H. string_literals H.
Qed.

Lemma memoPath_ne_resourcePath memo r : memoPath F memo ≠ resourcePath F r.
Proof. unfold memoPath, resourcePath. intros H. string_literals H. Qed.

Lemma memoPath_inj memo memo' :
  memoPath F memo = memoPath F memo' → Memo.id memo = Memo.id memo'.
Proof.
  unfold memoPath. intros H. string_literals H.
  by apply string_app_inj_r in H.
Qed.

Lemma resourcePath_inj r r' :
  resourcePath F r = resourcePath F r' →
  Resource.filename r = Resource.filename r'.
Proof. unfold resourcePath. intros H. by string_literals H. Qed.

Lemma resourcePath_ne_memosFolder r : resourcePath F r ≠ memosFolder F.
Proof. unfold memosFolder, resourcePath. intros H. string_literals H. Qed.

Lemma resourcePath_ne_resourcesFolder r : resourcePath F r ≠ resourcesFolder F.
Proof. unfold resourcesFolder, resourcePath. intros H. string_literals H. Qed.
End Paths.

(** ** What the closed forms do to one path *)

Section Files.
Context (env : Env) (s : Settings.t).

Local Abbreviation F := (Settings.folderToSync s).

Lemma memos_files_frame ms f p :
  (∀ memo, memo ∈ ms → memo_written env s memo = true → memoPath F memo ≠ p) →
  memos_files env s ms f !! p = f !! p.
Proof.
  unfold memos_files. revert f.
  induction ms as [|memo ms IH]; intros f H; simpl; [done|].
  rewrite IH by (intros ???; apply H; [by right|done]).
  destruct (memo_written env s memo) eqn:E; [|done].
  apply lookup_insert_ne, H; [by left|done].
Qed.

Lemma memos_files_is_Some ms f p :
  is_Some (f !! p) → is_Some (memos_files env s ms f !! p).
Proof.
  unfold memos_files. revert f.
  induction ms as [|memo ms IH]; intros f Hp; simpl; [done|].
  apply IH. destruct (memo_written env s memo); [|done].
  rewrite lookup_insert. case_decide; eauto.
Qed.

Lemma memos_files_cons memo ms f :
  memos_files env s (memo :: ms) f =
  memos_files env s ms
    (if memo_written env s memo
     then <[memoPath F memo := Text (Memo.content memo)]> f else f).
Proof. reflexivity. Qed.

(** What a written memo path holds does not depend on what was there. *)
Lemma memos_files_written ms f f' p :
  (∃ memo, memo ∈ ms ∧ memo_written env s memo = true ∧ memoPath F memo = p) →
  memos_files env s ms f !! p = memos_files env s ms f' !! p.
Proof.
  revert f f'.
  induction ms as [|memo ms IH]; intros f f' (m & Hm & Hw & Hp).
  - by apply elem_of_nil in Hm.
  - rewrite !memos_files_cons.
    destruct (decide (Exists (λ m', memo_written env s m' = true
                                    ∧ memoPath F m' = p) ms)) as [Hex|Hnex].
    { apply IH. apply Exists_exists in Hex as (m' & ? & ? & ?). eauto. }
    rewrite Exists_exists in Hnex.
    apply elem_of_cons in Hm as [->|Hm]; [|destruct Hnex; eauto].
    rewrite Hw.
    rewrite !(memos_files_frame ms _ p); [by rewrite Hp, !lookup_insert_eq|..];
      intros m' Hm' Hw' Hp'; destruct Hnex; eauto.
Qed.

Lemma memos_files_content ms f memo :
  NoDup (Memo.id <$> ms) →
  memo ∈ ms → memo_written env s memo = true →
  memos_files env s ms f !! memoPath F memo = Some (Text (Memo.content memo)).
Proof.
  revert f.
  induction ms as [|m ms IH]; intros f Hnd Hin Hw.
  - by apply elem_of_nil in Hin.
  - rewrite memos_files_cons.
    rewrite fmap_cons in Hnd. apply NoDup_cons in Hnd as [Hm Hnd].
    apply elem_of_cons in Hin as [->|Hin]; [|by apply IH].
    rewrite Hw.
    rewrite (memos_files_frame ms); [by rewrite lookup_insert_eq|].
    intros m' Hm' _ Hp. apply memoPath_inj in Hp.
    apply Hm. rewrite <- Hp. by apply list_elem_of_fmap_2.
Qed.

Lemma resources_files_frame pendings f p :
  (∀ pending, pending ∈ pendings → resource_written env s pending = true →
              resourcePath F pending.1 ≠ p) →
  resources_files env s pendings f !! p = f !! p.
Proof.
  unfold resources_files. revert f.
  induction pendings as [|pending pendings IH]; intros f H; simpl; [done|].
  rewrite IH by (intros ???; apply H; [by right|done]).
  destruct (resource_written env s pending) eqn:E; [|done].
  apply lookup_insert_ne, H; [by left|done].
Qed.

Lemma resources_files_written pendings f pending :
  pending ∈ pendings → resource_written env s pending = true →
  is_Some (resources_files env s pendings f !! resourcePath F pending.1).
Proof.
  revert f.
  induction pendings as [|pending' pendings IH]; intros f Hin Hw.
  - by apply elem_of_nil in Hin.
  - change (resources_files env s (pending' :: pendings) f)
      with (resources_files env s pendings
              (if resource_written env s pending'
               then <[resourcePath F (pending'.1)
                      := Binary (Resource.content (pending'.1))]> f else f)).
    apply elem_of_cons in Hin as [<-|Hin]; [|by apply IH].
    rewrite Hw. apply resources_files_is_Some. rewrite lookup_insert_eq. eauto.
Qed.

Lemma pruned_lookup inAPI listing f p :
  pruned env inAPI listing f !! p =
  if decide (p ∈ listing ∧ (p ∉ inAPI) ∧ fault env (CallRemove p) = false)
  then None else f !! p.
Proof.
  revert f. induction listing as [|q listing IH]; intros f.
  - case_decide as H; [|done]. destruct H as [H _]. by apply elem_of_nil in H.
  - change (pruned env inAPI (q :: listing) f)
      with (pruned env inAPI listing
              (if bool_decide (q ∈ inAPI) || fault env (CallRemove q)
               then f else delete q f)).
    rewrite IH.
    destruct (decide (p ∈ listing ∧ _)) as [H1|H1];
      destruct (decide (p ∈ q :: listing ∧ _)) as [H2|H2]; try done.
    + destruct H2. destruct H1 as (? & ? & ?). split_and!; try done. by right.
    + destruct H2 as (Hin & Hapi & Hf).
      apply elem_of_cons in Hin as [->|Hin]; [|by destruct H1].
      rewrite bool_decide_false, Hf by done. simpl.
      by rewrite lookup_delete_eq.
    + destruct (bool_decide (q ∈ inAPI) || fault env (CallRemove q)) eqn:E;
        [done|].
      apply orb_false_iff in E as [E1 E2]. apply bool_decide_eq_false in E1.
      rewrite lookup_delete_ne; [done|].
      intros ->. destruct H2. split_and!; try done. by left.
Qed.
End Files.

(** ** What the stages do to one path *)

Lemma files_ensured w dir : files (ensured w dir) = files w.
Proof. unfold ensured. by destruct (path_exists w dir). Qed.

Lemma data_ensured w dir : data (ensured w dir) = data w.
Proof. unfold ensured. by destruct (path_exists w dir). Qed.

Lemma settings_ensured w dir : settings (ensured w dir) = settings w.
Proof. unfold ensured. by destruct (path_exists w dir). Qed.

Lemma folders_ensured w dir p :
  p ∈ folders (ensured w dir) ↔ p ∈ folders w ∨ (p = dir ∧ path_exists w dir = false).
Proof.
  unfold ensured. destruct (path_exists w dir); simpl.
  - split; [tauto|]. by intros [?|[_ ?]].
  - rewrite elem_of_union, elem_of_singleton. tauto.
Qed.

Lemma path_exists_ensured w dir : path_exists (ensured w dir) dir = true.
Proof.
  unfold ensured. destruct (path_exists w dir) eqn:E; [done|].
  unfold path_exists; simpl. apply orb_true_iff. right.
  apply bool_decide_eq_true. set_solver.
Qed.

Lemma path_exists_ensured_mono w dir p :
  path_exists w p = true → path_exists (ensured w dir) p = true.
Proof.
  unfold path_exists. rewrite files_ensured, !orb_true_iff, !bool_decide_eq_true.
  rewrite folders_ensured. tauto.
Qed.

Section StageFiles.
Context (env : Env) (s : Settings.t) (res : Snapshot).

Local Abbreviation F := (Settings.folderToSync s).
Local Abbreviation mdir := (memosFolder (Settings.folderToSync s)).
Local Abbreviation rdir := (resourcesFolder (Settings.folderToSync s)).

Lemma files_with_folders w : files (with_folders s w) = files w.
Proof. unfold with_folders. by rewrite !files_ensured. Qed.

Lemma data_with_folders w : data (with_folders s w) = data w.
Proof. unfold with_folders. by rewrite !data_ensured. Qed.

Lemma folders_with_folders w p :
  p ∈ folders (with_folders s w) → p ∈ folders w ∨ p = mdir ∨ p = rdir.
Proof.
  unfold with_folders. rewrite !folders_ensured. tauto.
Qed.

Lemma folders_with_folders_mono w p :
  p ∈ folders w → p ∈ folders (with_folders s w).
Proof.
  unfold with_folders. rewrite !folders_ensured. tauto.
Qed.

Lemma elem_of_memosInAPI p :
  p ∈ memosInAPI s res ↔ ∃ memo, memo ∈ memos res ∧ p = memoPath F memo.
Proof.
  unfold memosInAPI. rewrite list_elem_of_fmap.
  split; intros (memo & ? & ?); eauto.
Qed.

Lemma elem_of_resourcesInAPI p :
  p ∈ resourcesInAPI s res ↔ ∃ r, r ∈ resources res ∧ p = resourcePath F r.
Proof.
  unfold resourcesInAPI. rewrite list_elem_of_fmap.
  split; intros (r & ? & ?); eauto.
Qed.

(** The memo loop only touches the paths of memos it writes. *)
Lemma after_memos_frame w p :
  (∀ memo, memo ∈ memos res → memo_written env s memo = true →
           memoPath F memo ≠ p) →
  files (after_memos env s res w) !! p = files w !! p.
Proof. intros H. by apply memos_files_frame. Qed.

Lemma after_memos_resourcePath w r :
  files (after_memos env s res w) !! resourcePath F r
  = files w !! resourcePath F r.
Proof.
  apply after_memos_frame. intros memo _ _. apply memoPath_ne_resourcePath.
Qed.

Lemma after_memos_resources_child w p :
  child_of rdir p = true →
  files (after_memos env s res w) !! p = files w !! p.
Proof.
  intros Hp. apply after_memos_frame. intros memo _ _ Heq.
  by apply (resources_child_not_memoPath F p memo) in Hp.
Qed.

(** The resource loop only touches the paths of resources that were
    not there. *)
Lemma after_resources_frame w p :
  (∀ r, r ∈ resources res → resourcePath F r = p →
        exists_promise env (after_memos env s res w) p ≠ inr false) →
  files (after_resources env s res w) !! p
  = files (after_memos env s res w) !! p.
Proof.
  intros H. apply resources_files_frame.
  intros pending Hin Hw Hp. unfold pending_resources in Hin.
  apply list_elem_of_fmap in Hin as (r & -> & Hr).
  apply (H r Hr Hp). unfold resource_written, resource_pending in Hw.
  simpl in *. subst p.
  destruct (exists_promise env _ _) as [e|[|]]; simpl in Hw; congruence.
Qed.

Lemma after_resources_memos_child w p :
  child_of mdir p = true →
  files (after_resources env s res w) !! p
  = files (after_memos env s res w) !! p.
Proof.
  intros Hp. apply after_resources_frame. intros r _ Hr.
  by apply (memos_child_not_resourcePath F p r) in Hp.
Qed.

Lemma after_resources_memoPath w memo :
  files (after_resources env s res w) !! memoPath F memo
  = files (after_memos env s res w) !! memoPath F memo.
Proof.
  apply after_resources_frame. intros r _ Hr.
  symmetry in Hr. by apply memoPath_ne_resourcePath in Hr.
Qed.

Lemma after_resources_is_Some w p :
  is_Some (files (after_memos env s res w) !! p) →
  is_Some (files (after_resources env s res w) !! p).
Proof. apply resources_files_is_Some. Qed.

Lemma after_resources_present w p :
  is_Some (files w !! p) →
  (∀ memo, memo ∈ memos res → memoPath F memo ≠ p) →
  files (after_resources env s res w) !! p = files w !! p.
Proof.
  intros Hp Hm. rewrite after_resources_frame.
  - apply after_memos_frame. auto.
  - intros r _ _. unfold exists_promise. destruct (fault env _); [done|].
    unfold path_exists. rewrite after_memos_frame by auto.
    rewrite bool_decide_true by done. done.
Qed.

Lemma after_memo_prune_lookup w p :
  files (after_memo_prune env s res w) !! p =
  if decide (p ∈ memo_listing env s res w ∧ (p ∉ memosInAPI s res)
             ∧ fault env (CallRemove p) = false)
  then None else files (after_resources env s res w) !! p.
Proof. apply pruned_lookup. Qed.

Lemma after_resource_prune_lookup w p :
  files (after_resource_prune env s res w) !! p =
  if decide (p ∈ resource_listing env s res w ∧ (p ∉ resourcesInAPI s res)
             ∧ fault env (CallRemove p) = false)
  then None else files (after_memo_prune env s res w) !! p.
Proof. apply pruned_lookup. Qed.

Lemma memo_listing_child w p :
  p ∈ memo_listing env s res w → child_of mdir p = true.
Proof. intros H. by apply elem_of_list_files in H as [_ H]. Qed.

Lemma resource_listing_child w p :
  p ∈ resource_listing env s res w → child_of rdir p = true.
Proof. intros H. by apply elem_of_list_files in H as [_ H]. Qed.

(** The pruning of the memos folder leaves every path outside of it
    alone, and every path of the API response. *)
Lemma after_memo_prune_frame w p :
  child_of mdir p = false ∨ p ∈ memosInAPI s res →
  files (after_memo_prune env s res w) !! p
  = files (after_resources env s res w) !! p.
Proof.
  intros H. rewrite after_memo_prune_lookup.
  case_decide as Hd; [|done]. destruct Hd as (Hin & Hapi & _).
  apply memo_listing_child in Hin. destruct H; congruence.
Qed.

Lemma after_resource_prune_frame w p :
  child_of rdir p = false ∨ p ∈ resourcesInAPI s res →
  files (after_resource_prune env s res w) !! p
  = files (after_memo_prune env s res w) !! p.
Proof.
  intros H. rewrite after_resource_prune_lookup.
  case_decide as Hd; [|done]. destruct Hd as (Hin & Hapi & _).
  apply resource_listing_child in Hin. destruct H; congruence.
Qed.
End StageFiles.

(** ** The calls and the rejections among the events of a run *)

Lemma elem_of_flat_map {A B} (f : A → list B) (l : list A) (y : B) :
  y ∈ flat_map f l ↔ ∃ x, x ∈ l ∧ y ∈ f x.
Proof.
  induction l as [|x l IH]; simpl.
  - split; [by intros ?%elem_of_nil|]. by intros (? & ?%elem_of_nil & _).
  - rewrite elem_of_app, IH. split.
    + intros [?|(x' & ? & ?)]; [exists x|exists x']; split; auto; by constructor.
    + intros (x' & [->|?]%elem_of_cons & ?); eauto.
Qed.

(** Case analysis of the closed form of one item's events. *)
Ltac item_events :=
  unfold debug_events, rejection_events;
  repeat match goal with
         | |- context [if ?b then _ else _] => destruct b eqn:?
         end;
  simpl; rewrite ?elem_of_cons, ?elem_of_nil; split; intros;
  destruct_or?; destruct_and?; simplify_eq; auto 6.

(** Taking the hypotheses apart. *)
Ltac cases :=
  repeat first
    [ progress destruct_or?
    | progress destruct_and?
    | match goal with
      | H : ∃ _, _ |- _ => destruct H
      | H : False |- _ => destruct H
      end ];
  simplify_eq/=.

(** Choosing the disjunct that the hypotheses give. *)
Ltac leaf := solve [repeat first [eassumption | reflexivity | split | eexists]].
Ltac pick :=
  first
    [ leaf
    | lazymatch goal with |- _ ∨ _ => first [left; pick | right; pick] end ].

Section RunEvents.
Context (env : Env) (s : Settings.t).

Local Abbreviation F := (Settings.folderToSync s).

Lemma called_debug_events m c : Called c ∈ debug_events s m ↔ False.
Proof. item_events. Qed.

Lemma unhandled_debug_events m e : Unhandled e ∈ debug_events s m ↔ False.
Proof. item_events. Qed.

Lemma called_ensure_events w dir m c :
  Called c ∈ ensure_events env s w dir m ↔
  c = CallExists dir ∨ (path_exists w dir = false ∧ c = CallCreateFolder dir).
Proof. unfold ensure_events. item_events. Qed.

Lemma unhandled_ensure_events w dir m e :
  Unhandled e ∈ ensure_events env s w dir m ↔ False.
Proof. unfold ensure_events. item_events. Qed.

Lemma called_memo_events memo c :
  Called c ∈ memo_events env s memo ↔
  skips (Settings.lastSyncTime s) (Memo.updatedTs memo) = false ∧
  c = CallWrite (memoPath F memo) (Memo.content memo).
Proof. unfold memo_events. item_events. Qed.

Lemma unhandled_memo_events memo e :
  Unhandled e ∈ memo_events env s memo ↔
  skips (Settings.lastSyncTime s) (Memo.updatedTs memo) = false ∧
  fault env (CallWrite (memoPath F memo) (Memo.content memo)) = true ∧
  e = StoreError (CallWrite (memoPath F memo) (Memo.content memo)).
Proof. unfold memo_events. item_events. Qed.

Lemma called_resource_events pending c :
  Called c ∈ resource_events env s pending ↔
  pending.2 = inr false ∧
  c = CallWriteBinary (resourcePath F pending.1) (Resource.content pending.1).
Proof.
  unfold resource_events. destruct pending as [r [e|[|]]]; item_events.
Qed.

Lemma unhandled_resource_events pending e :
  Unhandled e ∈ resource_events env s pending ↔
  pending.2 = inl e ∨
  (pending.2 = inr false ∧
   fault env (CallWriteBinary (resourcePath F pending.1)
                              (Resource.content pending.1)) = true ∧
   e = StoreError (CallWriteBinary (resourcePath F pending.1)
                                   (Resource.content pending.1))).
Proof.
  unfold resource_events. destruct pending as [r [e'|[|]]]; item_events.
Qed.

Lemma called_prune_events inAPI p c :
  Called c ∈ prune_events inAPI p ↔ (p ∉ inAPI) ∧ c = CallRemove p.
Proof.
  unfold prune_events. case_bool_decide; item_events.
Qed.

Lemma unhandled_prune_events inAPI p e :
  Unhandled e ∈ prune_events inAPI p ↔ False.
Proof. unfold prune_events. case_bool_decide; item_events. Qed.

Lemma called_prune_resume_events deleted pending c :
  Called c ∈ prune_resume_events s deleted pending ↔ False.
Proof. destruct pending as [[p [e|[]]]|]; simpl; item_events. Qed.

Lemma unhandled_prune_resume_events deleted inAPI p e :
  Unhandled e ∈ prune_resume_events s deleted (prune_pending env inAPI p) ↔
  (p ∉ inAPI) ∧ fault env (CallRemove p) = true ∧ e = StoreError (CallRemove p).
Proof.
  unfold prune_pending, prune_promise. case_bool_decide; simpl.
  - item_events.
  - destruct (fault env (CallRemove p)) eqn:E; simpl; item_events.
Qed.

Lemma exists_promise_inl w p e :
  exists_promise env w p = inl e ↔
  fault env (CallExists p) = true ∧ e = StoreError (CallExists p).
Proof.
  unfold exists_promise. destruct (fault env _); split; intros; cases; done.
Qed.

Lemma unhandled_resource_events_all w rs e :
  Unhandled e ∈ flat_map (resource_events env s) (resource_pending env s w <$> rs) ↔
  (∃ r, r ∈ rs ∧ fault env (CallExists (resourcePath F r)) = true ∧
        e = StoreError (CallExists (resourcePath F r)))
  ∨ (∃ r, r ∈ rs ∧ exists_promise env w (resourcePath F r) = inr false ∧
        fault env (CallWriteBinary (resourcePath F r) (Resource.content r)) = true ∧
        e = StoreError (CallWriteBinary (resourcePath F r) (Resource.content r))).
Proof.
  rewrite elem_of_flat_map. setoid_rewrite list_elem_of_fmap.
  setoid_rewrite unhandled_resource_events. unfold resource_pending.
  split; intros H; cases.
  - left. match goal with H : _ = inl _ |- _ => apply exists_promise_inl in H end.
    cases. leaf.
  - right. leaf.
  - eexists (_, _). split; [leaf|]. left. simpl.
    by apply exists_promise_inl.
  - eexists (_, _). split; [leaf|]. right. simpl. leaf.
Qed.

Lemma unhandled_prune_resume_all deleted inAPI listing e :
  Unhandled e ∈ flat_map (prune_resume_events s deleted)
                         (prune_pending env inAPI <$> listing) ↔
  ∃ p, p ∈ listing ∧ (p ∉ inAPI) ∧ fault env (CallRemove p) = true ∧
       e = StoreError (CallRemove p).
Proof.
  rewrite elem_of_flat_map. setoid_rewrite list_elem_of_fmap. split.
  - intros (x & (p & -> & Hp) & H).
    apply unhandled_prune_resume_events in H. cases. leaf.
  - intros (p & Hp & H). eexists. split; [leaf|].
    by apply unhandled_prune_resume_events.
Qed.

Lemma called_prune_resume_all deleted pendings c :
  Called c ∈ flat_map (prune_resume_events s deleted) pendings ↔ False.
Proof.
  rewrite elem_of_flat_map. setoid_rewrite called_prune_resume_events.
  split; intros; cases.
Qed.

Context (res : Snapshot).

Local Abbreviation mdir := (memosFolder (Settings.folderToSync s)).
Local Abbreviation rdir := (resourcesFolder (Settings.folderToSync s)).

Lemma called_reconcile_events w c :
  Called c ∈ reconcile_events env s res w ↔
  c = CallFetch (Settings.openAPI s)
  ∨ (c = CallExists mdir ∨ (path_exists w mdir = false ∧ c = CallCreateFolder mdir))
  ∨ (c = CallExists rdir
     ∨ (path_exists (ensured w mdir) rdir = false ∧ c = CallCreateFolder rdir))
  ∨ (∃ memo, memo ∈ memos res ∧
       skips (Settings.lastSyncTime s) (Memo.updatedTs memo) = false ∧
       c = CallWrite (memoPath F memo) (Memo.content memo))
  ∨ (∃ r, r ∈ resources res ∧ c = CallExists (resourcePath F r))
  ∨ c = CallList mdir
  ∨ (∃ r, r ∈ resources res ∧
       exists_promise env (after_memos env s res (with_folders s w))
         (resourcePath F r) = inr false ∧
       c = CallWriteBinary (resourcePath F r) (Resource.content r))
  ∨ (∃ p, p ∈ memo_listing env s res (with_folders s w) ∧
       (p ∉ memosInAPI s res) ∧ c = CallRemove p)
  ∨ c = CallList rdir
  ∨ (∃ p, p ∈ resource_listing env s res (with_folders s w) ∧
       (p ∉ resourcesInAPI s res) ∧ c = CallRemove p).
Proof.
  unfold reconcile_events, pending_resources.
  rewrite !elem_of_app, !elem_of_cons, !elem_of_nil, !elem_of_flat_map,
    !list_elem_of_fmap, called_debug_events, !called_ensure_events.
  setoid_rewrite called_memo_events.
  setoid_rewrite called_resource_events.
  setoid_rewrite called_prune_events.
  setoid_rewrite called_prune_resume_events.
  setoid_rewrite list_elem_of_fmap.
  unfold resource_pending.
  split; intros H; cases; pick.
Qed.

Lemma called_closing_events w c :
  Called c ∈ closing_events env s res w ↔
  c = CallSaveData (with_lastSyncTime s (now env)).
Proof.
  unfold closing_events.
  rewrite !elem_of_app, !elem_of_cons, !elem_of_nil, called_prune_resume_all.
  split; intros H; cases; pick.
Qed.

Lemma unhandled_run_events w e :
  Unhandled e ∈ reconcile_events env s res w ++ closing_events env s res w ↔
  (∃ memo, memo ∈ memos res ∧
     skips (Settings.lastSyncTime s) (Memo.updatedTs memo) = false ∧
     fault env (CallWrite (memoPath F memo) (Memo.content memo)) = true ∧
     e = StoreError (CallWrite (memoPath F memo) (Memo.content memo)))
  ∨ (∃ r, r ∈ resources res ∧
       fault env (CallExists (resourcePath F r)) = true ∧
       e = StoreError (CallExists (resourcePath F r)))
  ∨ (∃ r, r ∈ resources res ∧
       exists_promise env (after_memos env s res (with_folders s w))
         (resourcePath F r) = inr false ∧
       fault env (CallWriteBinary (resourcePath F r) (Resource.content r)) = true ∧
       e = StoreError (CallWriteBinary (resourcePath F r) (Resource.content r)))
  ∨ (∃ p, p ∈ memo_listing env s res (with_folders s w) ∧
       (p ∉ memosInAPI s res) ∧ fault env (CallRemove p) = true ∧
       e = StoreError (CallRemove p))
  ∨ (∃ p, p ∈ resource_listing env s res (with_folders s w) ∧
       (p ∉ resourcesInAPI s res) ∧ fault env (CallRemove p) = true ∧
       e = StoreError (CallRemove p)).
Proof.
  unfold reconcile_events, closing_events, pending_resources.
  rewrite !elem_of_app, !elem_of_cons, !elem_of_nil,
    !unhandled_prune_resume_all, unhandled_resource_events_all,
    unhandled_debug_events, !unhandled_ensure_events.
  rewrite !elem_of_flat_map, list_elem_of_fmap.
  setoid_rewrite unhandled_memo_events.
  setoid_rewrite unhandled_prune_events.
  split; intros H; cases; pick.
Qed.
End RunEvents.

(** ** Final reports among the events *)

Lemma quiet_reconcile_events env s res w :
  Forall quiet (reconcile_events env s res w).
Proof. unfold reconcile_events. quiet. Qed.

Lemma quiet_prefix l k : l `prefix_of` k → Forall quiet k → Forall quiet l.
Proof. intros [k' ->] H. by apply Forall_app in H as [H _]. Qed.

Lemma quiet_not_success l d : Forall quiet l → Notice SyncSuccess d ∉ l.
Proof. intros H Hin. by apply (proj1 (Forall_forall _ _) H) in Hin. Qed.

Lemma quiet_not_failed l d : Forall quiet l → Notice SyncFailed d ∉ l.
Proof. intros H Hin. by apply (proj1 (Forall_forall _ _) H) in Hin. Qed.

Lemma quiet_not_console l e : Forall quiet l → ConsoleError e ∉ l.
Proof. intros H Hin. by apply (proj1 (Forall_forall _ _) H) in Hin. Qed.

Lemma quiet_not_saveData l d : Forall quiet l → Called (CallSaveData d) ∉ l.
Proof. intros H Hin. by apply (proj1 (Forall_forall _ _) H) in Hin. Qed.

Lemma closing_events_eq env s res w :
  ∃ l, closing_events env s res w =
       [Notice SyncSuccess None;
        Called (CallSaveData (with_lastSyncTime s (now env)))] ++ l
       ∧ Forall quiet l.
Proof. eexists. split; [reflexivity|]. quiet. Qed.

(** ** The awaited calls of a run *)

(** The check-then-create of a folder, with what is known of its calls
    when the rest [k] of the run starts. *)
Lemma wp_ensure_made {B} env s dir created (k : M B) w (Q : Out B → Prop) :
  (∀ c l, fault env c = true →
          c = CallExists dir ∨ c = CallCreateFolder dir →
          Called c ∈ l →
          Q (mkOut (inl (StoreError c)) w l)) →
  ((∀ c, Called c ∈ ensure_events env s w dir created → fault env c = false) →
   wp k (ensured w dir) (λ o, Q (prepend (ensure_events env s w dir created) o))) →
  wp (adapter_exists env dir ≫= λ isFolderExists : bool,
        (if isFolderExists then mret tt
         else vault_createFolder env dir ;; debug s created) ≫= λ _, k) w Q.
Proof.
  intros Habort Hk. unfold ensured, ensure_events in *.
  apply wp_bind, wp_adapter_exists; intros Hf; simpl.
  { apply Habort; auto. apply list_elem_of_here. }
  destruct (path_exists w dir) eqn:Hp.
  - apply wp_bind, wp_ret; simpl.
    assert (∀ c, Called c ∈ [Called (CallExists dir)] → fault env c = false)
      as Hmade.
    { intros c Hc%list_elem_of_singleton. by injection Hc as ->. }
    specialize (Hk Hmade). revert Hk. unfold wp.
    destruct (k w); unfold prepend; simpl. done.
  - apply wp_bind, wp_bind, wp_vault_createFolder; [done|..]; intros Hc; simpl.
    { apply (Habort (CallCreateFolder dir)); auto.
      apply list_elem_of_further, list_elem_of_here. }
    apply wp_debug; simpl.
    assert (∀ c, Called c ∈ Called (CallExists dir)
                   :: Called (CallCreateFolder dir) :: debug_events s created →
                 fault env c = false) as Hmade.
    { intros c. rewrite !elem_of_cons, called_debug_events.
      intros [H|[H|[]]]; by injection H as ->. }
    specialize (Hk Hmade). revert Hk. unfold wp.
    destruct (k _); unfold prepend; simpl. done.
Qed.

Ltac made :=
  repeat first
    [ assumption
    | apply list_elem_of_here
    | apply elem_of_app; right
    | apply list_elem_of_further ].

Section Awaited.
Context (env : Env) (s : Settings.t) (res : Snapshot).

Local Abbreviation F := (Settings.folderToSync s).
Local Abbreviation mdir := (memosFolder (Settings.folderToSync s)).
Local Abbreviation rdir := (resourcesFolder (Settings.folderToSync s)).

Hypothesis Hfetch : fetchMemosWithResource env (Settings.openAPI s) = inr res.

(** When the [try] block throws, an awaited call that was made has
    failed; when it does not, none of the awaited calls that could be made
    fails. *)
Lemma sync_try_awaited_calls w :
  match result (sync_try env s w) with
  | inl e =>
      ∃ c, e = StoreError c ∧ awaited s c = true ∧ fault env c = true
           ∧ Called c ∈ events (sync_try env s w)
  | inr _ =>
      (∀ c, Called c ∈ ensure_events env s w mdir CreatedMemosFolder →
            fault env c = false) ∧
      (∀ c, Called c ∈ ensure_events env s (ensured w mdir) rdir
                         CreatedResourcesFolder →
            fault env c = false) ∧
      fault env (CallList mdir) = false ∧
      fault env (CallList rdir) = false
  end.
Proof.
  change (wp (sync_try env s) w
            (λ o, match result o with
                  | inl e =>
                      ∃ c, e = StoreError c ∧ awaited s c = true
                           ∧ fault env c = true ∧ Called c ∈ events o
                  | inr _ =>
                      (∀ c, Called c ∈ ensure_events env s w mdir
                                         CreatedMemosFolder →
                            fault env c = false) ∧
                      (∀ c, Called c ∈ ensure_events env s (ensured w mdir) rdir
                                         CreatedResourcesFolder →
                            fault env c = false) ∧
                      fault env (CallList mdir) = false ∧
                      fault env (CallList rdir) = false
                  end)).
  unfold sync_try, fetch. rewrite Hfetch.
  wp_run.
  apply wp_ensure_made.
  { intros c l Hc Hcl Hl. cbn [result events]. exists c.
    split_and!; try done.
    - destruct Hcl as [-> | ->]; simpl; by rewrite bool_decide_true.
    - made. }
  intros H1. apply wp_ensure_made.
  { intros c l Hc Hcl Hl. cbn [prepend result events]. exists c.
    split_and!; try done.
    - destruct Hcl as [-> | ->]; simpl;
        rewrite orb_true_iff, !bool_decide_eq_true; auto.
    - made. }
  intros H2.
  wp_run. eapply wp_eq; [apply forEach_memoCallback|]. wp_run.
  eapply wp_eq; [apply mapM_resourceCallback_start|]. wp_run.
  { eapply wp_eq; [apply forEach_resourceCallback_resume|]. wp_run.
    exists (CallList mdir). split_and!; try done.
    - simpl; by rewrite bool_decide_true.
    - made. }
  eapply wp_eq; [apply forEach_resourceCallback_resume|]. wp_run.
  eapply wp_eq; [apply mapM_pruneCallback_start|].
  { apply NoDup_list_files. }
  { intros p Hp. apply resources_files_is_Some.
    by apply elem_of_list_files in Hp as [Hp _]. }
  wp_run.
  { eapply wp_eq; [apply forEach_pruneCallback_resume|]. wp_run.
    exists (CallList rdir). split_and!; try done.
    - simpl; rewrite orb_true_iff, !bool_decide_eq_true; auto.
    - made. }
  eapply wp_eq; [apply forEach_pruneCallback_resume|]. wp_run.
  eapply wp_eq; [apply mapM_pruneCallback_start|].
  { apply NoDup_list_files. }
  { intros p Hp. by apply elem_of_list_files in Hp as [Hp _]. }
  wp_run. unfold saveData. wp_run. done.
Qed.
End Awaited.

(** * The properties of [sync] *)

(** C8: a run started with an empty credential shows the message that asks
    for the key and does nothing else: no call is made (no fetch, no vault
    call, no write of the plugin data), and the files, the folders and the
    stored settings are the ones from before the run. *)
Theorem C8_empty_credential_halts env w :
  Settings.openAPI (assign_settings (data w)) = "" →
  events (sync env w) = [Notice PleaseEnterKey None] ∧
  files (world (sync env w)) = files w ∧
  folders (world (sync env w)) = folders w ∧
  data (world (sync env w)) = data w.
Proof. intros Hkey. by rewrite (sync_no_key env w Hkey). Qed.

(** C5: when the fetch fails, the run makes no call but the fetch, shows
    the start notice and the failure notice, logs the error on the console,
    and the files, the folders and the stored settings (so [lastSyncTime]
    too) are the ones from before the run. *)
Theorem C5_fetch_failure_changes_nothing env w e :
  Settings.openAPI (assign_settings (data w)) ≠ "" →
  fetchMemosWithResource env (Settings.openAPI (assign_settings (data w))) = inl e →
  events (sync env w) =
    [Notice StartSyncing None;
     Called (CallFetch (Settings.openAPI (assign_settings (data w))));
     Notice SyncFailed (Some 0); ConsoleError e] ∧
  files (world (sync env w)) = files w ∧
  folders (world (sync env w)) = folders w ∧
  data (world (sync env w)) = data w.
Proof. intros Hkey Hfetch. by rewrite (sync_fetch_failed env w e Hkey Hfetch). Qed.

(** The stages leave the stored settings alone. *)
Lemma aborted_data env s res w w' :
  w' = w ∨ w' = ensured w (memosFolder (Settings.folderToSync s))
  ∨ w' = after_resources env s res (with_folders s w)
  ∨ w' = after_memo_prune env s res (with_folders s w) →
  data w' = data w.
Proof.
  intros [->|[->|[->| ->]]]; [done|apply data_ensured|..];
    apply data_with_folders.
Qed.

(** A run shows the success notice exactly when it has a key, the fetch
    gives a snapshot, and no awaited call that it makes fails. *)
Lemma sync_success_iff env w :
  let s := assign_settings (data w) in
  Notice SyncSuccess None ∈ events (sync env w) ↔
  Settings.openAPI s ≠ ""
  ∧ (∃ res, fetchMemosWithResource env (Settings.openAPI s) = inr res)
  ∧ (∀ c, awaited s c = true → Called c ∈ events (sync env w) →
          fault env c = false).
Proof.
  intros s.
  destruct (decide (Settings.openAPI s = "")) as [Hkey|Hkey].
  { rewrite (sync_no_key env w Hkey). cbn [events]. split.
    - intros H%list_elem_of_singleton. discriminate H.
    - by intros [? _]. }
  destruct (fetchMemosWithResource env (Settings.openAPI s)) as [e|res] eqn:Hfetch.
  { rewrite (sync_fetch_failed env w e Hkey Hfetch). cbn [events]. split.
    - rewrite !elem_of_cons, elem_of_nil.
      intros [H|[H|[H|[H|[]]]]]; discriminate H.
    - by intros (_ & [res Hres] & _). }
  pose proof (sync_try_run env s res (set_settings s w) Hfetch) as Hrun.
  pose proof (sync_try_awaited_calls env s res Hfetch (set_settings s w)) as Haw.
  rewrite (sync_with_key env w Hkey). fold s.
  destruct (sync_try env s (set_settings s w)) as [[e|pending] w' l];
    cbn [result world events] in *.
  - destruct Hrun as [(c' & e' & _ & _ & _ & Hl & _)|Heq]; [|discriminate Heq].
    destruct Haw as (c & -> & Hc & Hf & Hin). split.
    + intros [H|H]%elem_of_app.
      * eapply quiet_not_success in H; [done|].
        eapply quiet_prefix; [done|apply quiet_reconcile_events].
      * rewrite !elem_of_cons, elem_of_nil in H.
        destruct H as [H|[H|[]]]; discriminate H.
    + intros (_ & _ & Hok). rewrite Hok in Hf; [done..|].
      apply elem_of_app. by left.
  - destruct Hrun as [(c' & e' & _ & _ & He & _)|Heq]; [discriminate He|].
    assert (l = reconcile_events env s res (set_settings s w)
                ++ [Notice SyncSuccess None;
                    Called (CallSaveData (with_lastSyncTime s (now env)))])
      as -> by (by injection Heq).
    assert (pending = prune_pending env (resourcesInAPI s res)
                        <$> resource_listing env s res
                              (with_folders s (set_settings s w)))
      as -> by (by injection Heq).
    clear Heq.
    destruct Haw as (H1 & H2 & Hl1 & Hl2). split.
    + intros _. split_and!; [done|eauto|].
      intros c Hc Hin.
      rewrite !elem_of_app, called_prune_resume_all, !elem_of_cons,
        elem_of_nil in Hin.
      destruct Hin as [[Hin|[Hin|[Hin|[]]]]|[]]; [|discriminate Hin|].
      2:{ injection Hin as ->. discriminate Hc. }
      apply called_reconcile_events in Hin.
      destruct Hin as [->|[[->|[E ->]]|[[->|[E ->]]|[(memo & _ & _ & ->)
             |[(r & _ & ->)|[->|[(r & _ & _ & ->)|[(q & _ & _ & ->)
             |[->|(q & _ & _ & ->)]]]]]]]]]; try discriminate Hc; try done.
      * apply H1, called_ensure_events. by left.
      * apply H1, called_ensure_events. by right.
      * apply H2, called_ensure_events. by left.
      * apply H2, called_ensure_events. by right.
      * simpl in Hc. apply orb_true_iff in Hc as [Hc|Hc];
          apply bool_decide_eq_true in Hc.
        -- by apply resourcePath_ne_memosFolder in Hc.
        -- by apply resourcePath_ne_resourcesFolder in Hc.
    + intros _. apply elem_of_app. left. apply elem_of_app. right. by left.
Qed.

(** C7: the stored settings after a run.  When the run shows the success
    notice, it has called [saveData] and the stored settings are the
    settings loaded at the start with [lastSyncTime] set to the clock of
    the run: the key, the folder and the debug flag are the loaded ones.
    When it does not, it has not called [saveData] and the stored settings
    are untouched.  Whatever is handed to [saveData] is that object.  And
    the success notice is shown exactly in the runs that have a key, get a
    snapshot, and in which no awaited call that is made (a folder check, a
    folder creation, a listing) fails.  (The store of the plugin data is
    taken to work: what is handed to [saveData] is stored.) *)
Theorem C7_checkpoint env w :
  let s := assign_settings (data w) in
  let o := sync env w in
  let checkpoint :=
    Stored.mk (Some (Settings.openAPI s)) (Some (Settings.folderToSync s))
              (Some (Settings.debug s)) (Some (now env)) in
  (Notice SyncSuccess None ∈ events o →
   data (world o) = Some checkpoint
   ∧ Called (CallSaveData checkpoint) ∈ events o) ∧
  (Notice SyncSuccess None ∉ events o →
   data (world o) = data w ∧ ∀ d, Called (CallSaveData d) ∉ events o) ∧
  (∀ d, Called (CallSaveData d) ∈ events o → d = checkpoint) ∧
  (Notice SyncSuccess None ∈ events o ↔
   Settings.openAPI s ≠ ""
   ∧ (∃ res, fetchMemosWithResource env (Settings.openAPI s) = inr res)
   ∧ (∀ c, awaited s c = true → Called c ∈ events o → fault env c = false)).
Proof.
  intros s o checkpoint. subst o.
  split_and!; [| | |apply sync_success_iff].
  all: destruct (decide (Settings.openAPI s = "")) as [Hkey|Hkey];
    [rewrite (sync_no_key env w Hkey); cbn [events world data set_settings]|].
  all: try (destruct (fetchMemosWithResource env (Settings.openAPI s))
              as [e|res] eqn:Hfetch;
            [rewrite (sync_fetch_failed env w e Hkey Hfetch);
             cbn [events world data set_settings]|]).
  all: try (destruct (sync_with_snapshot env w res Hkey Hfetch)
              as [(c & e & l & Hc & Hf & Hl & Hres & Hev & Hw)|Heq];
            [rewrite Hev;
             assert (Forall quiet l) as Hq
               by (eapply quiet_prefix; [done|apply quiet_reconcile_events])
            |rewrite Heq; cbn [world events data set_data]]).
  - intros H%list_elem_of_singleton. discriminate H.
  - rewrite !elem_of_cons, elem_of_nil.
    intros [H|[H|[H|[H|[]]]]]; discriminate H.
  - intros [H|H]%elem_of_app.
    + by apply (quiet_not_success _ _ Hq) in H.
    + rewrite !elem_of_cons, elem_of_nil in H.
      destruct H as [H|[H|[]]]; discriminate H.
  - intros _. split; [done|].
    apply elem_of_app. right. apply list_elem_of_further, list_elem_of_here.
  - intros _. split; [done|].
    intros d H%list_elem_of_singleton. discriminate H.
  - intros _. split; [done|]. intros d.
    rewrite !elem_of_cons, elem_of_nil.
    intros [H|[H|[H|[H|[]]]]]; discriminate H.
  - intros _. split; [by apply aborted_data in Hw|].
    intros d [H|H]%elem_of_app.
    + by apply (quiet_not_saveData _ _ Hq) in H.
    + rewrite !elem_of_cons, elem_of_nil in H.
      destruct H as [H|[H|[]]]; discriminate H.
  - intros Hno. destruct Hno. apply elem_of_app. right. by left.
  - intros d H%list_elem_of_singleton. discriminate H.
  - intros d. rewrite !elem_of_cons, elem_of_nil.
    intros [H|[H|[H|[H|[]]]]]; discriminate H.
  - intros d [H|H]%elem_of_app.
    + by apply (quiet_not_saveData _ _ Hq) in H.
    + rewrite !elem_of_cons, elem_of_nil in H.
      destruct H as [H|[H|[]]]; discriminate H.
  - intros d [H|H]%elem_of_app.
    + by apply (quiet_not_saveData _ _ (quiet_reconcile_events env s res _)) in H.
    + apply called_closing_events in H. by injection H.
Qed.

Lemma C7_witness :
  data (world (sync sample_env sample_world))
  = Some (Stored.mk (Some "key") (Some "Memos Sync") (Some false)
                    (Some 1700000000000)).
Proof.
  refine (proj1 (proj1 (C7_checkpoint sample_env sample_world) _)).
  vm_compute. repeat first [apply list_elem_of_here|apply list_elem_of_further].
Defined.

(** ** The calls of a run of [sync] *)

Section SyncCalls.
Context (env : Env) (w : World) (res : Snapshot).

Local Abbreviation s := (assign_settings (data w)).
Local Abbreviation w0 := (set_settings (assign_settings (data w)) w).
Local Abbreviation F := (Settings.folderToSync (assign_settings (data w))).

Hypothesis Hfetch : fetchMemosWithResource env (Settings.openAPI s) = inr res.

(** Every call of the run is a call of the full run or the final write
    of the plugin data. *)
Lemma called_sync c :
  Called c ∈ events (sync env w) →
  Called c ∈ reconcile_events env s res w0
  ∨ c = CallSaveData (with_lastSyncTime s (now env)).
Proof.
  destruct (decide (Settings.openAPI s = "")) as [Hkey|Hkey].
  { rewrite (sync_no_key env w Hkey). simpl.
    intros H%list_elem_of_singleton. discriminate H. }
  destruct (sync_with_snapshot env w res Hkey Hfetch)
    as [(c' & e & l & _ & _ & [k Hl] & _ & -> & _)| ->]; cbn [events].
  - intros [H|H]%elem_of_app.
    + left. rewrite Hl. apply elem_of_app. by left.
    + rewrite !elem_of_cons, elem_of_nil in H.
      destruct H as [H|[H|[]]]; discriminate H.
  - intros [H|H]%elem_of_app; [by left|].
    right. by apply called_closing_events in H.
Qed.

Lemma write_in_sync p t :
  Called (CallWrite p t) ∈ events (sync env w) →
  ∃ memo, memo ∈ memos res ∧
    skips (Settings.lastSyncTime s) (Memo.updatedTs memo) = false ∧
    p = memoPath F memo ∧ t = Memo.content memo.
Proof.
  intros [H|H]%called_sync; [|discriminate H].
  apply called_reconcile_events in H. cases. leaf.
Qed.

Lemma writeBinary_in_sync p b :
  Called (CallWriteBinary p b) ∈ events (sync env w) →
  ∃ r, r ∈ resources res ∧ p = resourcePath F r ∧ b = Resource.content r ∧
    exists_promise env (after_memos env s res (with_folders s w0)) p = inr false.
Proof.
  intros [H|H]%called_sync; [|discriminate H].
  apply called_reconcile_events in H. cases. leaf.
Qed.

Lemma remove_in_sync p :
  Called (CallRemove p) ∈ events (sync env w) →
  (p ∈ memo_listing env s res (with_folders s w0) ∧ p ∉ memosInAPI s res)
  ∨ (p ∈ resource_listing env s res (with_folders s w0)
     ∧ p ∉ resourcesInAPI s res).
Proof.
  intros [H|H]%called_sync; [|discriminate H].
  apply called_reconcile_events in H. cases; [left|right]; leaf.
Qed.
End SyncCalls.

(** ** Files that the stages keep *)

Section Kept.
Context (env : Env) (s : Settings.t) (res : Snapshot) (w : World).

Local Abbreviation F := (Settings.folderToSync s).
Local Abbreviation mdir := (memosFolder (Settings.folderToSync s)).
Local Abbreviation rdir := (resourcesFolder (Settings.folderToSync s)).

(** A resource file that is there stays as it is through every stage. *)
Lemma resource_kept r c w' :
  r ∈ resources res →
  files w !! resourcePath F r = Some c →
  w' = w ∨ w' = ensured w mdir
  ∨ w' = after_resources env s res (with_folders s w)
  ∨ w' = after_memo_prune env s res (with_folders s w)
  ∨ w' = set_data (Some (with_lastSyncTime s (now env)))
           (after_resource_prune env s res (with_folders s w)) →
  files w' !! resourcePath F r = Some c.
Proof.
  intros Hr Hc.
  assert (files (after_resources env s res (with_folders s w))
            !! resourcePath F r = Some c) as H3.
  { rewrite after_resources_present.
    - by rewrite files_with_folders.
    - rewrite files_with_folders. eauto.
    - intros memo _. apply memoPath_ne_resourcePath. }
  assert (files (after_memo_prune env s res (with_folders s w))
            !! resourcePath F r = Some c) as H4.
  { rewrite after_memo_prune_frame; [done|]. left.
    apply not_true_is_false. intros H.
    by apply (memos_child_not_resourcePath F _ r) in H. }
  intros [->|[->|[->|[->| ->]]]]; try done.
  - by rewrite files_ensured.
  - cbn [files set_data]. rewrite after_resource_prune_frame; [done|].
    right. apply elem_of_resourcesInAPI. eauto.
Qed.

(** The file of a memo that no memo of the snapshot writes stays as it is
    through every stage. *)
Lemma memo_kept memo w' :
  memo ∈ memos res →
  (∀ memo', memo' ∈ memos res → memoPath F memo' = memoPath F memo →
            memo_written env s memo' = false) →
  w' = w ∨ w' = ensured w mdir
  ∨ w' = after_resources env s res (with_folders s w)
  ∨ w' = after_memo_prune env s res (with_folders s w)
  ∨ w' = set_data (Some (with_lastSyncTime s (now env)))
           (after_resource_prune env s res (with_folders s w)) →
  files w' !! memoPath F memo = files w !! memoPath F memo.
Proof.
  intros Hm Hnw.
  assert (files (after_resources env s res (with_folders s w))
            !! memoPath F memo = files w !! memoPath F memo) as H3.
  { rewrite after_resources_memoPath, after_memos_frame, files_with_folders;
      [done|].
    intros memo' Hin Hw Hp. apply Hnw in Hp; [congruence|done]. }
  assert (files (after_memo_prune env s res (with_folders s w))
            !! memoPath F memo = files w !! memoPath F memo) as H4.
  { rewrite after_memo_prune_frame; [done|]. right.
    apply elem_of_memosInAPI. eauto. }
  intros [->|[->|[->|[->| ->]]]]; try done.
  - by rewrite files_ensured.
  - cbn [files set_data]. rewrite after_resource_prune_frame; [done|]. left.
    apply not_true_is_false. intros H.
    by apply (resources_child_not_memoPath F _ memo) in H.
Qed.
End Kept.

(** How a run of [sync] with a snapshot leaves the world: as one of the
    stages. *)
Lemma sync_world env w res :
  let s := assign_settings (data w) in
  let w0 := set_settings s w in
  fetchMemosWithResource env (Settings.openAPI s) = inr res →
  world (sync env w) = w0
  ∨ world (sync env w) = ensured w0 (memosFolder (Settings.folderToSync s))
  ∨ world (sync env w) = after_resources env s res (with_folders s w0)
  ∨ world (sync env w) = after_memo_prune env s res (with_folders s w0)
  ∨ world (sync env w) =
      set_data (Some (with_lastSyncTime s (now env)))
        (after_resource_prune env s res (with_folders s w0)).
Proof.
  intros s w0 Hfetch.
  destruct (decide (Settings.openAPI s = "")) as [Hkey|Hkey].
  { rewrite (sync_no_key env w Hkey). by left. }
  destruct (sync_with_snapshot env w res Hkey Hfetch)
    as [(c' & e & l & _ & _ & _ & _ & _ & H)| ->]; cbn [world]; tauto.
Qed.

Lemma NoDup_fmap_eq {A B} (f : A → B) (l : list A) x y :
  NoDup (f <$> l) → x ∈ l → y ∈ l → f x = f y → x = y.
Proof.
  induction l as [|a l IH]; intros Hnd Hx Hy Hf.
  - by apply elem_of_nil in Hx.
  - rewrite fmap_cons in Hnd. apply NoDup_cons in Hnd as [Ha Hnd].
    apply elem_of_cons in Hx as [->|Hx]; apply elem_of_cons in Hy as [->|Hy];
      auto.
    + destruct Ha. rewrite Hf. by apply list_elem_of_fmap_2.
    + destruct Ha. rewrite <- Hf. by apply list_elem_of_fmap_2.
Qed.

(** C4: a resource of the snapshot whose file is there before the run is
    never overwritten: after the run (however it ends, whatever the store
    fails) the file holds what it held before, and the run has made no
    write, binary write or remove call on its path.  Besides, every binary
    write of the run is for a resource of the snapshot whose path did not
    exist before the run. *)
Theorem C4_resource_write_once env w res r c :
  let s := assign_settings (data w) in
  let F := Settings.folderToSync s in
  fetchMemosWithResource env (Settings.openAPI s) = inr res →
  r ∈ resources res →
  files w !! resourcePath F r = Some c →
  files (world (sync env w)) !! resourcePath F r = Some c ∧
  (∀ b, Called (CallWriteBinary (resourcePath F r) b) ∉ events (sync env w)) ∧
  (∀ t, Called (CallWrite (resourcePath F r) t) ∉ events (sync env w)) ∧
  (Called (CallRemove (resourcePath F r)) ∉ events (sync env w)) ∧
  (∀ p b, Called (CallWriteBinary p b) ∈ events (sync env w) →
          path_exists w p = false ∧
          ∃ r', r' ∈ resources res ∧ p = resourcePath F r' ∧ b = Resource.content r').
Proof.
  intros s F Hfetch Hr Hc.
  assert (∀ p b, Called (CallWriteBinary p b) ∈ events (sync env w) →
            path_exists w p = false ∧
            ∃ r', r' ∈ resources res ∧ p = resourcePath F r'
                  ∧ b = Resource.content r') as Hmissing.
  { intros p b H. apply (writeBinary_in_sync env w res Hfetch) in H
      as (r' & Hr' & -> & -> & Hex).
    split; [|eauto]. unfold exists_promise in Hex.
    destruct (fault env _); [done|]. injection Hex as Hex.
    apply not_true_is_false. intros Hp. apply not_true_iff_false in Hex.
    apply Hex. unfold path_exists in *.
    apply orb_true_iff in Hp as [Hp|Hp]; apply orb_true_iff; [left|right].
    - apply bool_decide_eq_true in Hp. apply bool_decide_eq_true.
      rewrite after_memos_resourcePath, files_with_folders. done.
    - apply bool_decide_eq_true in Hp. apply bool_decide_eq_true.
      by apply folders_with_folders_mono. }
  split_and!; [|..|done].
  - apply (resource_kept env s res (set_settings s w) r c); [done..|].
    by apply sync_world.
  - intros b H. apply Hmissing in H as [H _].
    unfold path_exists in H. by rewrite Hc, bool_decide_true in H.
  - intros t H. apply (write_in_sync env w res Hfetch) in H
      as (memo & _ & _ & H & _).
    symmetry in H. by apply memoPath_ne_resourcePath in H.
  - intros H. apply (remove_in_sync env w res Hfetch) in H as [[H _]|[_ H]].
    + apply memo_listing_child in H.
      by apply (memos_child_not_resourcePath _ _ r) in H.
    + destruct H. apply elem_of_resourcesInAPI. eauto.
Qed.

Lemma C4_witness :
  files (world (sync sample_env seeded_world)) !! "Memos Sync/resources/img.png"
  = Some (Binary [Byte.x00]).
Proof.
  refine (proj1 (C4_resource_write_once sample_env seeded_world sample_snapshot
                   (Resource.mk "img.png" [Byte.x89; Byte.x50; Byte.x4e; Byte.x47])
                   (Binary [Byte.x00]) _ _ _)).
  - reflexivity.
  - apply list_elem_of_here.
  - vm_compute. reflexivity.
Defined.

Lemma C8_witness :
  events (sync sample_env (set_data None sample_world))
  = [Notice PleaseEnterKey None].
Proof.
  refine (proj1 (C8_empty_credential_halts sample_env (set_data None sample_world) _)).
  reflexivity.
Defined.

Lemma C5_witness :
  data (world (sync sample_env
                 (set_data (Some (Stored.mk (Some "bad") None None (Some 5)))
                           sample_world)))
  = Some (Stored.mk (Some "bad") None None (Some 5)).
Proof.
  refine (proj2 (proj2 (proj2
    (C5_fetch_failure_changes_nothing sample_env
       (set_data (Some (Stored.mk (Some "bad") None None (Some 5))) sample_world)
       (FetchError "401") _ _)))).
  - discriminate.
  - reflexivity.
Defined.

(** Below [2^53] the product is the exact one. *)
Lemma times1000_exact x :
  Z.abs (x * 1000) < 2 ^ 53 → times1000 x = x * 1000.
Proof.
  intros H. unfold times1000, to_double. cbv zeta.
  by rewrite (proj2 (Z.ltb_lt _ _) H).
Qed.

(** C2: skip correctness.  With a stored [lastSyncTime] of [T] other than
    [0], a memo of the snapshot for which [updatedTs * 1000 < T] holds as
    the code computes it (the product is a double: the exact product below
    [2^53], rounded beyond), and with whose id the snapshot has no memo that
    is not older than [T] in the same way, is skipped: the run (however it
    ends, whatever the store fails) makes no write call on its file, and
    the file holds after the run what it held before, whatever content the
    snapshot has for the memo. *)
Theorem C2_skipped_memo_untouched env w res memo T :
  let s := assign_settings (data w) in
  let F := Settings.folderToSync s in
  fetchMemosWithResource env (Settings.openAPI s) = inr res →
  Settings.lastSyncTime s = Some T →
  T ≠ 0 →
  memo ∈ memos res →
  times1000 (Memo.updatedTs memo) < T →
  (∀ memo', memo' ∈ memos res → Memo.id memo' = Memo.id memo →
            times1000 (Memo.updatedTs memo') < T) →
  files (world (sync env w)) !! memoPath F memo = files w !! memoPath F memo ∧
  (∀ t, Called (CallWrite (memoPath F memo) t) ∉ events (sync env w)).
Proof.
  intros s F Hfetch HT HT0 Hmemo Hold Hsame.
  assert (∀ memo', memo' ∈ memos res → memoPath F memo' = memoPath F memo →
            skips (Settings.lastSyncTime s) (Memo.updatedTs memo') = true)
    as Hskip.
  { intros memo' Hin Hp%memoPath_inj.
    rewrite HT. unfold skips, truthy. apply andb_true_iff. split.
    - apply negb_true_iff. by apply Z.eqb_neq.
    - apply Z.ltb_lt. by apply Hsame. }
  split.
  - apply (memo_kept env s res (set_settings s w) memo); [done| |].
    + intros memo' Hin Hp. unfold memo_written. by rewrite (Hskip memo' Hin Hp).
    + by apply sync_world.
  - intros t H. apply (write_in_sync env w res Hfetch) in H
      as (memo' & Hin & Hns & Hp & _).
    symmetry in Hp. apply (Hskip memo' Hin) in Hp.
    unfold s in Hp. congruence.
Qed.

Lemma C2_witness :
  files (world (sync sample_env seeded_world)) !! "Memos Sync/memos/a.md"
  = Some (Text "stale").
Proof.
  refine (proj1 (C2_skipped_memo_untouched sample_env seeded_world sample_snapshot
                   (Memo.mk "a" "hello" 1000) 2000000 _ _ _ _ _ _)).
  - reflexivity.
  - reflexivity.
  - discriminate.
  - apply list_elem_of_here.
  - reflexivity.
  - intros memo' ->%list_elem_of_singleton _. reflexivity.
Defined.

(** C2 does not hold as it stands, in three ways.  For the stored
    [lastSyncTime] [0]: the memo of the snapshot has
    [updatedTs * 1000 = -1000 < 0], and the run overwrites the file [stale]
    with the content of the snapshot.  For two memos of one id: the first
    is older than the checkpoint, the second is not, and the run overwrites
    the file of the first with the content of the second.  For a product
    beyond [2^53]: [72057594037931 * 1000] is below the checkpoint
    [72057594037931008] as an integer and rounds up to it as a double, the
    guard is false, and the run overwrites the file. *)
Lemma C2_counterexample :
  (Settings.lastSyncTime (assign_settings (data zero_checkpoint_world)) = Some 0 ∧
   fetchMemosWithResource early_env "key"
     = inr (mkSnapshot [Memo.mk "a" "hello" (-1)] []) ∧
   -1 * 1000 < 0 ∧
   files zero_checkpoint_world !! "Memos Sync/memos/a.md" = Some (Text "stale") ∧
   files (world (sync early_env zero_checkpoint_world)) !! "Memos Sync/memos/a.md"
     = Some (Text "hello") ∧
   Called (CallWrite "Memos Sync/memos/a.md" "hello")
     ∈ events (sync early_env zero_checkpoint_world)) ∧
  (Settings.lastSyncTime (assign_settings (data seeded_world)) = Some 2000000 ∧
   fetchMemosWithResource duplicate_env "key"
     = inr (mkSnapshot [Memo.mk "a" "first" 1000; Memo.mk "a" "second" 3000] []) ∧
   1000 * 1000 < 2000000 ∧
   files seeded_world !! "Memos Sync/memos/a.md" = Some (Text "stale") ∧
   files (world (sync duplicate_env seeded_world)) !! "Memos Sync/memos/a.md"
     = Some (Text "second")) ∧
  (Settings.lastSyncTime (assign_settings (data rounding_world))
     = Some 72057594037931008 ∧
   fetchMemosWithResource rounding_env "key"
     = inr (mkSnapshot [Memo.mk "a" "hello" 72057594037931] []) ∧
   72057594037931 * 1000 < 72057594037931008 ∧
   times1000 72057594037931 = 72057594037931008 ∧
   files rounding_world !! "Memos Sync/memos/a.md" = Some (Text "stale") ∧
   files (world (sync rounding_env rounding_world)) !! "Memos Sync/memos/a.md"
     = Some (Text "hello") ∧
   Called (CallWrite "Memos Sync/memos/a.md" "hello")
     ∈ events (sync rounding_env rounding_world)).
Proof.
  split_and!; try reflexivity; try (vm_compute; reflexivity).
  - vm_compute. do 5 apply list_elem_of_further. apply list_elem_of_here.
  - vm_compute. do 5 apply list_elem_of_further. apply list_elem_of_here.
Qed.

(** A run in which no awaited call fails goes through every stage. *)
Lemma sync_completes env w res :
  let s := assign_settings (data w) in
  let w0 := set_settings s w in
  Settings.openAPI s ≠ "" →
  fetchMemosWithResource env (Settings.openAPI s) = inr res →
  (∀ c, awaited s c = true → fault env c = false) →
  sync env w =
  mkOut (inr tt)
    (set_data (Some (with_lastSyncTime s (now env)))
              (after_resource_prune env s res (with_folders s w0)))
    (reconcile_events env s res w0 ++ closing_events env s res w0).
Proof.
  intros s w0 Hkey Hfetch Hok.
  destruct (sync_with_snapshot env w res Hkey Hfetch)
    as [(c & e & l & Hc & Hf & _)|Heq]; [|done].
  apply Hok in Hc. congruence.
Qed.

(** ** The stages only look at the vault *)

Section Vault.
Context (env : Env) (s : Settings.t) (res : Snapshot) (w w' : World).
Hypothesis Hv : same_vault w w'.

Lemma path_exists_vault p : path_exists w p = path_exists w' p.
Proof. unfold path_exists. destruct Hv as [-> ->]. done. Qed.

Lemma list_files_vault dir : list_files w dir = list_files w' dir.
Proof. unfold list_files. destruct Hv as [-> _]. done. Qed.

Lemma ensured_vault dir : same_vault (ensured w dir) (ensured w' dir).
Proof.
  unfold ensured. rewrite <- path_exists_vault.
  destruct (path_exists w dir); [done|].
  destruct Hv as [Hf Hd]. split; simpl; congruence.
Qed.

Lemma ensure_events_vault dir m :
  ensure_events env s w dir m = ensure_events env s w' dir m.
Proof. unfold ensure_events. by rewrite path_exists_vault. Qed.

Lemma after_memos_vault :
  same_vault (after_memos env s res w) (after_memos env s res w').
Proof. destruct Hv as [Hf Hd]. split; simpl; congruence. Qed.
End Vault.

Section VaultStages.
Context (env : Env) (s : Settings.t) (res : Snapshot) (w w' : World).
Hypothesis Hv : same_vault w w'.

Lemma pending_resources_vault :
  pending_resources env s res w = pending_resources env s res w'.
Proof.
  unfold pending_resources, resource_pending, exists_promise.
  apply list_fmap_ext. intros _ r _.
  by rewrite (path_exists_vault _ _ (after_memos_vault env s res w w' Hv)).
Qed.

Lemma after_resources_vault :
  same_vault (after_resources env s res w) (after_resources env s res w').
Proof.
  unfold after_resources. rewrite pending_resources_vault.
  destruct (after_memos_vault env s res w w' Hv) as [Hf Hd].
  split; cbn [files folders set_files]; [by rewrite Hf|done].
Qed.

Lemma memo_listing_vault :
  memo_listing env s res w = memo_listing env s res w'.
Proof. apply list_files_vault, after_memos_vault, Hv. Qed.

Lemma after_memo_prune_vault :
  same_vault (after_memo_prune env s res w) (after_memo_prune env s res w').
Proof.
  unfold after_memo_prune. rewrite memo_listing_vault.
  destruct after_resources_vault as [Hf Hd].
  split; cbn [files folders set_files]; [by rewrite Hf|done].
Qed.

Lemma resource_listing_vault :
  resource_listing env s res w = resource_listing env s res w'.
Proof. apply list_files_vault, after_memo_prune_vault. Qed.

Lemma after_resource_prune_vault :
  same_vault (after_resource_prune env s res w)
             (after_resource_prune env s res w').
Proof.
  unfold after_resource_prune. rewrite resource_listing_vault.
  destruct after_memo_prune_vault as [Hf Hd].
  split; cbn [files folders set_files]; [by rewrite Hf|done].
Qed.
End VaultStages.

Lemma with_folders_vault s w w' :
  same_vault w w' → same_vault (with_folders s w) (with_folders s w').
Proof. intros Hv. unfold with_folders. by do 2 apply ensured_vault. Qed.

Lemma run_events_vault env s res w w' :
  same_vault w w' →
  reconcile_events env s res w ++ closing_events env s res w
  = reconcile_events env s res w' ++ closing_events env s res w'.
Proof.
  intros Hv. pose proof (with_folders_vault s w w' Hv) as Hv1.
  unfold reconcile_events, closing_events.
  rewrite (ensure_events_vault env s w w' Hv).
  rewrite (ensure_events_vault env s _ _ (ensured_vault w w' Hv _)).
  rewrite (pending_resources_vault env s res _ _ Hv1).
  rewrite (memo_listing_vault env s res _ _ Hv1).
  rewrite (resource_listing_vault env s res _ _ Hv1).
  reflexivity.
Qed.

(** C10: a stored [lastSyncTime] of [0] is as good as none.  In a run with
    a key and a snapshot in which no awaited call fails, every memo of the
    snapshot has its write call made, whatever its [updatedTs]; and the
    events of the run, the files, the folders and the stored settings it
    leaves are those of the same run started without a stored
    [lastSyncTime]. *)
Theorem C10_zero_checkpoint_as_absent env w res :
  let s := assign_settings (data w) in
  let F := Settings.folderToSync s in
  Settings.lastSyncTime s = Some 0 →
  Settings.openAPI s ≠ "" →
  fetchMemosWithResource env (Settings.openAPI s) = inr res →
  (∀ c, awaited s c = true → fault env c = false) →
  (∀ memo, memo ∈ memos res →
     Called (CallWrite (memoPath F memo) (Memo.content memo))
       ∈ events (sync env w)) ∧
  events (sync env w) = events (sync env (without_lastSyncTime w)) ∧
  files (world (sync env w)) = files (world (sync env (without_lastSyncTime w))) ∧
  folders (world (sync env w)) = folders (world (sync env (without_lastSyncTime w))) ∧
  data (world (sync env w)) = data (world (sync env (without_lastSyncTime w))).
Proof.
  intros s F Hzero Hkey Hfetch Hok.
  pose proof (sync_completes env w res Hkey Hfetch Hok) as Hrun.
  split.
  { intros memo Hmemo. rewrite Hrun. cbn [events].
    apply elem_of_app. left. apply called_reconcile_events.
    do 3 right. left. exists memo. split_and!; [done| |done].
    fold s. by rewrite Hzero. }
  destruct w as [fl fo [[k f g l]|] st]; [|discriminate Hzero].
  cbn in Hzero. subst l.
  set (w := mkWorld fl fo (Some (Stored.mk k f g (Some 0))) st) in *.
  set (s' := assign_settings (data (without_lastSyncTime w))).
  assert (same_vault (set_settings s w) (set_settings s' (without_lastSyncTime w)))
    as Hv by done.
  rewrite Hrun.
  rewrite (sync_completes env (without_lastSyncTime w) res Hkey Hfetch Hok).
  cbn [events world files folders data set_data].
  destruct (after_resource_prune_vault env s res _ _ (with_folders_vault s _ _ Hv))
    as [Hfiles Hfolders].
  split_and!.
  - etransitivity; [apply (run_events_vault env s res _ _ Hv)|reflexivity].
  - etransitivity; [apply Hfiles|reflexivity].
  - etransitivity; [apply Hfolders|reflexivity].
  - reflexivity.
Qed.

Lemma C10_witness :
  Called (CallWrite "Memos Sync/memos/a.md" "hello")
    ∈ events (sync early_env zero_checkpoint_world).
Proof.
  refine (proj1 (C10_zero_checkpoint_as_absent early_env zero_checkpoint_world
                   (mkSnapshot [Memo.mk "a" "hello" (-1)] []) _ _ _ _)
                (Memo.mk "a" "hello" (-1)) _).
  - reflexivity.
  - discriminate.
  - reflexivity.
  - intros c _. reflexivity.
  - apply list_elem_of_here.
Defined.

(** ** The vault after a full run, path by path *)

Section Final.
Context (env : Env) (s : Settings.t) (res : Snapshot) (w : World).

Local Abbreviation F := (Settings.folderToSync s).
Local Abbreviation mdir := (memosFolder (Settings.folderToSync s)).
Local Abbreviation rdir := (resourcesFolder (Settings.folderToSync s)).
Local Abbreviation w1 := (with_folders s w).
Local Abbreviation final := (after_resource_prune env s res (with_folders s w)).

(** The path of a memo is settled by the memo loop. *)
Lemma final_memoPath memo :
  memo ∈ memos res →
  files final !! memoPath F memo
  = memos_files env s (memos res) (files w) !! memoPath F memo.
Proof.
  intros Hm. rewrite after_resource_prune_frame.
  2:{ left. apply not_true_is_false. intros H.
      by apply (resources_child_not_memoPath F _ memo) in H. }
  rewrite after_memo_prune_frame.
  2:{ right. apply elem_of_memosInAPI. eauto. }
  rewrite after_resources_memoPath. unfold after_memos. cbn [files set_files].
  by rewrite files_with_folders.
Qed.

(** The path of a resource is settled by the resource loop. *)
Lemma final_resourcePath r :
  r ∈ resources res →
  files final !! resourcePath F r
  = files (after_resources env s res w1) !! resourcePath F r.
Proof.
  intros Hr. rewrite after_resource_prune_frame.
  2:{ right. apply elem_of_resourcesInAPI. eauto. }
  rewrite after_memo_prune_frame; [done|].
  left. apply not_true_is_false. intros H.
  by apply (memos_child_not_resourcePath F _ r) in H.
Qed.

(** A path outside of the API response keeps its file through the two
    loops. *)
Lemma after_resources_other p :
  p ∉ memosInAPI s res → p ∉ resourcesInAPI s res →
  files (after_resources env s res w1) !! p = files w !! p.
Proof.
  intros Hm Hr. rewrite after_resources_frame.
  - rewrite after_memos_frame, files_with_folders; [done|].
    intros memo Hin _ <-. apply Hm, elem_of_memosInAPI. eauto.
  - intros r Hin <-. destruct Hr. apply elem_of_resourcesInAPI. eauto.
Qed.

(** The orphans at the time of the listings are the orphans of the start. *)
Lemma memo_orphan p :
  p ∈ memo_listing env s res w1 ∧ p ∉ memosInAPI s res ↔
  p ∈ list_files w mdir ∧ p ∉ memosInAPI s res.
Proof.
  unfold memo_listing. rewrite !elem_of_list_files.
  split; intros [[Hs Hc] Hm]; (split; [split; [|done]|done]).
  - rewrite after_memos_frame, files_with_folders in Hs; [done|].
    intros memo Hin _ <-. apply Hm, elem_of_memosInAPI. eauto.
  - rewrite after_memos_frame, files_with_folders; [done|].
    intros memo Hin _ <-. apply Hm, elem_of_memosInAPI. eauto.
Qed.

Lemma resource_orphan p :
  p ∈ resource_listing env s res w1 ∧ p ∉ resourcesInAPI s res ↔
  p ∈ list_files w rdir ∧ p ∉ resourcesInAPI s res.
Proof.
  unfold resource_listing. rewrite !elem_of_list_files.
  assert (child_of rdir p = true → p ∉ resourcesInAPI s res →
          files (after_memo_prune env s res w1) !! p = files w !! p) as Heq.
  { intros Hc Hr. rewrite after_memo_prune_frame.
    - apply after_resources_other; [|done].
      intros (memo & _ & ->)%elem_of_memosInAPI.
      by apply (resources_child_not_memoPath F _ memo) in Hc.
    - left. apply not_true_is_false. intros H.
      apply memos_child_not_resources_child in H. congruence. }
  split; intros [[Hs Hc] Hr]; (split; [split; [|done]|done]).
  - by rewrite Heq in Hs.
  - by rewrite Heq.
Qed.

(** A file of the start is still there before the pruning. *)
Lemma after_resources_mono p :
  is_Some (files w !! p) → is_Some (files (after_resources env s res w1) !! p).
Proof.
  intros Hp. apply after_resources_is_Some, memos_files_is_Some.
  by rewrite files_with_folders.
Qed.

(** Whether a file of the start is gone at the end. *)
Lemma final_gone p :
  is_Some (files w !! p) →
  files final !! p = None ↔
  ((p ∈ list_files w mdir ∧ p ∉ memosInAPI s res)
   ∨ (p ∈ list_files w rdir ∧ p ∉ resourcesInAPI s res))
  ∧ fault env (CallRemove p) = false.
Proof.
  intros Hp. rewrite <- memo_orphan, <- resource_orphan.
  rewrite after_resource_prune_lookup, after_memo_prune_lookup.
  pose proof (after_resources_mono p Hp) as [x Hx]. rewrite Hx.
  repeat case_decide; split; intros; cases; try done; tauto.
Qed.
End Final.

(** C3: orphan pruning.  In a run with a key and a snapshot in which no
    awaited call fails, the remove calls are exactly for the files listed
    in the memos folder whose path is not the path of a memo of the
    snapshot, and for the files listed in the resources folder whose path
    is not the path of a resource of the snapshot.  A file of the vault is
    gone after the run exactly when it is one of these and the store has
    not failed its remove.  A removed path of one folder is never inside
    the other folder and never a path of the other kind. *)
Theorem C3_orphan_pruning env w res :
  let s := assign_settings (data w) in
  let F := Settings.folderToSync s in
  let orphan p :=
    (p ∈ list_files w (memosFolder F) ∧ p ∉ memosInAPI s res)
    ∨ (p ∈ list_files w (resourcesFolder F) ∧ p ∉ resourcesInAPI s res) in
  Settings.openAPI s ≠ "" →
  fetchMemosWithResource env (Settings.openAPI s) = inr res →
  (∀ c, awaited s c = true → fault env c = false) →
  (∀ p, Called (CallRemove p) ∈ events (sync env w) ↔ orphan p) ∧
  (∀ p, is_Some (files w !! p) →
        files (world (sync env w)) !! p = None
        ↔ orphan p ∧ fault env (CallRemove p) = false) ∧
  (∀ p, p ∈ list_files w (memosFolder F) →
        child_of (resourcesFolder F) p = false ∧ p ∉ resourcesInAPI s res) ∧
  (∀ p, p ∈ list_files w (resourcesFolder F) →
        child_of (memosFolder F) p = false ∧ p ∉ memosInAPI s res).
Proof.
  intros s F orphan Hkey Hfetch Hok.
  pose proof (sync_completes env w res Hkey Hfetch Hok) as Hrun.
  split_and!.
  - intros p. unfold orphan, F.
    pose proof (memo_orphan env s res (set_settings s w) p) as Hm.
    pose proof (resource_orphan env s res (set_settings s w) p) as Hr.
    unfold list_files in *. cbn [files set_settings] in Hm, Hr.
    rewrite <- Hm, <- Hr. clear Hm Hr.
    split.
    + apply (remove_in_sync env w res Hfetch).
    + intros H. rewrite Hrun. cbn [events]. apply elem_of_app. left.
      apply called_reconcile_events.
      destruct H as [[H1 H2]|[H1 H2]].
      * do 7 right. left. eauto.
      * do 9 right. eauto.
  - intros p Hp. rewrite Hrun. cbn [world files set_data].
    by apply (final_gone env s res (set_settings s w)).
  - intros p [_ Hc]%elem_of_list_files. split.
    + by apply memos_child_not_resources_child.
    + intros (r & _ & ->)%elem_of_resourcesInAPI.
      by apply (memos_child_not_resourcePath F _ r) in Hc.
  - intros p [_ Hc]%elem_of_list_files. split.
    + apply not_true_is_false. intros H.
      apply memos_child_not_resources_child in H. congruence.
    + intros (memo & _ & ->)%elem_of_memosInAPI.
      by apply (resources_child_not_memoPath F _ memo) in Hc.
Qed.

Lemma C3_witness :
  files (world (sync sample_env seeded_world)) !! "Memos Sync/memos/b.md" = None.
Proof.
  refine (proj2 (proj1 (proj2 (C3_orphan_pruning sample_env seeded_world
                                 sample_snapshot _ _ _))
                   "Memos Sync/memos/b.md" _) _).
  - discriminate.
  - reflexivity.
  - intros c _. reflexivity.
  - vm_compute. eauto.
  - split; [|reflexivity]. left. split.
    + vm_compute. apply list_elem_of_further, list_elem_of_here.
    + vm_compute. intros H. apply list_elem_of_singleton in H. discriminate H.
Defined.

(** ** A full run with a store that fails nothing *)

Section Converging.
Context (env : Env) (s : Settings.t) (res : Snapshot) (w : World).
Hypothesis Hnf : ∀ c, fault env c = false.

Local Abbreviation F := (Settings.folderToSync s).
Local Abbreviation mdir := (memosFolder (Settings.folderToSync s)).
Local Abbreviation rdir := (resourcesFolder (Settings.folderToSync s)).
Local Abbreviation w1 := (with_folders s w).
Local Abbreviation final := (after_resource_prune env s res (with_folders s w)).

(** What is left in the two folders is in the API response. *)
Lemma final_memos_clean p :
  p ∈ list_files final mdir → p ∈ memosInAPI s res.
Proof.
  intros [Hs Hc]%elem_of_list_files.
  destruct (decide (p ∈ memosInAPI s res)) as [|Hm]; [done|exfalso].
  rewrite after_resource_prune_frame in Hs.
  2:{ left. by apply memos_child_not_resources_child. }
  rewrite after_memo_prune_lookup in Hs. case_decide as Hd.
  { by apply is_Some_None in Hs. }
  apply Hd. split_and!; [|done|apply Hnf].
  apply elem_of_list_files. split; [|done].
  by rewrite <- after_resources_memos_child.
Qed.

Lemma final_resources_clean p :
  p ∈ list_files final rdir → p ∈ resourcesInAPI s res.
Proof.
  intros [Hs Hc]%elem_of_list_files.
  destruct (decide (p ∈ resourcesInAPI s res)) as [|Hr]; [done|exfalso].
  rewrite after_resource_prune_lookup in Hs. case_decide as Hd.
  { by apply is_Some_None in Hs. }
  apply Hd. split_and!; [|done|apply Hnf].
  apply elem_of_list_files. by split.
Qed.

(** Every resource of the snapshot has something at its path: its file,
    or a folder that was in the way. *)
Lemma after_resources_resource r :
  r ∈ resources res →
  is_Some (files (after_resources env s res w1) !! resourcePath F r)
  ∨ resourcePath F r ∈ folders w.
Proof.
  intros Hr.
  destruct (path_exists (after_memos env s res w1) (resourcePath F r)) eqn:E.
  - unfold path_exists in E.
    apply orb_true_iff in E as [E|E]; apply bool_decide_eq_true in E.
    + left. by apply after_resources_is_Some.
    + right. cbn [folders after_memos set_files] in E.
      apply folders_with_folders in E as [E|[E|E]]; [done|..].
      * by apply resourcePath_ne_memosFolder in E.
      * by apply resourcePath_ne_resourcesFolder in E.
  - left.
    apply (resources_files_written env s _ _
             (resource_pending env s (after_memos env s res w1) r)).
    + unfold pending_resources. by apply list_elem_of_fmap_2.
    + unfold resource_written, resource_pending, exists_promise. simpl.
      by rewrite !Hnf, E.
Qed.

Lemma final_resource r :
  r ∈ resources res →
  is_Some (files final !! resourcePath F r) ∨ resourcePath F r ∈ folders w.
Proof.
  intros Hr. rewrite final_resourcePath by done.
  by apply after_resources_resource.
Qed.

(** Without a cutoff every memo is written. *)
Lemma memo_written_all memo :
  Settings.lastSyncTime s = None → memo_written env s memo = true.
Proof. intros H. unfold memo_written. by rewrite H, Hnf. Qed.
End Converging.

(** C1: convergence.  A run with a key, a fetched snapshot, no
    [lastSyncTime] and a store that fails no call, from any vault, on a
    snapshot whose memo ids are distinct and whose ids and file names name a
    file directly in their folder (no folder stands at the path of a
    resource), leaves in the memos folder exactly the files
    [<folder>/memos/<id>.md] of the memos of the snapshot, each holding the
    content of its memo, and in the resources folder exactly the files
    [<folder>/resources/<filename>] of the resources of the snapshot. *)
Theorem C1_convergence env w res :
  let s := assign_settings (data w) in
  let F := Settings.folderToSync s in
  let w' := world (sync env w) in
  Settings.openAPI s ≠ "" →
  fetchMemosWithResource env (Settings.openAPI s) = inr res →
  Settings.lastSyncTime s = None →
  (∀ c, fault env c = false) →
  NoDup (Memo.id <$> memos res) →
  (∀ memo, memo ∈ memos res → has_slash (Memo.id memo) = false) →
  (∀ r, r ∈ resources res → has_slash (Resource.filename r) = false) →
  (∀ r, r ∈ resources res → resourcePath F r ∉ folders w) →
  (∀ p, p ∈ list_files w' (memosFolder F)
        ↔ ∃ memo, memo ∈ memos res ∧ p = memoPath F memo) ∧
  (∀ memo, memo ∈ memos res →
           files w' !! memoPath F memo = Some (Text (Memo.content memo))) ∧
  (∀ p, p ∈ list_files w' (resourcesFolder F)
        ↔ ∃ r, r ∈ resources res ∧ p = resourcePath F r).
Proof.
  intros s F w' Hkey Hfetch Hlast Hnf Hnd Hids Hnames Hdirs.
  assert (∀ c, awaited s c = true → fault env c = false) as Hok by auto.
  pose proof (sync_completes env w res Hkey Hfetch Hok) as Hrun.
  set (w0 := set_settings s w).
  assert (∀ memo, memo ∈ memos res →
            files w' !! memoPath F memo = Some (Text (Memo.content memo)))
    as Hmemo.
  { intros memo Hin. unfold w'. rewrite Hrun. cbn [world files set_data].
    rewrite (final_memoPath env s res w0) by done.
    apply memos_files_content; [done..|by apply memo_written_all]. }
  assert (∀ dir, list_files w' dir
                 = list_files (after_resource_prune env s res
                                 (with_folders s w0)) dir) as Hlist.
  { intros dir. unfold w'. by rewrite Hrun. }
  split_and!; try done.
  - intros p. split.
    + rewrite Hlist. intros Hp%final_memos_clean; [|done].
      by apply elem_of_memosInAPI.
    + intros (memo & Hin & ->). apply elem_of_list_files. split.
      * by rewrite Hmemo.
      * rewrite memoPath_child. by rewrite Hids.
  - intros p. split.
    + rewrite Hlist. intros Hp%final_resources_clean; [|done].
      by apply elem_of_resourcesInAPI.
    + intros (r & Hin & ->). rewrite Hlist. apply elem_of_list_files. split.
      * destruct (final_resource env s res w0 Hnf r Hin) as [|Hd]; [done|].
        by apply Hdirs in Hd.
      * rewrite resourcePath_child. by rewrite Hnames.
Qed.

Lemma C1_witness :
  files (world (sync sample_env (without_lastSyncTime seeded_world)))
    !! "Memos Sync/memos/a.md"
  = Some (Text "hello").
Proof.
  refine (proj1 (proj2 (C1_convergence sample_env
                          (without_lastSyncTime seeded_world)
                          sample_snapshot _ _ _ _ _ _ _ _))
            (Memo.mk "a" "hello" 1000) _).
  - discriminate.
  - reflexivity.
  - reflexivity.
  - reflexivity.
  - vm_compute. apply NoDup_cons. split; [apply not_elem_of_nil|apply NoDup_nil_2].
  - intros memo ->%list_elem_of_singleton. reflexivity.
  - intros r ->%list_elem_of_singleton. reflexivity.
  - intros r ->%list_elem_of_singleton. vm_compute. set_solver.
  - apply list_elem_of_here.
Defined.

(** C1 does not hold of every snapshot and every vault.  With a folder at
    the path of the resource, the existence check is positive and nothing
    is written: the resources folder holds no file.  With a slash in the id
    and in the file name, the files are written below a folder inside the
    two folders, which hold no file themselves.  With two memos of one id,
    the file holds the content of the second, not of the first.  With a
    store that fails the write of the memo, the memos folder holds no
    file. *)
Lemma C1_counterexample :
  (Settings.openAPI (assign_settings (data blocked_world)) = "key" ∧
   Settings.lastSyncTime (assign_settings (data blocked_world)) = None ∧
   fetchMemosWithResource sample_env "key" = inr sample_snapshot ∧
   resources sample_snapshot
     = [Resource.mk "img.png" [Byte.x89; Byte.x50; Byte.x4e; Byte.x47]] ∧
   list_files (world (sync sample_env blocked_world)) "Memos Sync/resources" = [] ∧
   files (world (sync sample_env blocked_world)) !! "Memos Sync/resources/img.png"
     = None) ∧
  (Settings.openAPI (assign_settings (data sample_world)) = "key" ∧
   Settings.lastSyncTime (assign_settings (data sample_world)) = None ∧
   fetchMemosWithResource nested_env "key"
     = inr (mkSnapshot [Memo.mk "x/y" "hello" 1000]
                       [Resource.mk "d/img.png" [Byte.x89]]) ∧
   list_files (world (sync nested_env sample_world)) "Memos Sync/memos" = [] ∧
   list_files (world (sync nested_env sample_world)) "Memos Sync/resources" = []) ∧
  (fetchMemosWithResource duplicate_env "key"
     = inr (mkSnapshot [Memo.mk "a" "first" 1000; Memo.mk "a" "second" 3000] []) ∧
   files (world (sync duplicate_env sample_world)) !! "Memos Sync/memos/a.md"
     = Some (Text "second")) ∧
  (fetchMemosWithResource failing_env "key" = inr sample_snapshot ∧
   memos sample_snapshot = [Memo.mk "a" "hello" 1000] ∧
   fault failing_env failing_write = true ∧
   list_files (world (sync failing_env sample_world)) "Memos Sync/memos" = [] ∧
   files (world (sync failing_env sample_world)) !! "Memos Sync/memos/a.md"
     = None).
Proof.
  split_and!; try reflexivity; vm_compute; reflexivity.
Qed.

(** ** A run on a vault that has converged *)

Lemma converged_vault env s res w w' :
  same_vault w w' → converged env s res w → converged env s res w'.
Proof.
  intros Hv (Hm & Hr & Hmemos & Hres & Hcm & Hcr).
  pose proof (path_exists_vault w w' Hv) as Hp.
  pose proof (list_files_vault w w' Hv) as Hl.
  destruct Hv as [Hf _].
  split_and!.
  - by rewrite <- Hp.
  - by rewrite <- Hp.
  - intros p. by rewrite <- Hf.
  - intros r Hin. rewrite <- Hp. by apply Hres.
  - intros p. rewrite <- Hl. apply Hcm.
  - intros p. rewrite <- Hl. apply Hcr.
Qed.

Section Again.
Context (env : Env) (s : Settings.t) (res : Snapshot) (w : World).
Hypothesis Hc : converged env s res w.

Local Abbreviation F := (Settings.folderToSync s).
Local Abbreviation mdir := (memosFolder (Settings.folderToSync s)).
Local Abbreviation rdir := (resourcesFolder (Settings.folderToSync s)).

Lemma again_with_folders : with_folders s w = w.
Proof.
  destruct Hc as (Hm & Hr & _).
  unfold with_folders, ensured. by rewrite Hm, Hr.
Qed.

Lemma again_after_memos : same_vault (after_memos env s res w) w.
Proof.
  destruct Hc as (_ & _ & Hmemos & _).
  split; [|done]. apply map_eq, Hmemos.
Qed.

Lemma again_after_resources : same_vault (after_resources env s res w) w.
Proof.
  destruct Hc as (_ & _ & _ & Hres & _).
  split; [|done]. apply map_eq. intros p.
  rewrite after_resources_frame.
  - by destruct again_after_memos as [-> _].
  - intros r Hr <-. unfold exists_promise.
    destruct (fault env _); [done|].
    rewrite (path_exists_vault _ _ again_after_memos), Hres; done.
Qed.

Lemma again_memo_listing : memo_listing env s res w = list_files w mdir.
Proof. apply list_files_vault, again_after_memos. Qed.

Lemma again_after_memo_prune : same_vault (after_memo_prune env s res w) w.
Proof.
  destruct Hc as (_ & _ & _ & _ & Hcm & _).
  split; [|done]. apply map_eq. intros p.
  rewrite after_memo_prune_lookup. case_decide as Hd.
  - destruct Hd as (Hin & Hn & _). rewrite again_memo_listing in Hin.
    by apply Hcm in Hin.
  - by destruct again_after_resources as [-> _].
Qed.

Lemma again_resource_listing :
  resource_listing env s res w = list_files w rdir.
Proof. apply list_files_vault, again_after_memo_prune. Qed.

Lemma again_after_resource_prune :
  same_vault (after_resource_prune env s res w) w.
Proof.
  destruct Hc as (_ & _ & _ & _ & _ & Hcr).
  split; [|done]. apply map_eq. intros p.
  rewrite after_resource_prune_lookup. case_decide as Hd.
  - destruct Hd as (Hin & Hn & _). rewrite again_resource_listing in Hin.
    by apply Hcr in Hin.
  - by destruct again_after_memo_prune as [-> _].
Qed.

(** The run creates no folder, writes no resource and removes nothing. *)
Lemma again_calls c :
  Called c ∈ reconcile_events env s res w →
  (∀ p, c ≠ CallCreateFolder p) ∧ (∀ p b, c ≠ CallWriteBinary p b)
  ∧ (∀ p, c ≠ CallRemove p).
Proof.
  destruct Hc as (Hm & Hr & _ & Hres & Hcm & Hcr).
  rewrite called_reconcile_events, again_with_folders.
  unfold ensured. rewrite Hm.
  intros [->|[[->|[E ->]]|[[->|[E ->]]|[(memo & _ & _ & ->)|[(r & _ & ->)
         |[->|[(r & Hin & E & ->)|[(p & Hp & Hn & ->)
         |[->|(p & Hp & Hn & ->)]]]]]]]]]; try done; exfalso.
  - simpl in E. congruence.
  - unfold exists_promise in E. destruct (fault env _); [done|].
    rewrite (path_exists_vault _ _ again_after_memos), Hres in E; done.
  - rewrite again_memo_listing in Hp. by apply Hcm in Hp.
  - rewrite again_resource_listing in Hp. by apply Hcr in Hp.
Qed.
End Again.

(** ** The vault after a full run has converged *)

(** Neither folder is a file inside one of the two folders. *)
Lemma folder_not_child F dir p :
  dir = memosFolder F ∨ dir = resourcesFolder F →
  p = memosFolder F ∨ p = resourcesFolder F →
  child_of dir p = false.
Proof.
  intros Hd Hp. apply not_true_is_false. intros H.
  apply child_of_spec in H as (n & H & _).
  unfold memosFolder, resourcesFolder in *.
  destruct Hd as [->| ->], Hp as [->| ->]; string_literals H.
Qed.

Lemma memos_files_ext env env' s ms f :
  (∀ memo, memo ∈ ms → memo_written env s memo = memo_written env' s memo) →
  memos_files env s ms f = memos_files env' s ms f.
Proof.
  revert f. induction ms as [|m ms IH]; intros f H; [done|].
  rewrite !memos_files_cons, (H m) by left.
  apply IH. intros memo Hin. apply H. by right.
Qed.

Lemma assign_settings_without s t w :
  Settings.lastSyncTime s = None →
  assign_settings
    (data (without_lastSyncTime (set_data (Some (with_lastSyncTime s t)) w)))
  = s.
Proof. destruct s. simpl. by intros ->. Qed.

Section Converges.
Context (env env' : Env) (s : Settings.t) (res : Snapshot) (w : World).
Hypothesis Hnf : ∀ c, fault env c = false.
Hypothesis Hnf' : ∀ c, fault env' c = false.
Hypothesis Hlast : Settings.lastSyncTime s = None.

Local Abbreviation F := (Settings.folderToSync s).
Local Abbreviation mdir := (memosFolder (Settings.folderToSync s)).
Local Abbreviation rdir := (resourcesFolder (Settings.folderToSync s)).
Local Abbreviation final := (after_resource_prune env s res (with_folders s w)).

(** What stands outside the two folders stays. *)
Lemma final_path_exists p :
  path_exists (with_folders s w) p = true →
  child_of mdir p = false → child_of rdir p = false →
  path_exists final p = true.
Proof.
  unfold path_exists. rewrite !orb_true_iff, !bool_decide_eq_true.
  intros [H|H] Hm Hr; [left|by right].
  rewrite after_resource_prune_frame, after_memo_prune_frame by auto.
  apply after_resources_mono. by rewrite files_with_folders in H.
Qed.

Lemma run_converges : converged env' s res final.
Proof.
  split_and!.
  - apply final_path_exists; [|apply (folder_not_child F); auto..].
    apply path_exists_ensured_mono, path_exists_ensured.
  - apply final_path_exists; [|apply (folder_not_child F); auto..].
    apply path_exists_ensured.
  - intros p. destruct (decide (p ∈ memosInAPI s res)) as [Hp|Hp].
    + apply elem_of_memosInAPI in Hp as (memo & Hin & ->).
      rewrite (final_memoPath env s res w memo Hin).
      rewrite (memos_files_ext env env' s (memos res) (files w)).
      * apply memos_files_written. exists memo. split_and!; [done| |done].
        by apply memo_written_all.
      * intros m _. by rewrite !memo_written_all.
    + apply memos_files_frame. intros memo Hin _ <-.
      apply Hp, elem_of_memosInAPI. eauto.
  - intros r Hin. unfold path_exists.
    rewrite orb_true_iff, !bool_decide_eq_true.
    destruct (final_resource env s res w Hnf r Hin) as [H|H]; [by left|right].
    by apply folders_with_folders_mono.
  - intros p. by apply final_memos_clean.
  - intros p. by apply final_resources_clean.
Qed.
End Converges.

(** C9: idempotence.  Two runs in succession on the same snapshot, from any
    vault, with a key, no [lastSyncTime] in either run and a store that
    fails no call: both runs complete, the files and folders after the
    second run are those after the first, no listing names a file twice,
    and the second run creates no folder, writes no resource, removes
    nothing and leaves no failed call behind. *)
Theorem C9_idempotence env1 env2 w res :
  let s := assign_settings (data w) in
  let F := Settings.folderToSync s in
  let run1 := sync env1 w in
  let run2 := sync env2 (without_lastSyncTime (world run1)) in
  Settings.openAPI s ≠ "" →
  Settings.lastSyncTime s = None →
  fetchMemosWithResource env1 (Settings.openAPI s) = inr res →
  fetchMemosWithResource env2 (Settings.openAPI s) = inr res →
  (∀ c, fault env1 c = false) →
  (∀ c, fault env2 c = false) →
  result run1 = inr tt ∧ result run2 = inr tt ∧
  files (world run2) = files (world run1) ∧
  folders (world run2) = folders (world run1) ∧
  NoDup (list_files (world run2) (memosFolder F)) ∧
  NoDup (list_files (world run2) (resourcesFolder F)) ∧
  (∀ c, Called c ∈ events run2 →
        (∀ p, c ≠ CallCreateFolder p) ∧ (∀ p b, c ≠ CallWriteBinary p b)
        ∧ (∀ p, c ≠ CallRemove p)) ∧
  (∀ e, Unhandled e ∉ events run2).
Proof.
  intros s F run1 run2 Hkey Hlast Hfetch1 Hfetch2 Hnf1 Hnf2.
  assert (∀ c, awaited s c = true → fault env1 c = false) as Hok1 by auto.
  assert (∀ c, awaited s c = true → fault env2 c = false) as Hok2 by auto.
  pose proof (sync_completes env1 w res Hkey Hfetch1 Hok1) as Hrun1.
  fold s in Hrun1.
  set (final1 := after_resource_prune env1 s res
                   (with_folders s (set_settings s w))) in *.
  set (w2 := without_lastSyncTime (world run1)).
  assert (assign_settings (data w2) = s) as Hs.
  { unfold w2, run1. rewrite Hrun1. cbn [world].
    by apply assign_settings_without. }
  pose proof (sync_completes env2 w2 res) as Hrun2.
  cbv zeta in Hrun2. rewrite Hs in Hrun2.
  specialize (Hrun2 Hkey Hfetch2 Hok2).
  assert (converged env2 s res (set_settings s w2)) as Hc.
  { apply (converged_vault env2 s res final1).
    - unfold w2, run1. rewrite Hrun1. done.
    - by apply run_converges. }
  pose proof (again_after_resource_prune env2 s res _
                (eq_ind_r (converged env2 s res) Hc
                   (again_with_folders env2 s res _ Hc))) as [Hf Hd].
  assert (same_vault (set_settings s w2) (world run1)) as [Hf1 Hd1].
  { unfold w2, run1. rewrite Hrun1. done. }
  unfold run2. fold w2. rewrite Hrun2. cbn [result world events].
  split_and!.
  - unfold run1. by rewrite Hrun1.
  - done.
  - cbn [files set_data]. rewrite <- Hf1.
    by rewrite <- (again_with_folders env2 s res _ Hc) at 2.
  - cbn [folders set_data]. rewrite <- Hd1.
    by rewrite <- (again_with_folders env2 s res _ Hc) at 2.
  - apply NoDup_list_files.
  - apply NoDup_list_files.
  - intros c [H|H]%elem_of_app.
    + by apply (again_calls env2 s res _ Hc).
    + apply called_closing_events in H as ->. done.
  - intros e H. apply unhandled_run_events in H.
    destruct H as [(memo & _ & _ & H & _)|[(r & _ & H & _)|[(r & _ & _ & H & _)
                  |[(p & _ & _ & H & _)|(p & _ & _ & H & _)]]]];
      rewrite Hnf2 in H; discriminate H.
Qed.

Lemma C9_witness :
  files (world (sync sample_env
                  (without_lastSyncTime
                     (world (sync sample_env
                               (without_lastSyncTime seeded_world))))))
  = files (world (sync sample_env (without_lastSyncTime seeded_world))).
Proof.
  refine (proj1 (proj2 (proj2
            (C9_idempotence sample_env sample_env
               (without_lastSyncTime seeded_world) sample_snapshot
               _ _ _ _ _ _))));
    (discriminate || reflexivity).
Defined.

(** ** Failed calls on items *)

Section ItemFailures.
Context (env : Env) (s : Settings.t) (res : Snapshot) (w : World).

Local Abbreviation F := (Settings.folderToSync s).

(** The existence check of a resource sees the vault of the start. *)
Lemma path_exists_at_check r :
  path_exists (after_memos env s res (with_folders s w)) (resourcePath F r)
  = path_exists w (resourcePath F r).
Proof.
  unfold path_exists.
  rewrite after_memos_resourcePath, files_with_folders. f_equal.
  apply bool_decide_ext. cbn [folders after_memos set_files]. split.
  - intros [H|[H|H]]%folders_with_folders; [done|..].
    + by apply resourcePath_ne_memosFolder in H.
    + by apply resourcePath_ne_resourcesFolder in H.
  - apply folders_with_folders_mono.
Qed.

(** A failed call on an item is left as an unhandled rejection. *)
Lemma item_failure_unhandled c :
  (∀ c, awaited s c = true → fault env c = false) →
  item_call c = true → fault env c = true →
  Called c ∈ reconcile_events env s res w ++ closing_events env s res w →
  Unhandled (StoreError c)
    ∈ reconcile_events env s res w ++ closing_events env s res w.
Proof.
  intros Hok Hitem Hf [H|H]%elem_of_app.
  2:{ apply called_closing_events in H as ->. discriminate Hitem. }
  apply unhandled_run_events.
  apply called_reconcile_events in H.
  destruct H as [->|[[->|[E ->]]|[[->|[E ->]]|[(memo & Hin & Hs & ->)
         |[(r & _ & ->)|[->|[(r & Hin & E & ->)|[(p & Hp & Hn & ->)
         |[->|(p & Hp & Hn & ->)]]]]]]]]]; try discriminate Hitem.
  - left. eauto.
  - do 2 right. left. exists r. eauto.
  - do 3 right. left. eauto.
  - do 4 right. eauto.
Qed.

Lemma run_events_no_console e :
  ConsoleError e ∉ reconcile_events env s res w ++ closing_events env s res w.
Proof.
  destruct (closing_events_eq env s res w) as (l & -> & Hl).
  intros [H|[H|H]%elem_of_app]%elem_of_app.
  - by apply (quiet_not_console _ _ (quiet_reconcile_events env s res w)) in H.
  - rewrite !elem_of_cons, elem_of_nil in H.
    destruct H as [H|[H|[]]]; discriminate H.
  - by apply (quiet_not_console _ _ Hl) in H.
Qed.

Lemma run_events_no_failure d :
  Notice SyncFailed d
    ∉ reconcile_events env s res w ++ closing_events env s res w.
Proof.
  destruct (closing_events_eq env s res w) as (l & -> & Hl).
  intros [H|[H|H]%elem_of_app]%elem_of_app.
  - by apply (quiet_not_failed _ _ (quiet_reconcile_events env s res w)) in H.
  - rewrite !elem_of_cons, elem_of_nil in H.
    destruct H as [H|[H|[]]]; discriminate H.
  - by apply (quiet_not_failed _ _ Hl) in H.
Qed.

(** With the debug flag on, the message of a memo that is not skipped is
    shown, whether its write fails or not. *)
Lemma synced_memo_shown memo :
  Settings.debug s = true → memo ∈ memos res →
  skips (Settings.lastSyncTime s) (Memo.updatedTs memo) = false →
  Notice (SyncedMemo (Memo.id memo)) (Some 0) ∈ reconcile_events env s res w.
Proof.
  intros Hd Hin Hs. unfold reconcile_events.
  do 4 (apply elem_of_app; right). apply elem_of_app. left.
  apply elem_of_flat_map. exists memo. split; [done|].
  unfold memo_events, debug_events. rewrite Hs, Hd.
  apply list_elem_of_further, elem_of_app. right. apply list_elem_of_here.
Qed.
End ItemFailures.

(** C6: failed file operations on items.  In a run with a key and a
    snapshot in which no awaited call fails (the folder checks, the folder
    creations, the listings), a memo write, a resource write or the removal
    of an orphan that the store fails is neither caught nor logged: its
    rejection is left unhandled, the console shows no error and no failure
    notice appears (with the debug flag on, the message of the memo is
    shown all the same).  Every item is still processed: the write of every
    memo that is not skipped, the check of every resource and the write of
    every one that is missing, and the removal of every orphan are called.
    The run completes with the success notice and the checkpoint is
    stored. *)
Theorem C6_item_failures_left_unhandled env w res :
  let s := assign_settings (data w) in
  let F := Settings.folderToSync s in
  let run := sync env w in
  Settings.openAPI s ≠ "" →
  fetchMemosWithResource env (Settings.openAPI s) = inr res →
  (∀ c, awaited s c = true → fault env c = false) →
  (∀ c, item_call c = true → Called c ∈ events run → fault env c = true →
        Unhandled (StoreError c) ∈ events run) ∧
  (∀ e, ConsoleError e ∉ events run) ∧
  (∀ d, Notice SyncFailed d ∉ events run) ∧
  (Settings.debug s = true →
   ∀ memo, memo ∈ memos res →
     skips (Settings.lastSyncTime s) (Memo.updatedTs memo) = false →
     Notice (SyncedMemo (Memo.id memo)) (Some 0) ∈ events run) ∧
  (∀ memo, memo ∈ memos res →
     skips (Settings.lastSyncTime s) (Memo.updatedTs memo) = false →
     Called (CallWrite (memoPath F memo) (Memo.content memo)) ∈ events run) ∧
  (∀ r, r ∈ resources res →
     Called (CallExists (resourcePath F r)) ∈ events run) ∧
  (∀ r, r ∈ resources res →
     path_exists w (resourcePath F r) = false →
     fault env (CallExists (resourcePath F r)) = false →
     Called (CallWriteBinary (resourcePath F r) (Resource.content r))
       ∈ events run) ∧
  (∀ p, (p ∈ list_files w (memosFolder F) ∧ p ∉ memosInAPI s res)
        ∨ (p ∈ list_files w (resourcesFolder F) ∧ p ∉ resourcesInAPI s res) →
        Called (CallRemove p) ∈ events run) ∧
  result run = inr tt ∧
  Notice SyncSuccess None ∈ events run ∧
  data (world run) = Some (with_lastSyncTime s (now env)).
Proof.
  intros s F run Hkey Hfetch Hok.
  pose proof (sync_completes env w res Hkey Hfetch Hok) as Hrun.
  fold s in Hrun. unfold run. rewrite Hrun. cbn [result world events data set_data].
  set (w0 := set_settings s w).
  assert (∀ c, Called c ∈ reconcile_events env s res w0 →
               Called c ∈ reconcile_events env s res w0
                          ++ closing_events env s res w0) as Hcall.
  { intros c H. apply elem_of_app. by left. }
  split_and!; try done.
  - intros c Hitem Hin Hf. by apply item_failure_unhandled.
  - apply run_events_no_console.
  - apply run_events_no_failure.
  - intros Hd memo Hin Hs. apply elem_of_app. left.
    by apply synced_memo_shown.
  - intros memo Hin Hs. apply Hcall, called_reconcile_events.
    do 3 right. left. eauto.
  - intros r Hin. apply Hcall, called_reconcile_events.
    do 4 right. left. eauto.
  - intros r Hin Hex Hf. apply Hcall, called_reconcile_events.
    do 6 right. left. exists r. split_and!; [done| |done].
    subst F. unfold exists_promise. rewrite Hf.
    rewrite (path_exists_at_check env s res w0 r). by rewrite <- Hex.
  - intros p H. apply Hcall, called_reconcile_events.
    pose proof (memo_orphan env s res w0 p) as Hm.
    pose proof (resource_orphan env s res w0 p) as Hr.
    subst F. unfold list_files in *. cbn [files set_settings w0] in Hm, Hr.
    destruct H as [H|H]; [apply Hm in H|apply Hr in H]; destruct H as [H1 H2].
    + do 7 right. left. eauto.
    + do 9 right. eauto.
  - apply elem_of_app. right. by left.
Qed.

Lemma C6_witness :
  Unhandled (StoreError failing_write) ∈ events (sync failing_env sample_world).
Proof.
  refine (proj1 (C6_item_failures_left_unhandled failing_env sample_world
                   sample_snapshot _ _ _) failing_write _ _ _).
  - discriminate.
  - reflexivity.
  - intros c Hc. destruct c; try discriminate Hc; reflexivity.
  - reflexivity.
  - vm_compute. do 6 apply list_elem_of_further. apply list_elem_of_here.
  - reflexivity.
Defined.

(** C6 does not hold with a catch and a log at the item: the store fails
    the write of memo [a]; the write is
    called, its rejection is left unhandled, the console shows nothing, and
    so the run is not one in which the failure was caught and logged. *)
Lemma C6_counterexample :
  item_call failing_write = true ∧
  fault failing_env failing_write = true ∧
  Called failing_write ∈ events (sync failing_env sample_world) ∧
  Unhandled (StoreError failing_write) ∈ events (sync failing_env sample_world) ∧
  (ConsoleError (StoreError failing_write)
     ∉ events (sync failing_env sample_world)) ∧
  ¬ caught_and_logged failing_env (sync failing_env sample_world).
Proof.
  assert (Called failing_write ∈ events (sync failing_env sample_world)) as Hc.
  { vm_compute. do 6 apply list_elem_of_further. apply list_elem_of_here. }
  assert (Unhandled (StoreError failing_write)
            ∈ events (sync failing_env sample_world)) as Hu.
  { vm_compute. do 7 apply list_elem_of_further. apply list_elem_of_here. }
  split_and!; try done.
  - intros H. vm_compute in H.
    repeat (apply elem_of_cons in H as [H|H]; [discriminate H|]).
    by apply elem_of_nil in H.
  - intros H. destruct (H failing_write) as [Hn _]; done.
Qed.

(** * Further properties of the plugin *)

(** ** The notices of a run *)

Section Notices.
Context (env : Env) (s : Settings.t).

Lemma expected_debug_events m :
  debug_message m = true → Forall (expected_notice s) (debug_events s m).
Proof.
  intros Hm. unfold debug_events.
  destruct (Settings.debug s) eqn:Hd; repeat constructor.
  simpl. by rewrite Hm.
Qed.

Lemma expected_rejection_events c :
  Forall (expected_notice s) (rejection_events env c).
Proof. unfold rejection_events. destruct (fault env c); repeat constructor. Qed.

Lemma expected_memo_events memo :
  Forall (expected_notice s) (memo_events env s memo).
Proof.
  unfold memo_events. destruct (skips _ _).
  - by apply expected_debug_events.
  - constructor; [done|]. apply Forall_app. split.
    + apply expected_rejection_events.
    + by apply expected_debug_events.
Qed.

Lemma expected_resource_events pending :
  Forall (expected_notice s) (resource_events env s pending).
Proof.
  unfold resource_events. destruct pending as [r [e|[|]]]; simpl;
    repeat constructor.
  apply Forall_app. split.
  - apply expected_rejection_events.
  - by apply expected_debug_events.
Qed.

Lemma expected_prune_events inAPI p :
  Forall (expected_notice s) (prune_events inAPI p).
Proof. unfold prune_events. case_bool_decide; repeat constructor. Qed.

Lemma expected_prune_resume_events deleted pending :
  (∀ p, debug_message (deleted p) = true) →
  Forall (expected_notice s) (prune_resume_events s deleted pending).
Proof.
  intros Hd. destruct pending as [[p [e|[]]]|]; simpl; repeat constructor.
  by apply expected_debug_events.
Qed.

Lemma expected_ensure_events w dir m :
  debug_message m = true →
  Forall (expected_notice s) (ensure_events env s w dir m).
Proof.
  intros Hm. unfold ensure_events. constructor; [done|].
  destruct (path_exists w dir); repeat constructor.
  by apply expected_debug_events.
Qed.

Lemma expected_exists_events (f : Resource.t → string) rs :
  Forall (expected_notice s) ((λ r, Called (CallExists (f r))) <$> rs).
Proof. induction rs; constructor; done. Qed.

Lemma expected_reconcile_events res w :
  Forall (expected_notice s) (reconcile_events env s res w).
Proof.
  unfold reconcile_events.
  repeat first
    [ exact I
    | reflexivity
    | apply Forall_nil_2
    | apply expected_ensure_events
    | apply expected_debug_events
    | apply expected_prune_resume_events; intros ?
    | apply expected_memo_events
    | apply expected_resource_events
    | apply expected_prune_events
    | apply expected_exists_events
    | apply Forall_flat_map; intros ?
    | apply Forall_app; split
    | apply Forall_cons; split ].
Qed.

Lemma expected_closing_events res w :
  Forall (expected_notice s) (closing_events env s res w).
Proof.
  unfold closing_events.
  repeat first
    [ exact I
    | reflexivity
    | apply Forall_nil_2
    | apply expected_prune_resume_events; intros ?
    | apply Forall_flat_map; intros ?
    | apply Forall_app; split
    | apply Forall_cons; split ].
Qed.
End Notices.

Lemma Forall_prefix {A} (P : A → Prop) l k :
  l `prefix_of` k → Forall P k → Forall P l.
Proof. intros [k' ->] H. by apply Forall_app in H as [H _]. Qed.

(** The notices of any run are as [expected_notice] says. *)
Lemma expected_run_events env w :
  Forall (expected_notice (assign_settings (data w))) (events (sync env w)).
Proof.
  set (s := assign_settings (data w)).
  destruct (decide (Settings.openAPI s = "")) as [Hkey|Hkey].
  { rewrite (sync_no_key env w Hkey). repeat constructor. }
  destruct (fetchMemosWithResource env (Settings.openAPI s)) as [e|res] eqn:Hfetch.
  { rewrite (sync_fetch_failed env w e Hkey Hfetch). repeat constructor. }
  destruct (sync_with_snapshot env w res Hkey Hfetch)
    as [(c & e & l & _ & _ & Hl & _ & -> & _)| ->]; cbn [events].
  - apply Forall_app. split; [|repeat constructor].
    eapply Forall_prefix; [done|]. apply expected_reconcile_events.
  - apply Forall_app. split.
    + apply expected_reconcile_events.
    + apply expected_closing_events.
Qed.

Lemma notice_in_run env w m d :
  Notice m d ∈ events (sync env w) →
  if debug_message m
  then Settings.debug (assign_settings (data w)) = true ∧ d = Some 0
  else d = match m with SyncFailed => Some 0 | _ => None end.
Proof.
  intros H.
  by apply (proj1 (Forall_forall _ _) (expected_run_events env w)) in H.
Qed.

(** X1: the notices of a run.  In every run, a message of [debug] (the
    total, a created folder, a skipped, synced or deleted item) is shown
    only when the debug flag of the loaded settings is on, and then it
    stays until dismissed (duration [0]); of the messages of [log], the
    failure notice has duration [0] and the others (the start, the success,
    the missing key) have none. *)
Theorem X1_notices_of_a_run env w :
  let s := assign_settings (data w) in
  (∀ m d, Notice m d ∈ events (sync env w) → debug_message m = true →
          Settings.debug s = true ∧ d = Some 0) ∧
  (∀ d, Notice SyncFailed d ∈ events (sync env w) → d = Some 0) ∧
  (∀ m d, Notice m d ∈ events (sync env w) →
          m = PleaseEnterKey ∨ m = StartSyncing ∨ m = SyncSuccess → d = None).
Proof.
  intros s. split_and!.
  - intros m d H%notice_in_run Hm. by rewrite Hm in H.
  - by intros d H%notice_in_run.
  - intros m d H%notice_in_run [->|[->| ->]]; done.
Qed.

(** ** What lies outside the two folders *)

Lemma child_of_under dir p : child_of dir p = true → under dir p = true.
Proof.
  unfold child_of, under. destruct (strip_prefix _ p); [|done].
  intros _. apply bool_decide_eq_true. eauto.
Qed.

Lemma under_memoPath F memo : under (memosFolder F) (memoPath F memo) = true.
Proof.
  unfold under, memosFolder, memoPath. apply bool_decide_eq_true.
  replace (F +:+ "/memos/" +:+ Memo.id memo +:+ ".md")
    with (((F +:+ "/memos") +:+ "/") +:+ Memo.id memo +:+ ".md")
    by (by rewrite !string_app_assoc).
  rewrite strip_prefix_app. eauto.
Qed.

Lemma under_resourcePath F r :
  under (resourcesFolder F) (resourcePath F r) = true.
Proof.
  unfold under, resourcesFolder, resourcePath. apply bool_decide_eq_true.
  replace (F +:+ "/resources/" +:+ Resource.filename r)
    with (((F +:+ "/resources") +:+ "/") +:+ Resource.filename r)
    by (by rewrite !string_app_assoc).
  rewrite strip_prefix_app. eauto.
Qed.

Section Outside.
Context (env : Env) (s : Settings.t) (res : Snapshot) (w : World).

Local Abbreviation F := (Settings.folderToSync s).
Local Abbreviation mdir := (memosFolder (Settings.folderToSync s)).
Local Abbreviation rdir := (resourcesFolder (Settings.folderToSync s)).

(** A path below neither folder is the same file through every stage. *)
Lemma outside_kept p w' :
  under mdir p = false → under rdir p = false →
  w' = w ∨ w' = ensured w mdir
  ∨ w' = after_resources env s res (with_folders s w)
  ∨ w' = after_memo_prune env s res (with_folders s w)
  ∨ w' = set_data (Some (with_lastSyncTime s (now env)))
           (after_resource_prune env s res (with_folders s w)) →
  files w' !! p = files w !! p.
Proof.
  intros Hm Hr.
  assert (child_of mdir p = false) as Hcm.
  { apply not_true_is_false. intros H%child_of_under. congruence. }
  assert (child_of rdir p = false) as Hcr.
  { apply not_true_is_false. intros H%child_of_under. congruence. }
  assert (files (after_resources env s res (with_folders s w)) !! p
          = files w !! p) as H3.
  { rewrite after_resources_frame, after_memos_frame, files_with_folders.
    - done.
    - intros memo _ _ <-. by rewrite under_memoPath in Hm.
    - intros r _ <-. by rewrite under_resourcePath in Hr. }
  assert (files (after_memo_prune env s res (with_folders s w)) !! p
          = files w !! p) as H4.
  { rewrite after_memo_prune_frame; auto. }
  intros [->|[->|[->|[->| ->]]]]; try done.
  - by rewrite files_ensured.
  - cbn [files set_data]. rewrite after_resource_prune_frame; auto.
Qed.

(** The stages add the two folders and nothing else to the folders of the
    vault. *)
Lemma stage_folders p w' :
  w' = w ∨ w' = ensured w mdir
  ∨ w' = after_resources env s res (with_folders s w)
  ∨ w' = after_memo_prune env s res (with_folders s w)
  ∨ w' = set_data (Some (with_lastSyncTime s (now env)))
           (after_resource_prune env s res (with_folders s w)) →
  (p ∈ folders w → p ∈ folders w')
  ∧ (p ∈ folders w' → p ∈ folders w ∨ p = mdir ∨ p = rdir).
Proof.
  intros [->|[->|[->|[->| ->]]]];
    cbn [folders set_data after_resources after_memo_prune after_resource_prune
         after_memos set_files].
  - auto.
  - rewrite folders_ensured. split; [auto|]. intros [?|[? _]]; auto.
  - split; [apply folders_with_folders_mono|apply folders_with_folders].
  - split; [apply folders_with_folders_mono|apply folders_with_folders].
  - split; [apply folders_with_folders_mono|apply folders_with_folders].
Qed.
End Outside.

(** X2: a run stays inside its two folders.  Whatever the vault, the
    server and the store do, a run leaves every file that lies below
    neither [<folder>/memos] nor [<folder>/resources] as it was; it writes
    text only below the memos folder and bytes only below the resources
    folder, removes only files directly inside one of the two, creates no
    folder but the two, and removes no folder. *)
Theorem X2_run_stays_in_its_folders env w :
  let s := assign_settings (data w) in
  let F := Settings.folderToSync s in
  let run := sync env w in
  (∀ p, under (memosFolder F) p = false → under (resourcesFolder F) p = false →
        files (world run) !! p = files w !! p) ∧
  (∀ p t, Called (CallWrite p t) ∈ events run → under (memosFolder F) p = true) ∧
  (∀ p b, Called (CallWriteBinary p b) ∈ events run →
          under (resourcesFolder F) p = true) ∧
  (∀ p, Called (CallRemove p) ∈ events run →
        child_of (memosFolder F) p = true ∨ child_of (resourcesFolder F) p = true) ∧
  (∀ p, Called (CallCreateFolder p) ∈ events run →
        p = memosFolder F ∨ p = resourcesFolder F) ∧
  (∀ p, p ∈ folders w → p ∈ folders (world run)) ∧
  (∀ p, p ∈ folders (world run) →
        p ∈ folders w ∨ p = memosFolder F ∨ p = resourcesFolder F).
Proof.
  intros s F run. unfold run.
  destruct (decide (Settings.openAPI s = "")) as [Hkey|Hkey].
  { rewrite (sync_no_key env w Hkey). cbn [world events files folders set_settings].
    split_and!; try done; intros *; auto;
      intros H%list_elem_of_singleton; discriminate H. }
  destruct (fetchMemosWithResource env (Settings.openAPI s)) as [e|res] eqn:Hfetch.
  { rewrite (sync_fetch_failed env w e Hkey Hfetch).
    cbn [world events files folders set_settings].
    split_and!; try done; intros *; auto;
      rewrite !elem_of_cons, elem_of_nil;
      intros [H|[H|[H|[H|[]]]]]; discriminate H. }
  pose proof (sync_world env w res Hfetch) as Hw. cbv zeta in Hw. fold s in Hw.
  split_and!.
  - intros p Hm Hr.
    by rewrite (outside_kept env s res (set_settings s w) p _ Hm Hr Hw).
  - intros p t (memo & _ & _ & -> & _)%(write_in_sync env w res Hfetch).
    apply under_memoPath.
  - intros p b (r & _ & -> & _)%(writeBinary_in_sync env w res Hfetch).
    apply under_resourcePath.
  - intros p [[H _]|[H _]]%(remove_in_sync env w res Hfetch).
    + left. by apply memo_listing_child in H.
    + right. by apply resource_listing_child in H.
  - intros p [H|H]%(called_sync env w res Hfetch); [|discriminate H].
    apply called_reconcile_events in H.
    destruct H as [H|[[H|[_ H]]|[[H|[_ H]]|[(memo & _ & _ & H)|[(r & _ & H)
           |[H|[(r & _ & _ & H)|[(q & _ & _ & H)|[H|(q & _ & _ & H)]]]]]]]]];
      try discriminate H; injection H as ->; auto.
  - intros p. by apply (stage_folders env s res (set_settings s w) p _ Hw).
  - intros p. by apply (stage_folders env s res (set_settings s w) p _ Hw).
Qed.

(** ** Saving and loading the settings *)

Lemma assign_stored_settings s : assign_settings (Some (stored_settings s)) = s.
Proof. by destruct s. Qed.

Lemma saveSettings_eq w :
  saveSettings w =
  mkOut (inr tt) (set_data (Some (stored_settings (settings w))) w)
        [Called (CallSaveData (stored_settings (settings w)))].
Proof. reflexivity. Qed.

Lemma assign_and_save_eq update w :
  assign_and_save update w =
  mkOut (inr tt)
    (set_data (Some (stored_settings (update (settings w))))
       (set_settings (update (settings w)) w))
    [Called (CallSaveData (stored_settings (update (settings w))))].
Proof. reflexivity. Qed.

(** X3: saving and loading the settings is a round trip.  [saveSettings]
    followed by [loadSettings] gives back the settings that were in memory
    (a missing [lastSyncTime] stays missing), makes the one call that
    stores them and leaves the vault alone; and settings that were loaded
    from any stored object, with defaults for the keys it lacks, are loaded
    again unchanged once they have been saved. *)
Theorem X3_settings_round_trip w :
  let o := (saveSettings ;; loadSettings) w in
  let o' := (loadSettings ;; saveSettings ;; loadSettings) w in
  settings (world o) = settings w ∧
  data (world o) = Some (stored_settings (settings w)) ∧
  files (world o) = files w ∧ folders (world o) = folders w ∧
  events o = [Called (CallSaveData (stored_settings (settings w)))] ∧
  result o = inr tt ∧
  settings (world o') = assign_settings (data w) ∧
  assign_settings (data (world o')) = assign_settings (data w).
Proof.
  intros o o'. subst o o'. destruct w as [fl fo d st].
  unfold loadSettings, saveSettings, saveData, mbind, M_bind, modify, gets, emit.
  cbn [result world events prepend set_data set_settings data settings
       files folders app].
  split_and!; try done; apply assign_stored_settings.
Qed.

(** ** The settings tab and the next run *)

(** The [try] block starts with the start notice and the fetch. *)
Lemma sync_try_starts env s w :
  ∃ l, events (sync_try env s w)
       = Notice StartSyncing None :: Called (CallFetch (Settings.openAPI s)) :: l.
Proof.
  change (wp (sync_try env s) w
            (λ o, ∃ l, events o = Notice StartSyncing None
                         :: Called (CallFetch (Settings.openAPI s)) :: l)).
  unfold sync_try, fetch.
  apply wp_bind, wp_emit. cbn [result world events].
  apply wp_bind, wp_bind, wp_emit. cbn [result world events].
  apply wp_await. cbn [result world events].
  destruct (fetchMemosWithResource env (Settings.openAPI s)) as [e|res].
  - cbn [prepend result world events app]. eauto.
  - unfold wp. cbn [prepend result world events app]. eauto.
Qed.

Lemma sync_starts env w :
  Settings.openAPI (assign_settings (data w)) ≠ "" →
  ∃ l, events (sync env w)
       = Notice StartSyncing None
         :: Called (CallFetch (Settings.openAPI (assign_settings (data w)))) :: l.
Proof.
  intros Hkey. rewrite (sync_with_key env w Hkey).
  destruct (sync_try_starts env (assign_settings (data w))
              (set_settings (assign_settings (data w)) w)) as [l Hl].
  destruct (result _); cbn [events]; rewrite Hl; cbn [app]; eauto.
Qed.

(** Every fetch of a run is made with the key of the loaded settings. *)
Lemma fetch_in_sync env w k :
  Called (CallFetch k) ∈ events (sync env w) →
  k = Settings.openAPI (assign_settings (data w)).
Proof.
  set (s := assign_settings (data w)).
  destruct (decide (Settings.openAPI s = "")) as [Hkey|Hkey].
  { rewrite (sync_no_key env w Hkey). cbn [events].
    intros H%list_elem_of_singleton. discriminate H. }
  destruct (fetchMemosWithResource env (Settings.openAPI s)) as [e|res] eqn:Hfetch.
  { rewrite (sync_fetch_failed env w e Hkey Hfetch). cbn [events].
    rewrite !elem_of_cons, elem_of_nil.
    intros [H|[H|[H|[H|[]]]]]; try discriminate H. by injection H. }
  intros [H|H]%(called_sync env w res Hfetch); [|discriminate H].
  apply called_reconcile_events in H.
  destruct H as [H|[[H|[_ H]]|[[H|[_ H]]|[(memo & _ & _ & H)|[(r & _ & H)
         |[H|[(r & _ & _ & H)|[(q & _ & _ & H)|[H|(q & _ & _ & H)]]]]]]]]];
    try discriminate H.
  by injection H.
Qed.

(** X4: the key field and the next run.  The handler of the OpenAPI field
    writes the key on the console in clear, stores it with the folder, the
    debug flag and the [lastSyncTime] that are in memory, and leaves the
    vault alone.  The run that follows asks for a key and does nothing else
    when the field was emptied; otherwise it starts with the fetch, and
    every fetch it makes carries the new key. *)
Theorem X4_key_change_then_run env value w :
  let tab := onChange_openAPI value w in
  let run := sync env tab.2 in
  tab.1 = [ConsoleLog ("Secret: " +:+ value);
           Plugin (Called (CallSaveData
                     (stored_settings (update_openAPI value (settings w)))))] ∧
  data tab.2 = Some (stored_settings (update_openAPI value (settings w))) ∧
  files tab.2 = files w ∧ folders tab.2 = folders w ∧
  (value = "" → events run = [Notice PleaseEnterKey None]) ∧
  (value ≠ "" →
   ∃ l, events run = Notice StartSyncing None :: Called (CallFetch value) :: l) ∧
  (∀ k, Called (CallFetch k) ∈ events run → k = value).
Proof.
  intros tab run. subst tab run. unfold onChange_openAPI.
  rewrite assign_and_save_eq. cbn [fst snd world events fmap list_fmap].
  set (w' := set_data _ _).
  assert (assign_settings (data w') = update_openAPI value (settings w)) as Hs.
  { apply assign_stored_settings. }
  split_and!; try done.
  - intros ->. by rewrite (sync_no_key env w') by (by rewrite Hs).
  - intros Hv. destruct (sync_starts env w') as [l Hl]; [by rewrite Hs|].
    rewrite Hs in Hl. eauto.
  - intros k Hk%fetch_in_sync. by rewrite Hs in Hk.
Qed.

(** A run leaves every file below neither folder as it was. *)
Lemma sync_outside env w p :
  let F := Settings.folderToSync (assign_settings (data w)) in
  under (memosFolder F) p = false → under (resourcesFolder F) p = false →
  files (world (sync env w)) !! p = files w !! p.
Proof.
  intros F Hm Hr. set (s := assign_settings (data w)).
  destruct (decide (Settings.openAPI s = "")) as [Hkey|Hkey].
  { by rewrite (sync_no_key env w Hkey). }
  destruct (fetchMemosWithResource env (Settings.openAPI s)) as [e|res] eqn:Hfetch.
  { by rewrite (sync_fetch_failed env w e Hkey Hfetch). }
  pose proof (sync_world env w res Hfetch) as Hw. cbv zeta in Hw. fold s in Hw.
  by rewrite (outside_kept env s res (set_settings s w) p _ Hm Hr Hw).
Qed.

(** X5: the folder field.  The handler refuses the empty name: it shows
    its notice, saves nothing and changes nothing, so a folder name that is
    not empty never becomes empty through the tab.  Any other name is
    stored with the rest of the settings in memory, the vault is left
    alone, and the run that follows works below the new folder only: every
    file that lies below neither [<name>/memos] nor [<name>/resources], so
    what an earlier run put below another folder too, is left as it
    was. *)
Theorem X5_folder_change_then_run env value w :
  let tab := onChange_folderToSync value w in
  (value = "" → tab = ([TabNotice "Please enter the folder name."], w)) ∧
  (Settings.folderToSync (settings w) ≠ "" →
   Settings.folderToSync (settings tab.2) ≠ "") ∧
  (value ≠ "" →
   tab.1 = [Plugin (Called (CallSaveData
              (stored_settings (update_folderToSync value (settings w)))))] ∧
   data tab.2 = Some (stored_settings (update_folderToSync value (settings w))) ∧
   files tab.2 = files w ∧ folders tab.2 = folders w ∧
   Settings.folderToSync (assign_settings (data tab.2)) = value ∧
   ∀ p, under (memosFolder value) p = false →
        under (resourcesFolder value) p = false →
        files (world (sync env tab.2)) !! p = files w !! p).
Proof.
  intros tab. subst tab. unfold onChange_folderToSync.
  case_bool_decide as Hv.
  { split_and!; try done. }
  rewrite assign_and_save_eq. cbn [fst snd world events fmap list_fmap].
  set (w' := set_data _ _).
  assert (assign_settings (data w') = update_folderToSync value (settings w))
    as Hs by apply assign_stored_settings.
  split_and!; try done.
  intros _. split_and!; try done.
  intros p Hm Hr. rewrite sync_outside; [done|by rewrite Hs..].
Qed.

(** ** The checkpoint and the settings in memory *)

Lemma settings_with_folders s w : settings (with_folders s w) = settings w.
Proof. unfold with_folders. by rewrite !settings_ensured. Qed.

(** A run that goes through leaves in memory the settings it loaded. *)
Lemma settings_after_run env w res :
  let s := assign_settings (data w) in
  Settings.openAPI s ≠ "" →
  fetchMemosWithResource env (Settings.openAPI s) = inr res →
  (∀ c, awaited s c = true → fault env c = false) →
  settings (world (sync env w)) = s
  ∧ data (world (sync env w)) = Some (with_lastSyncTime s (now env)).
Proof.
  intros s Hkey Hfetch Hok.
  rewrite (sync_completes env w res Hkey Hfetch Hok).
  cbn [world settings data set_data after_resource_prune after_memo_prune
       after_resources after_memos set_files].
  by rewrite settings_with_folders.
Qed.

(** X6: a change in the settings tab takes the checkpoint back.  A run
    that goes through stores [lastSyncTime] as its clock, but the settings
    in memory keep the [lastSyncTime] that was loaded when the run began.
    So after such a run, each handler of the tab (the debug toggle, the key
    field, the folder field with a name that is not empty) stores the
    settings with the checkpoint of before the run, or with none when there
    was none, and the next [loadSettings] reads that one. *)
Theorem X6_settings_change_restores_checkpoint env w res :
  let s := assign_settings (data w) in
  let w1 := world (sync env w) in
  Settings.openAPI s ≠ "" →
  fetchMemosWithResource env (Settings.openAPI s) = inr res →
  (∀ c, awaited s c = true → fault env c = false) →
  Settings.lastSyncTime (assign_settings (data w1)) = Some (now env) ∧
  (∀ b, Settings.lastSyncTime (assign_settings (data (onChange_debug b w1).2))
        = Settings.lastSyncTime s) ∧
  (∀ v, Settings.lastSyncTime (assign_settings (data (onChange_openAPI v w1).2))
        = Settings.lastSyncTime s) ∧
  (∀ v, v ≠ "" →
        Settings.lastSyncTime
          (assign_settings (data (onChange_folderToSync v w1).2))
        = Settings.lastSyncTime s).
Proof.
  intros s w1 Hkey Hfetch Hok.
  destruct (settings_after_run env w res Hkey Hfetch Hok) as [Hs Hd].
  fold s w1 in Hs, Hd.
  split_and!.
  - by rewrite Hd.
  - intros b. unfold onChange_debug. rewrite assign_and_save_eq.
    cbn [snd world data set_data]. by rewrite assign_stored_settings, Hs.
  - intros v. unfold onChange_openAPI. rewrite assign_and_save_eq.
    cbn [snd world data set_data]. by rewrite assign_stored_settings, Hs.
  - intros v Hv. unfold onChange_folderToSync. rewrite bool_decide_false by done.
    rewrite assign_and_save_eq.
    cbn [snd world data set_data]. by rewrite assign_stored_settings, Hs.
Qed.

Lemma X6_witness :
  Settings.lastSyncTime
    (assign_settings (data (onChange_debug true
                              (world (sync sample_env sample_world))).2))
  = None.
Proof.
  refine (proj1 (proj2 (X6_settings_change_restores_checkpoint sample_env
                          sample_world sample_snapshot _ _ _)) true).
  - discriminate.
  - reflexivity.
  - intros c _. reflexivity.
Defined.

(** ** The last item on a path *)

Section Last.
Context (env : Env) (s : Settings.t).

Local Abbreviation F := (Settings.folderToSync s).

Lemma memos_files_last l1 memo l2 f :
  memo_written env s memo = true →
  (∀ memo', memo' ∈ l2 → memo_written env s memo' = true →
            memoPath F memo' ≠ memoPath F memo) →
  memos_files env s (l1 ++ memo :: l2) f !! memoPath F memo
  = Some (Text (Memo.content memo)).
Proof.
  intros Hw Hl2. unfold memos_files. rewrite foldl_app.
  change (memos_files env s (memo :: l2) (memos_files env s l1 f)
            !! memoPath F memo = Some (Text (Memo.content memo))).
  rewrite memos_files_cons, Hw, memos_files_frame by done.
  by rewrite lookup_insert_eq.
Qed.

Lemma resources_files_last l1 pending l2 f :
  resource_written env s pending = true →
  (∀ pending', pending' ∈ l2 → resource_written env s pending' = true →
               resourcePath F pending'.1 ≠ resourcePath F pending.1) →
  resources_files env s (l1 ++ pending :: l2) f !! resourcePath F pending.1
  = Some (Binary (Resource.content pending.1)).
Proof.
  intros Hw Hl2. unfold resources_files. rewrite foldl_app.
  change (resources_files env s l2
            (if resource_written env s pending
             then <[resourcePath F pending.1
                    := Binary (Resource.content pending.1)]>
                    (resources_files env s l1 f)
             else resources_files env s l1 f)
            !! resourcePath F pending.1
          = Some (Binary (Resource.content pending.1))).
  rewrite Hw, resources_files_frame by done.
  by rewrite lookup_insert_eq.
Qed.
End Last.

(** X7: a missing resource is written with its bytes.  In a run that goes
    through, a resource of the snapshot with nothing at its path before the
    run, whose check and whose write the store does not fail, and which is
    the last resource of the snapshot with its file name, ends up as a file
    that holds the bytes of the snapshot. *)
Theorem X7_missing_resource_written env w res l1 r l2 :
  let s := assign_settings (data w) in
  let F := Settings.folderToSync s in
  Settings.openAPI s ≠ "" →
  fetchMemosWithResource env (Settings.openAPI s) = inr res →
  (∀ c, awaited s c = true → fault env c = false) →
  resources res = l1 ++ r :: l2 →
  (∀ r', r' ∈ l2 → Resource.filename r' ≠ Resource.filename r) →
  path_exists w (resourcePath F r) = false →
  fault env (CallExists (resourcePath F r)) = false →
  fault env (CallWriteBinary (resourcePath F r) (Resource.content r)) = false →
  files (world (sync env w)) !! resourcePath F r
  = Some (Binary (Resource.content r)).
Proof.
  intros s F Hkey Hfetch Hok Hres Hl2 Hex Hfe Hfw. subst F.
  rewrite (sync_completes env w res Hkey Hfetch Hok).
  cbn [world files set_data]. fold s.
  set (w0 := set_settings s w).
  assert (r ∈ resources res) as Hin.
  { rewrite Hres. apply elem_of_app. right. by left. }
  rewrite (final_resourcePath env s res w0 r Hin).
  unfold after_resources, pending_resources. cbn [files set_files].
  rewrite Hres, fmap_app, fmap_cons.
  apply (resources_files_last env s _
           (resource_pending env s (after_memos env s res (with_folders s w0)) r)).
  - unfold resource_written, resource_pending, exists_promise. cbn [fst snd].
    rewrite Hfe, Hfw.
    rewrite (path_exists_at_check env s res w0 r).
    change (path_exists w0 (resourcePath (Settings.folderToSync s) r))
      with (path_exists w (resourcePath (Settings.folderToSync s) r)).
    by rewrite Hex.
  - intros pending' (r' & -> & Hr')%list_elem_of_fmap _ Hp.
    apply resourcePath_inj in Hp. by apply Hl2 in Hr'.
Qed.

Lemma X7_witness :
  files (world (sync sample_env sample_world)) !! "Memos Sync/resources/img.png"
  = Some (Binary [Byte.x89; Byte.x50; Byte.x4e; Byte.x47]).
Proof.
  refine (X7_missing_resource_written sample_env sample_world sample_snapshot
            [] (Resource.mk "img.png" [Byte.x89; Byte.x50; Byte.x4e; Byte.x47]) []
            _ _ _ _ _ _ _ _).
  - discriminate.
  - reflexivity.
  - intros c _. reflexivity.
  - reflexivity.
  - intros r' H. by apply elem_of_nil in H.
  - reflexivity.
  - reflexivity.
  - reflexivity.
Defined.

(** X8: of the memos with one id the last one written wins.  In a run
    that goes through, a memo of the snapshot that is not skipped, whose
    write the store does not fail, and after which the snapshot has no memo
    with the same id, ends up as the content of its file, whatever the
    memos before it hold and whether the ids of the snapshot are distinct
    or not. *)
Theorem X8_last_memo_of_an_id_wins env w res l1 memo l2 :
  let s := assign_settings (data w) in
  let F := Settings.folderToSync s in
  Settings.openAPI s ≠ "" →
  fetchMemosWithResource env (Settings.openAPI s) = inr res →
  (∀ c, awaited s c = true → fault env c = false) →
  memos res = l1 ++ memo :: l2 →
  (∀ memo', memo' ∈ l2 → Memo.id memo' ≠ Memo.id memo) →
  skips (Settings.lastSyncTime s) (Memo.updatedTs memo) = false →
  fault env (CallWrite (memoPath F memo) (Memo.content memo)) = false →
  files (world (sync env w)) !! memoPath F memo = Some (Text (Memo.content memo)).
Proof.
  intros s F Hkey Hfetch Hok Hres Hl2 Hskip Hf. subst F.
  rewrite (sync_completes env w res Hkey Hfetch Hok).
  cbn [world files set_data]. fold s.
  set (w0 := set_settings s w).
  assert (memo ∈ memos res) as Hin.
  { rewrite Hres. apply elem_of_app. right. by left. }
  rewrite (final_memoPath env s res w0 memo Hin), Hres.
  apply memos_files_last.
  - unfold memo_written. by rewrite Hskip, Hf.
  - intros memo' Hin' _ Hp. apply memoPath_inj in Hp. by apply Hl2 in Hin'.
Qed.

Lemma X8_witness :
  files (world (sync
                  (mkEnv (λ _, inr (mkSnapshot [Memo.mk "a" "first" 1;
                                                Memo.mk "a" "second" 2] []))
                         1700000000000 (λ _, false))
                  sample_world)) !! "Memos Sync/memos/a.md"
  = Some (Text "second").
Proof.
  refine (X8_last_memo_of_an_id_wins _ sample_world
            (mkSnapshot [Memo.mk "a" "first" 1; Memo.mk "a" "second" 2] [])
            [Memo.mk "a" "first" 1] (Memo.mk "a" "second" 2) []
            _ _ _ _ _ _ _).
  - discriminate.
  - reflexivity.
  - intros c _. reflexivity.
  - reflexivity.
  - intros memo' H. by apply elem_of_nil in H.
  - reflexivity.
  - reflexivity.
Defined.

(** ** A failed write and the next run *)

Lemma assign_with_lastSyncTime s t :
  assign_settings (Some (with_lastSyncTime s t))
  = Settings.mk (Settings.openAPI s) (Settings.folderToSync s)
                (Settings.debug s) (Some t).
Proof. reflexivity. Qed.

(** X9: a failed memo write is not tried again.  The ids of the snapshot
    are distinct, the clock of the first run is not [0], and the memo is
    older than that clock: [updatedTs * 1000 < now] as the code computes
    it.  When the store fails the write of the memo, the run still goes
    through and shows the success notice, and the file of the memo is as it
    was; with a store of the plugin data that works, the checkpoint that is
    loaded next is the clock of the run.  In the next run on the same
    snapshot the memo is skipped: whatever the store does then, no write is
    called on its file, and the file is still as it was before the first
    run. *)
Theorem X9_failed_write_not_retried env1 env2 w res memo :
  let s := assign_settings (data w) in
  let F := Settings.folderToSync s in
  let run1 := sync env1 w in
  let run2 := sync env2 (world run1) in
  Settings.openAPI s ≠ "" →
  fetchMemosWithResource env1 (Settings.openAPI s) = inr res →
  fetchMemosWithResource env2 (Settings.openAPI s) = inr res →
  (∀ c, awaited s c = true → fault env1 c = false) →
  NoDup (Memo.id <$> memos res) →
  memo ∈ memos res →
  fault env1 (CallWrite (memoPath F memo) (Memo.content memo)) = true →
  now env1 ≠ 0 →
  times1000 (Memo.updatedTs memo) < now env1 →
  Notice SyncSuccess None ∈ events run1 ∧
  Settings.lastSyncTime (assign_settings (data (world run1))) = Some (now env1) ∧
  files (world run1) !! memoPath F memo = files w !! memoPath F memo ∧
  (∀ t, Called (CallWrite (memoPath F memo) t) ∉ events run2) ∧
  files (world run2) !! memoPath F memo = files w !! memoPath F memo.
Proof.
  intros s F run1 run2 Hkey Hfetch1 Hfetch2 Hok Hnd Hmemo Hfault Hnow Hold.
  subst F.
  assert (∀ memo', memo' ∈ memos res →
            memoPath (Settings.folderToSync s) memo'
            = memoPath (Settings.folderToSync s) memo → memo' = memo) as Huniq.
  { intros memo' Hin Hp. apply memoPath_inj in Hp.
    by apply (NoDup_fmap_eq Memo.id (memos res)). }
  pose proof (sync_completes env1 w res Hkey Hfetch1 Hok) as Hrun1.
  fold s run1 in Hrun1.
  assert (files (world run1) !! memoPath (Settings.folderToSync s) memo
          = files w !! memoPath (Settings.folderToSync s) memo) as Hkept1.
  { apply (memo_kept env1 s res (set_settings s w) memo); [done| |].
    - intros memo' Hin Hp. apply Huniq in Hp as ->; [|done].
      unfold memo_written. rewrite Hfault. by rewrite andb_false_r.
    - rewrite Hrun1. auto. }
  set (s2 := assign_settings (data (world run1))).
  assert (s2 = Settings.mk (Settings.openAPI s) (Settings.folderToSync s)
                 (Settings.debug s) (Some (now env1))) as Hs2.
  { unfold s2. rewrite Hrun1. apply assign_with_lastSyncTime. }
  assert (fetchMemosWithResource env2 (Settings.openAPI s2) = inr res) as Hf2.
  { by rewrite Hs2. }
  assert (skips (Settings.lastSyncTime s2) (Memo.updatedTs memo) = true) as Hskip.
  { rewrite Hs2. unfold skips, truthy. cbn [Settings.lastSyncTime].
    apply andb_true_iff. split.
    - apply negb_true_iff. by apply Z.eqb_neq.
    - by apply Z.ltb_lt. }
  assert (Settings.folderToSync s2 = Settings.folderToSync s) as HF.
  { by rewrite Hs2. }
  split_and!.
  - rewrite Hrun1. cbn [events]. apply elem_of_app. right. by left.
  - fold s2. by rewrite Hs2.
  - done.
  - intros t H. apply (write_in_sync env2 (world run1) res Hf2) in H
      as (memo' & Hin & Hns & Hp & _).
    fold s2 in Hns, Hp. rewrite HF in Hp.
    symmetry in Hp. apply Huniq in Hp as ->; [|done]. congruence.
  - rewrite <- Hkept1. unfold run2.
    pose proof (memo_kept env2 s2 res (set_settings s2 (world run1)) memo
                  (world (sync env2 (world run1))) Hmemo) as Hk.
    rewrite HF in Hk. apply Hk.
    + intros memo' Hin Hp. apply Huniq in Hp as ->; [|done].
      unfold memo_written. by rewrite Hskip.
    + rewrite <- HF. by apply sync_world.
Qed.

Lemma X9_witness :
  files (world (sync sample_env (world (sync failing_env sample_world))))
    !! "Memos Sync/memos/a.md"
  = None.
Proof.
  refine (proj2 (proj2 (proj2 (proj2
            (X9_failed_write_not_retried failing_env sample_env sample_world
               sample_snapshot (Memo.mk "a" "hello" 1000)
               _ _ _ _ _ _ _ _ _))))).
  - discriminate.
  - reflexivity.
  - reflexivity.
  - intros c Hc. destruct c; try discriminate Hc; reflexivity.
  - apply NoDup_singleton.
  - apply list_elem_of_here.
  - reflexivity.
  - discriminate.
  - reflexivity.
Defined.

(** ** A listing that fails *)

Section ListFails.
Context (env : Env) (s : Settings.t) (res : Snapshot).

Local Abbreviation F := (Settings.folderToSync s).
Local Abbreviation mdir := (memosFolder (Settings.folderToSync s)).
Local Abbreviation rdir := (resourcesFolder (Settings.folderToSync s)).

Hypothesis Hfetch : fetchMemosWithResource env (Settings.openAPI s) = inr res.
Hypothesis Hfolders :
  ∀ dir, dir = mdir ∨ dir = rdir →
         fault env (CallExists dir) = false
         ∧ fault env (CallCreateFolder dir) = false.
Hypothesis Hlist : fault env (CallList mdir) = true.

Lemma sync_try_list_fails w :
  sync_try env s w =
  mkOut (inl (StoreError (CallList mdir)))
        (after_resources env s res (with_folders s w))
        (writing_events env s res w).
Proof.
  apply wp_out. unfold sync_try, fetch. rewrite Hfetch.
  wp_run.
  apply wp_ensure.
  { intros c l Hc [-> | ->] _; destruct (Hfolders mdir) as [? ?]; auto;
      congruence. }
  apply wp_ensure.
  { intros c l Hc [-> | ->] _; destruct (Hfolders rdir) as [? ?]; auto;
      congruence. }
  wp_run. eapply wp_eq; [apply forEach_memoCallback|]. wp_run.
  eapply wp_eq; [apply mapM_resourceCallback_start|]. wp_run.
  2:{ congruence. }
  eapply wp_eq; [apply forEach_resourceCallback_resume|]. wp_run.
  unfold writing_events, prepend. cbn [result world events].
  f_equal. repeat (progress cbn [app] || rewrite <- app_assoc || rewrite app_nil_r).
  reflexivity.
Qed.

Lemma called_writing_events w c :
  Called c ∈ writing_events env s res w → ∀ p, c ≠ CallRemove p.
Proof.
  unfold writing_events.
  rewrite !elem_of_app, !elem_of_cons, !elem_of_nil, !elem_of_flat_map,
    !list_elem_of_fmap, called_debug_events, !called_ensure_events.
  setoid_rewrite called_memo_events.
  setoid_rewrite called_resource_events.
  intros H p ->.
  destruct H as [[H|[H|[]]]|[[]|[[H|[_ H]]|[[H|[_ H]]|[(memo & _ & _ & H)
         |[(r & H & _)|[[H|[]]|(pending & _ & _ & H)]]]]]]];
    discriminate H.
Qed.
End ListFails.

Lemma quiet_writing_events env s res w :
  Forall quiet (writing_events env s res w).
Proof. unfold writing_events. quiet. Qed.

(** X10: a failed listing keeps the writes.  When the store fails the
    listing of the memos folder (and not the checks and creations of the
    two folders), the run has by then written the memos and the resources:
    the vault keeps these writes, nothing is removed and no file of before
    the run is gone, the failure notice and the error of the listing on the
    console end the run, no success notice appears and the stored settings,
    so the checkpoint, are the ones of before.  A memo that is the last of
    its id, is not skipped and whose write the store does not fail is in
    its file although the run has failed. *)
Theorem X10_failed_listing_keeps_the_writes env w res :
  let s := assign_settings (data w) in
  let F := Settings.folderToSync s in
  let run := sync env w in
  Settings.openAPI s ≠ "" →
  fetchMemosWithResource env (Settings.openAPI s) = inr res →
  (∀ dir, dir = memosFolder F ∨ dir = resourcesFolder F →
          fault env (CallExists dir) = false
          ∧ fault env (CallCreateFolder dir) = false) →
  fault env (CallList (memosFolder F)) = true →
  events run =
    writing_events env s res (set_settings s w)
    ++ [Notice SyncFailed (Some 0);
        ConsoleError (StoreError (CallList (memosFolder F)))] ∧
  data (world run) = data w ∧
  (∀ p, Called (CallRemove p) ∉ events run) ∧
  (∀ d, Notice SyncSuccess d ∉ events run) ∧
  (∀ p, is_Some (files w !! p) → is_Some (files (world run) !! p)) ∧
  (∀ l1 memo l2,
     memos res = l1 ++ memo :: l2 →
     (∀ memo', memo' ∈ l2 → Memo.id memo' ≠ Memo.id memo) →
     skips (Settings.lastSyncTime s) (Memo.updatedTs memo) = false →
     fault env (CallWrite (memoPath F memo) (Memo.content memo)) = false →
     files (world run) !! memoPath F memo = Some (Text (Memo.content memo))).
Proof.
  intros s F run Hkey Hfetch Hfolders Hlist. subst F run.
  rewrite (sync_with_key env w Hkey). fold s.
  rewrite (sync_try_list_fails env s res Hfetch Hfolders Hlist).
  cbn [result world events].
  set (w0 := set_settings s w).
  split_and!.
  - done.
  - cbn [data after_resources after_memos set_files].
    by rewrite data_with_folders.
  - intros p [H|H]%elem_of_app.
    + by apply called_writing_events with (p := p) in H.
    + rewrite !elem_of_cons, elem_of_nil in H.
      destruct H as [H|[H|[]]]; discriminate H.
  - intros d [H|H]%elem_of_app.
    + by apply (quiet_not_success _ _ (quiet_writing_events env s res w0)) in H.
    + rewrite !elem_of_cons, elem_of_nil in H.
      destruct H as [H|[H|[]]]; discriminate H.
  - intros p Hp. by apply (after_resources_mono env s res w0).
  - intros l1 memo l2 Hres Hl2 Hskip Hf.
    rewrite after_resources_memoPath. cbn [files after_memos set_files].
    rewrite Hres. apply memos_files_last.
    + unfold memo_written. by rewrite Hskip, Hf.
    + intros memo' Hin' _ Hp. apply memoPath_inj in Hp. by apply Hl2 in Hin'.
Qed.

Lemma X10_witness :
  files (world (sync
                  (mkEnv sample_fetch 1700000000000
                     (λ c, match c with
                           | CallList "Memos Sync/memos" => true
                           | _ => false
                           end))
                  sample_world)) !! "Memos Sync/memos/a.md"
  = Some (Text "hello").
Proof.
  refine (proj2 (proj2 (proj2 (proj2 (proj2
            (X10_failed_listing_keeps_the_writes _ sample_world
               sample_snapshot _ _ _ _)))))
            [] (Memo.mk "a" "hello" 1000) [] _ _ _ _).
  - discriminate.
  - reflexivity.
  - intros dir [-> | ->]; split; reflexivity.
  - reflexivity.
  - reflexivity.
  - intros memo' H. by apply elem_of_nil in H.
  - reflexivity.
  - reflexivity.
Defined.

(** ** The debug toggle and the two folders *)

(** X11: the debug toggle and the next run.  The handler of the toggle
    stores the flag with the rest of the settings in memory and leaves the
    vault alone; the run that follows shows a message of [debug] only when
    the flag was switched on, so with the flag off its notices are the
    start and one of the success, the failure and the missing key. *)
Theorem X11_debug_toggle_then_run env value w :
  let tab := onChange_debug value w in
  let run := sync env tab.2 in
  tab.1 = [Plugin (Called (CallSaveData
             (stored_settings (update_debug value (settings w)))))] ∧
  data tab.2 = Some (stored_settings (update_debug value (settings w))) ∧
  files tab.2 = files w ∧ folders tab.2 = folders w ∧
  (∀ m d, Notice m d ∈ events run → debug_message m = true → value = true) ∧
  (value = false →
   ∀ m d, Notice m d ∈ events run →
          m = StartSyncing ∨ m = SyncSuccess ∨ m = SyncFailed ∨ m = PleaseEnterKey).
Proof.
  intros tab run. subst tab run. unfold onChange_debug.
  rewrite assign_and_save_eq. cbn [fst snd world events fmap list_fmap].
  set (w' := set_data _ _).
  assert (assign_settings (data w') = update_debug value (settings w)) as Hs
    by apply assign_stored_settings.
  assert (∀ m d, Notice m d ∈ events (sync env w') → debug_message m = true →
                 value = true) as Hdebug.
  { intros m d H%notice_in_run Hm. rewrite Hm, Hs in H. by destruct H. }
  split_and!; try done.
  intros -> m d H. specialize (Hdebug m d H).
  destruct m; auto; by specialize (Hdebug eq_refl).
Qed.

(** X12: the two folders.  In every run a folder is created only where
    nothing stood before the run, so no creation is asked for a path that
    is taken; and after a run that goes through both [<folder>/memos] and
    [<folder>/resources] are there. *)
Theorem X12_folders_created_when_missing env w :
  let s := assign_settings (data w) in
  let F := Settings.folderToSync s in
  let run := sync env w in
  (∀ p, Called (CallCreateFolder p) ∈ events run → path_exists w p = false) ∧
  (∀ res, Settings.openAPI s ≠ "" →
          fetchMemosWithResource env (Settings.openAPI s) = inr res →
          (∀ c, awaited s c = true → fault env c = false) →
          path_exists (world run) (memosFolder F) = true
          ∧ path_exists (world run) (resourcesFolder F) = true).
Proof.
  intros s F run. subst F run. split.
  - intros p.
    destruct (decide (Settings.openAPI s = "")) as [Hkey|Hkey].
    { rewrite (sync_no_key env w Hkey). cbn [events].
      intros H%list_elem_of_singleton. discriminate H. }
    destruct (fetchMemosWithResource env (Settings.openAPI s))
      as [e|res] eqn:Hfetch.
    { rewrite (sync_fetch_failed env w e Hkey Hfetch). cbn [events].
      rewrite !elem_of_cons, elem_of_nil.
      intros [H|[H|[H|[H|[]]]]]; discriminate H. }
    intros [H|H]%(called_sync env w res Hfetch); [|discriminate H].
    apply called_reconcile_events in H.
    destruct H as [H|[[H|[E H]]|[[H|[E H]]|[(memo & _ & _ & H)|[(r & _ & H)
           |[H|[(r & _ & _ & H)|[(q & _ & _ & H)|[H|(q & _ & _ & H)]]]]]]]]];
      try discriminate H; injection H as ->.
    + done.
    + apply not_true_is_false. intros Hp. apply not_true_iff_false in E.
      apply E. by apply path_exists_ensured_mono.
  - intros res Hkey Hfetch Hok.
    rewrite (sync_completes env w res Hkey Hfetch Hok). fold s.
    change (path_exists (set_data ?d ?w') ?p) with (path_exists w' p).
    split; (apply final_path_exists; [|apply (folder_not_child (Settings.folderToSync s)); auto..]).
    + apply path_exists_ensured_mono, path_exists_ensured.
    + apply path_exists_ensured.
Qed.

(** ** How a run ends *)

Lemma loud_elem_of l1 k l2 ev :
  Forall quiet l1 → Forall quiet l2 → ¬ quiet ev →
  ev ∈ l1 ++ k ++ l2 ↔ ev ∈ k.
Proof.
  intros H1 H2 Hev. rewrite !elem_of_app. split; [|auto].
  intros [H|[H|H]]; [|done|].
  - destruct Hev. by apply (proj1 (Forall_forall _ _) H1).
  - destruct Hev. by apply (proj1 (Forall_forall _ _) H2).
Qed.

(** Every run is quiet but for one report: the request for the key, the
    failure with the error on the console, or the success with the write of
    the checkpoint. *)
Lemma sync_outcome env w :
  ∃ l1 k l2,
    events (sync env w) = l1 ++ k ++ l2 ∧ Forall quiet l1 ∧ Forall quiet l2 ∧
    result (sync env w) = inr tt ∧
    (k = [Notice PleaseEnterKey None]
     ∨ (∃ e, k = [Notice SyncFailed (Some 0); ConsoleError e])
     ∨ k = [Notice SyncSuccess None;
            Called (CallSaveData
                      (with_lastSyncTime (assign_settings (data w)) (now env)))]).
Proof.
  set (s := assign_settings (data w)).
  destruct (decide (Settings.openAPI s = "")) as [Hkey|Hkey].
  { rewrite (sync_no_key env w Hkey). exists [], [Notice PleaseEnterKey None], [].
    split_and!; auto. }
  destruct (fetchMemosWithResource env (Settings.openAPI s)) as [e|res] eqn:Hfetch.
  { rewrite (sync_fetch_failed env w e Hkey Hfetch).
    exists [Notice StartSyncing None; Called (CallFetch (Settings.openAPI s))],
           [Notice SyncFailed (Some 0); ConsoleError e], [].
    split_and!; eauto. repeat constructor. }
  destruct (sync_with_snapshot env w res Hkey Hfetch)
    as [(c & e & l & _ & _ & Hl & Hres & Hev & _)| ->].
  - exists l, [Notice SyncFailed (Some 0); ConsoleError e], [].
    split_and!; eauto.
    eapply quiet_prefix; [done|apply quiet_reconcile_events].
  - subst s.
    set (s := assign_settings (data w)).
    destruct (closing_events_eq env s res (set_settings s w)) as (l & Hc & Hq).
    exists (reconcile_events env s res (set_settings s w)),
           [Notice SyncSuccess None;
            Called (CallSaveData (with_lastSyncTime s (now env)))], l.
    cbn [events result]. rewrite Hc.
    split_and!; auto. apply quiet_reconcile_events.
Qed.

(** With a [loadSettings] that resolves, [sync] is the rest of the method
    from the world that [loadSettings] leaves. *)
Lemma sync_after_load env w :
  sync env w = sync_loaded env (world (loadSettings w)).
Proof.
  change (sync env w) with ((loadSettings ≫= λ _, sync_loaded env) w).
  erewrite bind_inr by reflexivity. rewrite prepend_nil.
  by destruct (sync_loaded env _).
Qed.

(** X13: how a run ends once the settings are loaded.  [sync] awaits
    [loadSettings] before its [try] block; from the world that
    [loadSettings] leaves, the rest of the method never rejects, and it
    makes exactly one of three reports: it asks for the key, or it shows
    the success notice, or it shows the failure notice.  An error is
    written on the console exactly in the runs that show the failure
    notice, and [saveData] is called exactly in the runs that show the
    success notice. *)
Theorem X13_one_report_per_run env w :
  let run := sync_loaded env (world (loadSettings w)) in
  let ev := events run in
  let asked := Notice PleaseEnterKey None ∈ ev in
  let succeeded := Notice SyncSuccess None ∈ ev in
  let failed := Notice SyncFailed (Some 0) ∈ ev in
  result run = inr tt ∧
  ((asked ∧ ¬ succeeded ∧ ¬ failed)
   ∨ (¬ asked ∧ succeeded ∧ ¬ failed)
   ∨ (¬ asked ∧ ¬ succeeded ∧ failed)) ∧
  ((∃ e, ConsoleError e ∈ ev) ↔ failed) ∧
  ((∃ d, Called (CallSaveData d) ∈ ev) ↔ succeeded).
Proof.
  intros run ev asked succeeded failed. subst asked succeeded failed ev run.
  rewrite <- sync_after_load.
  destruct (sync_outcome env w) as (l1 & k & l2 & -> & H1 & H2 & Hres & Hk).
  split; [done|].
  assert (∀ x, ¬ quiet x → x ∈ l1 ++ k ++ l2 ↔ x ∈ k) as Hin.
  { intros x Hx. by apply loud_elem_of. }
  rewrite !Hin by auto.
  setoid_rewrite (Hin (ConsoleError _)); [|auto].
  setoid_rewrite (Hin (Called (CallSaveData _))); [|auto].
  clear Hin H1 H2 Hres.
  destruct Hk as [->|[[e ->]| ->]];
    repeat setoid_rewrite elem_of_cons; repeat setoid_rewrite elem_of_nil.
  - split_and!.
    + left. split_and!; [auto|..]; intros [H|[]]; discriminate H.
    + split; [intros [e [H|[]]]; discriminate H|intros [H|[]]; discriminate H].
    + split; [intros [d [H|[]]]; discriminate H|intros [H|[]]; discriminate H].
  - split_and!.
    + right. right. split_and!; [| |auto]; intros [H|[H|[]]]; discriminate H.
    + split; [auto|eauto].
    + split; [intros [d [H|[H|[]]]]; discriminate H
             |intros [H|[H|[]]]; discriminate H].
  - split_and!.
    + right. left. split_and!; [|auto|]; intros [H|[H|[]]]; discriminate H.
    + split; [intros [e [H|[H|[]]]]; discriminate H
             |intros [H|[H|[]]]; discriminate H].
    + split; [auto|eauto].
Qed.
